(** * Product catalog backend: controllers, formatter and store, embedded in Rocq

    The development follows the JavaScript sources:
    - [helpers/reformatCategoryName.js]      module [Formatter]
    - [middlewares/setAuth.js]               module [Auth]
    - [database/schema/*.js], [migrations]   module [Store], with the
      constraints collected in [Schema.wf]
    - [controllers/productController.js]     module [ProductController]
    - [controllers/categoryController.js]    module [CategoryController]
    - the routes of [index.js]               module [Api]
    and models what they rest on: JavaScript strings ([JS]), [JSON.parse]
    ([Json]), PostgreSQL's [ILIKE] ([Pg]) and the select builder of the
    query library ([Store.Select]).

    JavaScript strings are sequences of UTF-16 code units.  The embedding
    covers the strings whose code units are below 256 (Latin-1), carried by
    [string]; on that fragment [toLowerCase] and [trim] are exactly the
    functions below.  Ids, prices and timestamps are integers.

    Definitions come first; the lemmas and theorems follow from
    "Lists, membership tests and the wf checker" on. *)

From Stdlib Require Import List ZArith NArith Bool String Ascii Lia Sorted.
Import ListNotations.

#[local] Set Warnings "-register-all".

Local Open Scope string_scope.
Local Open Scope Z_scope.

(* ================================================================== *)
(** ** JavaScript string primitives *)
(* ================================================================== *)

Module JS.

(** [String.prototype.toLowerCase] on one Latin-1 code unit: A-Z and the
    accented capitals U+00C0..U+00DE (without the sign U+00D7) move up by 32. *)
Definition lower_char (c : ascii) : ascii :=
  let n := N_of_ascii c in
  if (((65 <=? n) && (n <=? 90)) ||
      ((192 <=? n) && (n <=? 222) && negb (n =? 215)))%N
  then ascii_of_N (n + 32) else c.

Fixpoint toLowerCase (s : string) : string :=
  match s with
  | EmptyString => EmptyString
  | String c s' => String (lower_char c) (toLowerCase s')
  end.

(** White space and line terminators removed by [String.prototype.trim]
    (TAB, LF, VT, FF, CR, SP, NBSP; the others lie above U+00FF). *)
Definition is_ws (c : ascii) : bool :=
  let n := N_of_ascii c in
  (((9 <=? n) && (n <=? 13)) || (n =? 32) || (n =? 160))%N.

Fixpoint trimStart (s : string) : string :=
  match s with
  | EmptyString => EmptyString
  | String c s' => if is_ws c then trimStart s' else s
  end.

Definition is_empty (s : string) : bool :=
  match s with EmptyString => true | _ => false end.

Fixpoint trimEnd (s : string) : string :=
  match s with
  | EmptyString => EmptyString
  | String c s' =>
      let r := trimEnd s' in
      if is_ws c && is_empty r then EmptyString else String c r
  end.

Definition trim (s : string) : string := trimEnd (trimStart s).

(** [s.split(sep)] for a one-character separator: never the empty array;
    [split sep ""] is [[""]]. *)
Fixpoint split (sep : ascii) (s : string) : list string :=
  match s with
  | EmptyString => [EmptyString]
  | String c s' =>
      if Ascii.eqb c sep then EmptyString :: split sep s'
      else match split sep s' with
           | [] => [String c EmptyString]
           | t :: ts => String c t :: ts
           end
  end.

(** [arr.join(sep)]. *)
Fixpoint join (sep : string) (l : list string) : string :=
  match l with
  | [] => EmptyString
  | [t] => t
  | t :: ts => t ++ sep ++ join sep ts
  end.

(** Truthiness of a possibly absent string: [null], [undefined] and [""]
    are falsy. *)
Definition truthy (o : option string) : bool :=
  match o with
  | None => false
  | Some s => negb (is_empty s)
  end.

(** [Array.prototype.includes] / [Set.prototype.has] on integers. *)
Definition includes (x : Z) (l : list Z) : bool := existsb (Z.eqb x) l.

End JS.

(* ================================================================== *)
(** ** helpers/reformatCategoryName.js *)
(* ================================================================== *)

Module Formatter.

Definition space : ascii := " "%char.
Definition underscore : ascii := "_"%char.

(** [reformatCategoryNameInput]: [None] stands for [null]/[undefined]. *)
Definition reformatCategoryNameInput (name : option string) : option string :=
  match name with
  | None => None
  | Some n =>
      if JS.is_empty n then None
      else
        let lowerCaseName := JS.toLowerCase n in
        if (2 <=? List.length (JS.split space lowerCaseName))%nat
        then Some (JS.trim (JS.join "_" (JS.split space lowerCaseName)))
        else Some lowerCaseName
  end.

(** [reformatCategoryNameResponse]. *)
Definition reformatCategoryNameResponse (name : option string) : option string :=
  match name with
  | None => None
  | Some n =>
      if JS.is_empty n then None
      else
        let lowerCaseName := JS.toLowerCase n in
        if (2 <=? List.length (JS.split underscore lowerCaseName))%nat
        then Some (JS.trim (JS.join " " (JS.split underscore lowerCaseName)))
        else Some lowerCaseName
  end.

End Formatter.

(* ================================================================== *)
(** ** [JSON.parse]

    A recursive-descent reader for the JSON grammar (ECMA-404), the one
    [JSON.parse] accepts: white space is SP, TAB, LF, CR; a text is one
    value followed by white space only.  Recursion through nested arrays
    and objects is on a fuel argument; [OutOfFuel] is kept apart from
    [SyntaxError] so that a rejected text is never confused with an
    exhausted budget. *)
(* ================================================================== *)

Module Json.

Record number := {
  n_neg : bool;                       (* leading minus *)
  n_int : string;                     (* digits of the integer part *)
  n_frac : string;                    (* digits after the point, if any *)
  n_exp : option (bool * string)      (* exponent: negative?, digits *)
}.

Inductive json :=
| JNull
| JBool (b : bool)
| JNumber (n : number)
| JString (raw : string)              (* body between the quotes, as written *)
| JArray (items : list json)
| JObject (members : list (string * json)).

Inductive result (A : Type) :=
| Ok (a : A) (rest : string)
| SyntaxError
| OutOfFuel.
Arguments Ok {A} a rest.
Arguments SyntaxError {A}.
Arguments OutOfFuel {A}.

Definition is_json_ws (c : ascii) : bool :=
  let n := N_of_ascii c in ((n =? 32) || (n =? 9) || (n =? 10) || (n =? 13))%N.

Definition is_digit (c : ascii) : bool :=
  let n := N_of_ascii c in ((48 <=? n) && (n <=? 57))%N.

Definition is_hex (c : ascii) : bool :=
  let n := N_of_ascii c in
  (((48 <=? n) && (n <=? 57)) || ((65 <=? n) && (n <=? 70)) ||
   ((97 <=? n) && (n <=? 102)))%N.

Definition is_control (c : ascii) : bool := (N_of_ascii c <? 32)%N.

Definition is_simple_escape (c : ascii) : bool :=
  existsb (Ascii.eqb c)
    ["034"%char; "\"%char; "/"%char; "b"%char; "f"%char; "n"%char; "r"%char; "t"%char].

Fixpoint skip_ws (s : string) : string :=
  match s with
  | EmptyString => EmptyString
  | String c s' => if is_json_ws c then skip_ws s' else s
  end.

(** [strip_prefix lit s]: the rest of [s] after the literal [lit]. *)
Fixpoint strip_prefix (lit s : string) : option string :=
  match lit with
  | EmptyString => Some s
  | String a lit' =>
      match s with
      | EmptyString => None
      | String b s' => if Ascii.eqb a b then strip_prefix lit' s' else None
      end
  end.

(** Body of a string after its opening quote, up to the closing quote. *)
Fixpoint lex_string_body (s : string) : option (string * string) :=
  match s with
  | EmptyString => None
  | String c s' =>
      if Ascii.eqb c "034"%char then Some (EmptyString, s')
      else if is_control c then None
      else if Ascii.eqb c "\"%char then
        match s' with
        | EmptyString => None
        | String e s'' =>
            if is_simple_escape e then
              match lex_string_body s'' with
              | Some (b, r) => Some (String c (String e b), r)
              | None => None
              end
            else if Ascii.eqb e "u"%char then
              match s'' with
              | String h1 (String h2 (String h3 (String h4 s4))) =>
                  if is_hex h1 && is_hex h2 && is_hex h3 && is_hex h4 then
                    match lex_string_body s4 with
                    | Some (b, r) =>
                        Some (String c (String e (String h1 (String h2
                               (String h3 (String h4 b))))), r)
                    | None => None
                    end
                  else None
              | _ => None
              end
            else None
        end
      else
        match lex_string_body s' with
        | Some (b, r) => Some (String c b, r)
        | None => None
        end
  end.

Fixpoint lex_digits (s : string) : string * string :=
  match s with
  | EmptyString => (EmptyString, EmptyString)
  | String c s' =>
      if is_digit c then let '(d, r) := lex_digits s' in (String c d, r)
      else (EmptyString, s)
  end.

(** Integer part: a single [0], or a non-zero digit followed by digits. *)
Definition lex_int (s : string) : option (string * string) :=
  match s with
  | EmptyString => None
  | String c s' =>
      if Ascii.eqb c "0"%char then Some ("0", s')
      else if is_digit c then let '(d, r) := lex_digits s' in Some (String c d, r)
      else None
  end.

Definition lex_frac (s : string) : option (string * string) :=
  match s with
  | String c s' =>
      if Ascii.eqb c "."%char then
        match lex_digits s' with
        | (EmptyString, _) => None
        | (d, r) => Some (d, r)
        end
      else Some (EmptyString, s)
  | EmptyString => Some (EmptyString, s)
  end.

Definition lex_exp (s : string) : option (option (bool * string) * string) :=
  match s with
  | String c s' =>
      if Ascii.eqb c "e"%char || Ascii.eqb c "E"%char then
        let '(sg, s1) :=
          match s' with
          | String g s1 =>
              if Ascii.eqb g "-"%char then (true, s1)
              else if Ascii.eqb g "+"%char then (false, s1)
              else (false, s')
          | EmptyString => (false, s')
          end in
        match lex_digits s1 with
        | (EmptyString, _) => None
        | (d, r) => Some (Some (sg, d), r)
        end
      else Some (None, s)
  | EmptyString => Some (None, s)
  end.

Definition lex_number (s : string) : option (number * string) :=
  let '(neg, s0) :=
    match s with
    | String c s' => if Ascii.eqb c "-"%char then (true, s') else (false, s)
    | EmptyString => (false, s)
    end in
  match lex_int s0 with
  | None => None
  | Some (i, s1) =>
      match lex_frac s1 with
      | None => None
      | Some (f, s2) =>
          match lex_exp s2 with
          | None => None
          | Some (e, s3) =>
              Some ({| n_neg := neg; n_int := i; n_frac := f; n_exp := e |}, s3)
          end
      end
  end.

Definition lit {A} (text : string) (v : A) (s : string) : result A :=
  match strip_prefix text s with
  | Some r => Ok v r
  | None => SyntaxError
  end.

Fixpoint value (fuel : nat) (s : string) : result json :=
  match fuel with
  | O => OutOfFuel
  | S fuel' =>
      match skip_ws s with
      | EmptyString => SyntaxError
      | String c r =>
          if Ascii.eqb c "n"%char then lit "ull" JNull r
          else if Ascii.eqb c "t"%char then lit "rue" (JBool true) r
          else if Ascii.eqb c "f"%char then lit "alse" (JBool false) r
          else if Ascii.eqb c "034"%char then
            match lex_string_body r with
            | Some (b, r') => Ok (JString b) r'
            | None => SyntaxError
            end
          else if Ascii.eqb c "["%char then
            match skip_ws r with
            | String c1 r1 =>
                if Ascii.eqb c1 "]"%char then Ok (JArray []) r1
                else
                  match value fuel' r with
                  | Ok v r' =>
                      match elements fuel' r' with
                      | Ok l r'' => Ok (JArray (v :: l)) r''
                      | SyntaxError => SyntaxError
                      | OutOfFuel => OutOfFuel
                      end
                  | SyntaxError => SyntaxError
                  | OutOfFuel => OutOfFuel
                  end
            | EmptyString => SyntaxError
            end
          else if Ascii.eqb c "{"%char then
            match skip_ws r with
            | String c1 r1 =>
                if Ascii.eqb c1 "}"%char then Ok (JObject []) r1
                else
                  match member fuel' r with
                  | Ok kv r' =>
                      match members fuel' r' with
                      | Ok l r'' => Ok (JObject (kv :: l)) r''
                      | SyntaxError => SyntaxError
                      | OutOfFuel => OutOfFuel
                      end
                  | SyntaxError => SyntaxError
                  | OutOfFuel => OutOfFuel
                  end
            | EmptyString => SyntaxError
            end
          else if Ascii.eqb c "-"%char || is_digit c then
            match lex_number (String c r) with
            | Some (n, r') => Ok (JNumber n) r'
            | None => SyntaxError
            end
          else SyntaxError
      end
  end

(** After an element: [, value]* [[]]]. *)
with elements (fuel : nat) (s : string) : result (list json) :=
  match fuel with
  | O => OutOfFuel
  | S fuel' =>
      match skip_ws s with
      | EmptyString => SyntaxError
      | String c r =>
          if Ascii.eqb c "]"%char then Ok [] r
          else if Ascii.eqb c ","%char then
            match value fuel' r with
            | Ok v r' =>
                match elements fuel' r' with
                | Ok l r'' => Ok (v :: l) r''
                | SyntaxError => SyntaxError
                | OutOfFuel => OutOfFuel
                end
            | SyntaxError => SyntaxError
            | OutOfFuel => OutOfFuel
            end
          else SyntaxError
      end
  end

(** One member: ["key" : value]. *)
with member (fuel : nat) (s : string) : result (string * json) :=
  match fuel with
  | O => OutOfFuel
  | S fuel' =>
      match skip_ws s with
      | EmptyString => SyntaxError
      | String c r =>
          if Ascii.eqb c "034"%char then
            match lex_string_body r with
            | Some (k, r1) =>
                match skip_ws r1 with
                | String c2 r2 =>
                    if Ascii.eqb c2 ":"%char then
                      match value fuel' r2 with
                      | Ok v r3 => Ok (k, v) r3
                      | SyntaxError => SyntaxError
                      | OutOfFuel => OutOfFuel
                      end
                    else SyntaxError
                | EmptyString => SyntaxError
                end
            | None => SyntaxError
            end
          else SyntaxError
      end
  end

(** After a member: [, member]* [}]. *)
with members (fuel : nat) (s : string) : result (list (string * json)) :=
  match fuel with
  | O => OutOfFuel
  | S fuel' =>
      match skip_ws s with
      | EmptyString => SyntaxError
      | String c r =>
          if Ascii.eqb c "}"%char then Ok [] r
          else if Ascii.eqb c ","%char then
            match member fuel' r with
            | Ok kv r' =>
                match members fuel' r' with
                | Ok l r'' => Ok (kv :: l) r''
                | SyntaxError => SyntaxError
                | OutOfFuel => OutOfFuel
                end
            | SyntaxError => SyntaxError
            | OutOfFuel => OutOfFuel
            end
          else SyntaxError
      end
  end.

(** Fuel that no text exhausts: every call below [value] consumes a
    character of the text before the next one is made. *)
Definition fuel_for (s : string) : nat := (2 * String.length s + 2)%nat.

Inductive parsed :=
| Parsed (v : json)
| ThrowsSyntaxError
| Exhausted.

(** [JSON.parse(text)]. *)
Definition parse (text : string) : parsed :=
  match value (fuel_for text) text with
  | Ok v r => if JS.is_empty (skip_ws r) then Parsed v else ThrowsSyntaxError
  | SyntaxError => ThrowsSyntaxError
  | OutOfFuel => Exhausted
  end.

End Json.
(* ================================================================== *)
(** ** PostgreSQL pattern matching: [LIKE] and [ILIKE] *)
(* ================================================================== *)

Module Pg.

(** [s LIKE p]: [%] matches any run of characters, [_] any one character,
    a backslash takes the next pattern character literally.  A pattern that
    ends in a lone backslash is an error in PostgreSQL; it matches nothing
    here, and no pattern built as [%...%] ends that way. *)
Fixpoint like (p : string) : string -> bool :=
  match p with
  | EmptyString => fun s => JS.is_empty s
  | String c p' =>
      if Ascii.eqb c "%"%char then
        fix any (s : string) : bool :=
          like p' s ||
          match s with
          | EmptyString => false
          | String _ s' => any s'
          end
      else if Ascii.eqb c "_"%char then
        fun s => match s with
                 | EmptyString => false
                 | String _ s' => like p' s'
                 end
      else if Ascii.eqb c "\"%char then
        match p' with
        | EmptyString => fun _ => false
        | String e p'' =>
            fun s => match s with
                     | EmptyString => false
                     | String d s' => Ascii.eqb d e && like p'' s'
                     end
        end
      else
        fun s => match s with
                 | EmptyString => false
                 | String d s' => Ascii.eqb d c && like p' s'
                 end
  end.

(** The characters with a meaning of their own in a pattern. *)
Definition wildcard (c : ascii) : bool :=
  Ascii.eqb c "%"%char || Ascii.eqb c "_"%char || Ascii.eqb c "\"%char.

Fixpoint plain (s : string) : bool :=
  match s with
  | EmptyString => true
  | String c s' => negb (wildcard c) && plain s'
  end.

(** [s ILIKE p]: both sides are case-folded, then matched. *)
Definition ilike (s p : string) : bool :=
  like (JS.toLowerCase p) (JS.toLowerCase s).

End Pg.

(* ================================================================== *)
(** ** The relational store (database/schema, migrations) *)
(* ================================================================== *)

Module Store.

(** [products]: id serial primary key, name text not null unique,
    price integer not null, created_at, updated_at. *)
Record Product := {
  product_id : Z;
  product_name : string;
  product_price : Z;
  product_createdAt : Z;
  product_updatedAt : Z
}.

(** [categories]: id serial primary key, name text not null unique,
    created_at. *)
Record Category := {
  category_id : Z;
  category_name : string;
  category_createdAt : Z
}.

(** [product_categories]: both columns reference their table with
    [on delete cascade]; the pair is the primary key. *)
Record ProductCategory := {
  productId : Z;
  categoryId : Z
}.

Record Db := {
  products : list Product;
  categories : list Category;
  productCategories : list ProductCategory;
  products_id_seq : Z;
  categories_id_seq : Z
}.

(** The range of an [integer] column.  The statements below are read for
    ids and prices within it.  Handed a parameter outside it the server
    refuses the statement (SQLSTATE 22003) and the handler throws, a path
    the embedding does not have: where a result rests on a statement
    going through with a value the caller chose, it assumes the value
    within [int4]. *)
Definition int4 (x : Z) : Prop := -2147483648 <= x <= 2147483647.

Inductive Error :=
| JsonSyntaxError                     (* thrown by JSON.parse *)
| EmptyValues                         (* drizzle: values() must be called with at least one value *)
| ConstraintViolation (constraint : string).

(** Statements run against the store and either fail or return a value;
    the store they leave behind is returned in both cases. *)
Definition M (A : Type) : Type := Db -> Db * (Error + A).

Definition ret {A} (a : A) : M A := fun db => (db, inr a).

Definition bind {A B} (m : M A) (k : A -> M B) : M B :=
  fun db =>
    match m db with
    | (db', inl e) => (db', inl e)
    | (db', inr a) => k a db'
    end.

Definition throw {A} (e : Error) : M A := fun db => (db, inl e).

Notation "x <- m ;; k" := (bind m (fun x => k))
  (at level 61, m at next level, right associativity).
Notation "m ;;; k" := (bind m (fun _ => k))
  (at level 61, right associativity).

(** Sequences are not transactional: a rolled back transaction restores
    the tables and keeps the values [nextval] has handed out. *)
Definition rollback (before after : Db) : Db :=
  {| products := products before;
     categories := categories before;
     productCategories := productCategories before;
     products_id_seq := products_id_seq after;
     categories_id_seq := categories_id_seq after |}.

(** [db.transaction(async (tx) => ...)]: commit when the body returns,
    roll back and rethrow when it throws. *)
Definition transaction {A} (body : M A) : M A :=
  fun db =>
    match body db with
    | (db', inr a) => (db', inr a)
    | (db', inl e) => (rollback db db', inl e)
    end.

Definition hasProduct (db : Db) (id : Z) : bool :=
  existsb (fun p => product_id p =? id) (products db).

Definition hasCategory (db : Db) (id : Z) : bool :=
  existsb (fun c => category_id c =? id) (categories db).

Definition hasPair (db : Db) (pid cid : Z) : bool :=
  existsb (fun r => (productId r =? pid) && (categoryId r =? cid))
          (productCategories db).

(** [select().from(products).where(eq(products.name, name))] *)
Definition selectProductsByName (name : string) (db : Db) : list Product :=
  filter (fun p => String.eqb (product_name p) name) (products db).

(** [select().from(products).where(eq(products.id, id))], for [int4 id]. *)
Definition selectProductsById (id : Z) (db : Db) : list Product :=
  filter (fun p => product_id p =? id) (products db).

(** [select({ id: categories.id }).from(categories)
      .where(inArray(categories.id, ids))].
    Over the empty array [inArray] is the condition [false] (the query
    builder's releases before 0.33 throw instead); the results below do
    not depend on that case.  The ids are read within [int4]. *)
Definition selectCategoryIdsIn (ids : list Z) (db : Db) : list Z :=
  map category_id (filter (fun c => JS.includes (category_id c) ids) (categories db)).

(** [select({productId, categoryId}).from(productCategories)
      .where(inArray(productCategories.categoryId, ids))], the ids
    within [int4]. *)
Definition selectPairsByCategoryIn (ids : list Z) (db : Db) : list ProductCategory :=
  filter (fun r => JS.includes (categoryId r) ids) (productCategories db).

(** [insert(products).values({ name, price }).returning()], for
    [int4 price]. *)
Definition insertProduct (name : string) (price now : Z) : M Product :=
  fun db =>
    let id := products_id_seq db in
    let db1 := {| products := products db;
                  categories := categories db;
                  productCategories := productCategories db;
                  products_id_seq := id + 1;
                  categories_id_seq := categories_id_seq db |} in
    if hasProduct db id then (db1, inl (ConstraintViolation "products_pkey"))
    else if existsb (fun p => String.eqb (product_name p) name) (products db)
    then (db1, inl (ConstraintViolation "products_name_unique"))
    else
      let row := {| product_id := id; product_name := name; product_price := price;
                    product_createdAt := now; product_updatedAt := now |} in
      ({| products := products db ++ [row];
          categories := categories db;
          productCategories := productCategories db;
          products_id_seq := id + 1;
          categories_id_seq := categories_id_seq db |}, inr row).

(** One row into [product_categories], with its three constraints. *)
Definition insertPair (r : ProductCategory) : M unit :=
  fun db =>
    if hasPair db (productId r) (categoryId r)
    then (db, inl (ConstraintViolation "product_categories_product_id_category_id_pk"))
    else if negb (hasProduct db (productId r))
    then (db, inl (ConstraintViolation "product_categories_product_id_products_id_fk"))
    else if negb (hasCategory db (categoryId r))
    then (db, inl (ConstraintViolation "product_categories_category_id_categories_id_fk"))
    else ({| products := products db;
             categories := categories db;
             productCategories := productCategories db ++ [r];
             products_id_seq := products_id_seq db;
             categories_id_seq := categories_id_seq db |}, inr tt).

(** The rows of one statement, tested one after the other.  The server
    tests the primary key as each row goes in and the foreign keys when
    the statement ends: which of several violated constraints is reported
    can differ, whether the statement fails does not. *)
Fixpoint insertPairs (rows : list ProductCategory) : M unit :=
  match rows with
  | [] => ret tt
  | r :: rows' => insertPair r ;;; insertPairs rows'
  end.

(** [insert(productCategories).values(rows)]: the query builder throws on
    the empty array before any statement is sent. *)
Definition insertProductCategories (rows : list ProductCategory) : M unit :=
  match rows with
  | [] => throw EmptyValues
  | _ => insertPairs rows
  end.

(** [update(products).set({ name?, price?, updatedAt }).where(eq(products.id, id))
      .returning()], for [id] and a given [price] within [int4]. *)
Definition updateProduct (id : Z) (name : option string) (price : option Z)
    (updatedAt : Z) : M (list Product) :=
  fun db =>
    let set p :=
      {| product_id := product_id p;
         product_name := match name with Some n => n | None => product_name p end;
         product_price := match price with Some x => x | None => product_price p end;
         product_createdAt := product_createdAt p;
         product_updatedAt := updatedAt |} in
    let clash :=
      match name with
      | Some n => hasProduct db id &&
                  existsb (fun p => negb (product_id p =? id) &&
                                    String.eqb (product_name p) n) (products db)
      | None => false
      end in
    if clash then (db, inl (ConstraintViolation "products_name_unique"))
    else
      ({| products := map (fun p => if product_id p =? id then set p else p) (products db);
          categories := categories db;
          productCategories := productCategories db;
          products_id_seq := products_id_seq db;
          categories_id_seq := categories_id_seq db |},
       inr (map set (selectProductsById id db))).

(** [delete(productCategories).where(eq(productCategories.productId, id))] *)
Definition deletePairsOfProduct (id : Z) : M unit :=
  fun db =>
    ({| products := products db;
        categories := categories db;
        productCategories :=
          filter (fun r => negb (productId r =? id)) (productCategories db);
        products_id_seq := products_id_seq db;
        categories_id_seq := categories_id_seq db |}, inr tt).

(** [delete(products).where(eq(products.id, id)).returning()]; the
    association rows of the product go with it (cascade). *)
Definition deleteProductRow (id : Z) : M (list Product) :=
  fun db =>
    ({| products := filter (fun p => negb (product_id p =? id)) (products db);
        categories := categories db;
        productCategories :=
          if hasProduct db id
          then filter (fun r => negb (productId r =? id)) (productCategories db)
          else productCategories db;
        products_id_seq := products_id_seq db;
        categories_id_seq := categories_id_seq db |},
     inr (selectProductsById id db)).

(** [insert(categories).values({ name }).returning({ id, name })] *)
Definition insertCategory (name : string) (now : Z) : M (list Category) :=
  fun db =>
    let id := categories_id_seq db in
    let db1 := {| products := products db;
                  categories := categories db;
                  productCategories := productCategories db;
                  products_id_seq := products_id_seq db;
                  categories_id_seq := id + 1 |} in
    if hasCategory db id then (db1, inl (ConstraintViolation "categories_pkey"))
    else if existsb (fun c => String.eqb (category_name c) name) (categories db)
    then (db1, inl (ConstraintViolation "categories_name_unique"))
    else
      let row := {| category_id := id; category_name := name;
                    category_createdAt := now |} in
      ({| products := products db;
          categories := categories db ++ [row];
          productCategories := productCategories db;
          products_id_seq := products_id_seq db;
          categories_id_seq := id + 1 |}, inr [row]).

(** *** The select builder over the three-way inner join *)

Record Row := {
  row_product : Product;
  row_productCategory : ProductCategory;
  row_category : Category
}.

(** [from(products).innerJoin(productCategories, eq(products.id, productId))
      .innerJoin(categories, eq(categories.id, categoryId))] *)
Definition joinFromProducts (db : Db) : list Row :=
  flat_map (fun p =>
    flat_map (fun pc =>
      if product_id p =? productId pc then
        flat_map (fun c =>
          if category_id c =? categoryId pc
          then [{| row_product := p; row_productCategory := pc; row_category := c |}]
          else [])
          (categories db)
      else [])
      (productCategories db))
    (products db).

(** [from(productCategories).innerJoin(products, ...).innerJoin(categories, ...)] *)
Definition joinFromProductCategories (db : Db) : list Row :=
  flat_map (fun pc =>
    flat_map (fun p =>
      if product_id p =? productId pc then
        flat_map (fun c =>
          if category_id c =? categoryId pc
          then [{| row_product := p; row_productCategory := pc; row_category := c |}]
          else [])
          (categories db)
      else [])
      (products db))
    (productCategories db).

(** The builder holds one [where] slot and one [orderBy] slot; calling
    [.where(...)] stores its condition in the slot, replacing what was
    there. *)
Record Select := {
  sel_rows : list Row;
  sel_where : option (Row -> bool);
  sel_orderByCreatedAtDesc : bool
}.

Definition where_ (q : Select) (cond : Row -> bool) : Select :=
  {| sel_rows := sel_rows q;
     sel_where := Some cond;
     sel_orderByCreatedAtDesc := sel_orderByCreatedAtDesc q |}.

Definition orderByCreatedAtDesc (q : Select) : Select :=
  {| sel_rows := sel_rows q;
     sel_where := sel_where q;
     sel_orderByCreatedAtDesc := true |}.

(** Insertion sort, newest [created_at] first.  Rows of equal
    [created_at] stay in table order here; the server leaves their order
    open, and nothing below is stated of it. *)
Fixpoint insertRow (r : Row) (l : list Row) : list Row :=
  match l with
  | [] => [r]
  | h :: t =>
      if product_createdAt (row_product h) <=? product_createdAt (row_product r)
      then r :: l
      else h :: insertRow r t
  end.

Definition sortRows (l : list Row) : list Row := fold_right insertRow [] l.

(** Awaiting the builder runs the query. *)
Definition run (q : Select) : list Row :=
  let kept := match sel_where q with
              | Some cond => filter cond (sel_rows q)
              | None => sel_rows q
              end in
  if sel_orderByCreatedAtDesc q then sortRows kept else kept.

End Store.
(* ================================================================== *)
(** ** middlewares/setAuth.js *)
(* ================================================================== *)

Module Auth.

Inductive PayloadId :=
| IdNumber (n : Z)
| IdString (s : string).

(** What [jwt.sign(payload, secret, { expiresIn })] signs: the payload
    [{ id }], the issue time, the expiry, under the secret.  The record
    stands for the compact token; two tokens are equal when these are. *)
Record Token := {
  tk_id : PayloadId;
  tk_iat : Z;
  tk_exp : Z;
  tk_secret : string
}.

(** [expiresIn] in seconds: ["60s"] is 60 and ["7d"] is 604800. *)
Definition sign (payload : PayloadId) (secret : string) (expiresIn now : Z) : Token :=
  {| tk_id := payload; tk_iat := now; tk_exp := now + expiresIn; tk_secret := secret |}.

Record Cookie := {
  cookie_name : string;
  cookie_value : Token;
  cookie_path : string;
  cookie_maxAge : Z;
  cookie_httpOnly : bool;
  cookie_secure : bool;
  cookie_sameSite : string
}.

(** [process.env.JWT_SECRET || "mySecret"] *)
Definition secret (env_JWT_SECRET : option string) : string :=
  match env_JWT_SECRET with
  | Some s => if JS.is_empty s then "mySecret" else s
  | None => "mySecret"
  end.

Definition anonymous : PayloadId := IdString "anonymous".

(** [setAuthCookies(res, payload = { id: "anonymous" })]: the value of the
    [Set-Cookie] header it puts on the response, and the two tokens. *)
Definition setAuthCookies (env_JWT_SECRET : option string) (now : Z)
    (payload : option PayloadId) : list Cookie * (Token * Token) :=
  let payload := match payload with Some p => p | None => anonymous end in
  let accessToken := sign payload (secret env_JWT_SECRET) 60 now in
  let refreshToken := sign payload (secret env_JWT_SECRET) 604800 now in
  ([ {| cookie_name := "access_token"; cookie_value := accessToken;
        cookie_path := "/"; cookie_maxAge := 60; cookie_httpOnly := true;
        cookie_secure := true; cookie_sameSite := "None" |};
     {| cookie_name := "refresh_token"; cookie_value := refreshToken;
        cookie_path := "/"; cookie_maxAge := 604800; cookie_httpOnly := true;
        cookie_secure := true; cookie_sameSite := "None" |} ],
   (accessToken, refreshToken)).

(** The caller's side (RFC 6265, 5.3): a received cookie evicts the stored
    cookie of the same name and path. *)
Definition sameSlot (c d : Cookie) : bool :=
  String.eqb (cookie_name c) (cookie_name d) &&
  String.eqb (cookie_path c) (cookie_path d).

Definition store (jar : list Cookie) (c : Cookie) : list Cookie :=
  c :: filter (fun d => negb (sameSlot c d)) jar.

Definition receive (jar : list Cookie) (setCookie : list Cookie) : list Cookie :=
  fold_left store setCookie jar.

(** [req.cookies[name]] as the cookie parser would see it next time. *)
Definition cookie (jar : list Cookie) (name : string) : option Token :=
  match filter (fun d => String.eqb (cookie_name d) name) jar with
  | c :: _ => Some (cookie_value c)
  | [] => None
  end.

End Auth.

(* ================================================================== *)
(** ** HTTP responses *)
(* ================================================================== *)

Module Http.

Record CategoryView := {
  cv_id : Z;
  cv_name : option string
}.

Record ProductView := {
  pv_id : Z;
  pv_name : string;
  pv_price : Z;
  pv_categories : list CategoryView
}.

Inductive Data :=
| NoData
| ProductList (l : list ProductView)
| ProductDetail (row : option Store.Product) (categories : list CategoryView)
| ProductRows (l : list Store.Product)
| CategoryList (l : list CategoryView).

Record Response := {
  statusCode : Z;
  setCookie : list Auth.Cookie;
  message : string;
  status : string;
  data : Data
}.

Inductive Outcome :=
| Responds (r : Response)
| Throws (e : Store.Error).

(** [res.json({ message, status, data })] *)
Definition json (cookies : list Auth.Cookie) (message status : string) (data : Data) : Outcome :=
  Responds {| statusCode := 200; setCookie := cookies; message := message;
              status := status; data := data |}.

(** [res.status(code).json({ message, status: "error" })] *)
Definition error (code : Z) (message : string) : Outcome :=
  Responds {| statusCode := code; setCookie := []; message := message;
              status := "error"; data := NoData |}.

End Http.

(* ================================================================== *)
(** ** controllers/productController.js *)
(* ================================================================== *)

Module ProductController.

Import Store Http.

Definition categoryView (c : Category) : CategoryView :=
  {| cv_id := category_id c;
     cv_name := Formatter.reformatCategoryNameResponse (Some (category_name c)) |}.

(** *** Step 1 of [getProducts]: the products that match every category *)

(** [countMap]: productId -> Set of categoryId, both in insertion order. *)
Definition countMap_has (m : list (Z * list Z)) (k : Z) : bool :=
  existsb (fun e => fst e =? k) m.

Definition set_add (x : Z) (s : list Z) : list Z :=
  if JS.includes x s then s else (s ++ [x])%list.

Fixpoint countMap_add (m : list (Z * list Z)) (k x : Z) : list (Z * list Z) :=
  match m with
  | [] => []
  | (k', s) :: m' =>
      if k' =? k then (k', set_add x s) :: m' else (k', s) :: countMap_add m' k x
  end.

Definition countStep (m : list (Z * list Z)) (row : ProductCategory) : list (Z * list Z) :=
  let m1 := if countMap_has m (productId row) then m else (m ++ [(productId row, [])])%list in
  countMap_add m1 (productId row) (categoryId row).

Definition buildCountMap (rows : list ProductCategory) : list (Z * list Z) :=
  fold_left countStep rows [].

Definition matchingProductIds (categoryIds : list Z) (db : Db) : list Z :=
  let rows := selectPairsByCategoryIn categoryIds db in
  let countMap := buildCountMap rows in
  map fst
    (filter (fun e => forallb (fun id => JS.includes id (snd e)) categoryIds) countMap).

(** *** Step 3 of [getProducts]: grouping the joined rows *)

Definition productMap_has (m : list ProductView) (k : Z) : bool :=
  existsb (fun v => pv_id v =? k) m.

Fixpoint productMap_push (m : list ProductView) (k : Z) (c : CategoryView) : list ProductView :=
  match m with
  | [] => []
  | v :: m' =>
      if pv_id v =? k
      then {| pv_id := pv_id v; pv_name := pv_name v; pv_price := pv_price v;
              pv_categories := pv_categories v ++ [c] |} :: m'
      else v :: productMap_push m' k c
  end.

Definition groupStep (m : list ProductView) (row : Row) : list ProductView :=
  let product := row_product row in
  let category := row_category row in
  let m1 := if productMap_has m (product_id product) then m
            else (m ++ [{| pv_id := product_id product; pv_name := product_name product;
                           pv_price := product_price product; pv_categories := [] |}])%list in
  productMap_push m1 (product_id product) (categoryView category).

Definition groupRows (rows : list Row) : list ProductView :=
  fold_left groupStep rows [].

(** [categoryIds && categoryIds.length > 0] *)
Definition filterGiven (categoryIds : option (list Z)) : bool :=
  match categoryIds with
  | Some (_ :: _) => true
  | _ => false
  end.

(** [getProducts] from the parsed [categoryIds] on.  The second query of
    the handler ([newQuery]) is run and its rows are never read. *)
Definition getProducts (categoryIds : option (list Z)) (productNameSearch : option string)
    (db : Db) : Outcome :=
  let matching :=
    if filterGiven categoryIds
    then matchingProductIds (match categoryIds with Some l => l | None => [] end) db
    else [] in
  if filterGiven categoryIds && (List.length matching =? 0)%nat
  then json [] "No products found" "success" (ProductList [])
  else
    let baseQuery :=
      orderByCreatedAtDesc
        {| sel_rows := joinFromProducts db; sel_where := None;
           sel_orderByCreatedAtDesc := false |} in
    let baseQuery :=
      if filterGiven categoryIds
      then where_ baseQuery (fun r => JS.includes (product_id (row_product r)) matching)
      else baseQuery in
    let baseQuery :=
      match productNameSearch with
      | Some s =>
          if JS.is_empty s then baseQuery
          else where_ baseQuery
                 (fun r => Pg.ilike (product_name (row_product r)) ("%" ++ s ++ "%"))
      | None => baseQuery
      end in
    let rows := run baseQuery in
    json [] "Products fetched successfully" "success" (ProductList (groupRows rows)).

(** *** The query string *)

Fixpoint digitsValue (acc : Z) (s : string) : Z :=
  match s with
  | EmptyString => acc
  | String c s' => digitsValue (10 * acc + (Z.of_N (N_of_ascii c) - 48)) s'
  end.

(** The integer a JSON number denotes, when it is written without fraction
    and exponent and is exactly representable (at most 2^53 - 1 in size). *)
Definition safeInteger (n : Json.number) : option Z :=
  match Json.n_frac n, Json.n_exp n with
  | EmptyString, None =>
      let v := digitsValue 0 (Json.n_int n) in
      if v <=? 9007199254740991
      then Some (if Json.n_neg n then - v else v)
      else None
  | _, _ => None
  end.

Fixpoint integers (items : list Json.json) : option (list Z) :=
  match items with
  | [] => Some []
  | Json.JNumber n :: items' =>
      match safeInteger n, integers items' with
      | Some x, Some l => Some (x :: l)
      | _, _ => None
      end
  | _ :: _ => None
  end.

Inductive decoded :=
| Ids (categoryIds : option (list Z))  (* an array of integers, or a value the two tests skip *)
| JsonThrows                           (* JSON.parse threw *)
| NotEmbedded.                         (* a value the driver would be handed as it is *)

(** Lines 57-65, and what [categoryIds && categoryIds.length > 0] makes of
    the parsed value: [null], booleans, numbers, [""] and [{}] fail the
    test like an absent parameter does. *)
Definition decodeCategoryIds (raw : option string) : decoded :=
  match raw with
  | None => Ids None
  | Some text =>
      if JS.is_empty text then Ids None
      else
        match Json.parse text with
        | Json.ThrowsSyntaxError => JsonThrows
        | Json.Exhausted => NotEmbedded
        | Json.Parsed v =>
            match v with
            | Json.JNull | Json.JBool _ | Json.JNumber _ => Ids None
            | Json.JString raw => if JS.is_empty raw then Ids None else NotEmbedded
            | Json.JArray items =>
                match integers items with
                | Some l => Ids (Some l)
                | None => NotEmbedded
                end
            | Json.JObject [] => Ids None
            | Json.JObject (_ :: _) => NotEmbedded
            end
        end
  end.

(** [getProducts(req, res)] on [req.query]; [None] outside the embedding. *)
Definition getProductsRequest (query_categoryIds query_name : option string) (db : Db)
    : option Outcome :=
  match decodeCategoryIds query_categoryIds with
  | JsonThrows => Some (Throws JsonSyntaxError)
  | NotEmbedded => None
  | Ids categoryIds => Some (getProducts categoryIds query_name db)
  end.

(** *** [addProduct] *)

Definition pairsFor (id : Z) (categoryIds : list Z) : list ProductCategory :=
  map (fun categoryId => {| productId := id; categoryId := categoryId |}) categoryIds.

(** The re-fetch shared by [addProduct] and [editProduct].  The query has
    no [ORDER BY]: the rows come in table order here, the server returns
    them in an order of its choice, and what is stated of them below reads
    them as a set. *)
Definition productWithCategories (id : Z) (db : Db) : list Row :=
  run (where_ {| sel_rows := joinFromProductCategories db; sel_where := None;
                 sel_orderByCreatedAtDesc := false |}
              (fun r => productId (row_productCategory r) =? id)).

Definition addProduct (env_JWT_SECRET : option string) (now : Z)
    (name : string) (price : Z) (categoryIds : list Z) (db : Db) : Db * Outcome :=
  let existingProduct := selectProductsByName name db in
  if (0 <? List.length existingProduct)%nat
  then (db, error 400 "Product already exists")
  else
    let existingCategories := selectCategoryIdsIn categoryIds db in
    if (List.length existingCategories =? 0)%nat
    then (db, error 400 "Category not found")
    else
      match transaction
              (insertedProduct <- insertProduct name price now ;;
               insertProductCategories (pairsFor (product_id insertedProduct) categoryIds) ;;;
               ret insertedProduct) db with
      | (db', inl e) => (db', Throws e)
      | (db', inr newProduct) =>
          let rows := productWithCategories (product_id newProduct) db' in
          let cookies :=
            fst (Auth.setAuthCookies env_JWT_SECRET now
                   (Some (Auth.IdNumber (product_id newProduct)))) in
          (db', json cookies "Product added successfully" "success"
                  (ProductDetail (Some newProduct)
                     (map (fun row => categoryView (row_category row)) rows)))
      end.

(** *** [editProduct] *)

Definition editProduct (now : Z) (id : Z) (name : option string) (price : option Z)
    (categoryIds : option (list Z)) (db : Db) : Db * Outcome :=
  let existingProduct := selectProductsById id db in
  if (List.length existingProduct =? 0)%nat
  then (db, error 404 "Product not found")
  else
    match transaction
            (updated <- updateProduct id
                          (if JS.truthy name then name else None)
                          (match price with
                           | Some x => if x =? 0 then None else Some x
                           | None => None
                           end)
                          now ;;
             (if filterGiven categoryIds then
                let validCategoryIds :=
                  selectCategoryIdsIn
                    (match categoryIds with Some l => l | None => [] end) in
                (fun db1 =>
                   (deletePairsOfProduct id ;;;
                    insertProductCategories (pairsFor id (validCategoryIds db1))) db1)
              else ret tt) ;;;
             ret (hd_error updated)) db with
    | (db', inl e) => (db', Throws e)
    | (db', inr updatedProduct) =>
        let rows := productWithCategories id db' in
        (db', json [] "Product updated successfully" "success"
                (ProductDetail updatedProduct
                   (map (fun row => categoryView (row_category row)) rows)))
    end.

(** *** [deleteProduct] *)

Definition deleteProduct (id : Z) (db : Db) : Db * Outcome :=
  let existing := selectProductsById id db in
  if (List.length existing =? 0)%nat
  then (db, error 404 "Product not found")
  else
    match deleteProductRow id db with
    | (db', inl e) => (db', Throws e)
    | (db', inr deletedProduct) =>
        (db', json [] "Product deleted successfully" "success" (ProductRows deletedProduct))
    end.

End ProductController.

(* ================================================================== *)
(** ** controllers/categoryController.js *)
(* ================================================================== *)

Module CategoryController.

Import Store Http.

Definition getCategories (db : Db) : Outcome :=
  let allCategories := categories db in
  json [] "Categories fetched successfully" "success"
    (CategoryList (map ProductController.categoryView allCategories)).

Definition addCategory (now : Z) (name : option string) (db : Db) : Db * Outcome :=
  match name with
  | None => (db, error 400 "Name is required")
  | Some n =>
      if JS.is_empty n then (db, error 400 "Name is required")
      else
        match Formatter.reformatCategoryNameInput name with
        | None => (db, error 400 "Name is required")   (* not reached: [n] is not empty *)
        | Some formattedCategoryName =>
            let existingCategory :=
              filter (fun c => String.eqb (category_name c) formattedCategoryName)
                     (categories db) in
            if (0 <? List.length existingCategory)%nat
            then (db, error 400 "Category already exists")
            else
              match insertCategory formattedCategoryName now db with
              | (db', inl e) => (db', Throws e)
              | (db', inr category) =>
                  (db', json [] "Category added successfully" "success"
                          (CategoryList (map ProductController.categoryView category)))
              end
        end
  end.

End CategoryController.

(* ================================================================== *)
(** ** Well-formed stores and observations on responses *)
(* ================================================================== *)

Module Schema.

Import Store.

(** The constraints the schema declares: primary keys, unique names and
    the two cascading foreign keys of [product_categories]. *)
Record wf (db : Db) : Prop := {
  wf_product_pk : NoDup (map product_id (products db));
  wf_category_pk : NoDup (map category_id (categories db));
  wf_pair_pk : NoDup (productCategories db);
  wf_product_name : NoDup (map product_name (products db));
  wf_category_name : NoDup (map category_name (categories db));
  wf_fk_product :
    forall r, In r (productCategories db) -> hasProduct db (productId r) = true;
  wf_fk_category :
    forall r, In r (productCategories db) -> hasCategory db (categoryId r) = true
}.

(** The same constraints as a test, for concrete stores. *)
Fixpoint nodupb {A} (eqb : A -> A -> bool) (l : list A) : bool :=
  match l with
  | [] => true
  | x :: l' => negb (existsb (eqb x) l') && nodupb eqb l'
  end.

Definition pair_eqb (r s : ProductCategory) : bool :=
  (productId r =? productId s) && (categoryId r =? categoryId s).

Definition check (db : Db) : bool :=
  nodupb Z.eqb (map product_id (products db)) &&
  nodupb Z.eqb (map category_id (categories db)) &&
  nodupb pair_eqb (productCategories db) &&
  nodupb String.eqb (map product_name (products db)) &&
  nodupb String.eqb (map category_name (categories db)) &&
  forallb (fun r => hasProduct db (productId r)) (productCategories db) &&
  forallb (fun r => hasCategory db (categoryId r)) (productCategories db).

(** The store with its association table replaced. *)
Definition withPairs (db : Db) (l : list ProductCategory) : Db :=
  {| products := products db;
     categories := categories db;
     productCategories := l;
     products_id_seq := products_id_seq db;
     categories_id_seq := categories_id_seq db |}.

(** The row [insertProduct] builds, and the store once it is in. *)
Definition newRow (db : Db) (name : string) (price now : Z) : Product :=
  {| product_id := products_id_seq db; product_name := name; product_price := price;
     product_createdAt := now; product_updatedAt := now |}.

Definition withNewProduct (db : Db) (row : Product) : Db :=
  {| products := products db ++ [row];
     categories := categories db;
     productCategories := productCategories db;
     products_id_seq := products_id_seq db + 1;
     categories_id_seq := categories_id_seq db |}.

(** The assignment of [updateProduct] on one row, and the store with its
    product table replaced. *)
Definition setFields (name : option string) (price : option Z) (updatedAt : Z)
    (p : Product) : Product :=
  {| product_id := product_id p;
     product_name := match name with Some n => n | None => product_name p end;
     product_price := match price with Some x => x | None => product_price p end;
     product_createdAt := product_createdAt p;
     product_updatedAt := updatedAt |}.

Definition withProducts (db : Db) (l : list Product) : Db :=
  {| products := l;
     categories := categories db;
     productCategories := productCategories db;
     products_id_seq := products_id_seq db;
     categories_id_seq := categories_id_seq db |}.

(** The [name] and [price] that [editProduct] passes on: only truthy ones. *)
Definition givenName (name : option string) : option string :=
  if JS.truthy name then name else None.

Definition givenPrice (price : option Z) : option Z :=
  match price with
  | Some x => if x =? 0 then None else Some x
  | None => None
  end.

(** The three constraint tests [insertPair] makes on a row. *)
Definition rowOk (db : Db) (r : ProductCategory) : bool :=
  negb (hasPair db (productId r) (categoryId r)) &&
  hasProduct db (productId r) && hasCategory db (categoryId r).

(** Rows that a multi-row insert accepts: each passes the tests against
    the store, and no row is repeated in the statement. *)
Fixpoint insertable (db : Db) (rows : list ProductCategory) : bool :=
  match rows with
  | [] => true
  | r :: rows' =>
      rowOk db r && negb (existsb (pair_eqb r) rows') && insertable db rows'
  end.

(** What the loop of [getProducts] over the filtered rows maintains on
    its map: one entry per product id, holding the category ids seen with it. *)
Definition countInv (m : list (Z * list Z)) (seen : list ProductCategory) : Prop :=
  NoDup (map fst m) /\
  (forall k s, In (k, s) m ->
     forall x, In x s <-> In {| productId := k; categoryId := x |} seen) /\
  (forall r, In r seen -> In (productId r) (map fst m)).

(** The product has an association row with the category. *)
Definition associated (db : Db) (pid cid : Z) : Prop :=
  In {| productId := pid; categoryId := cid |} (productCategories db).

End Schema.

Module Observe.

Import Store Http.

(** Ids of the products a response lists. *)
Definition listedIds (o : Outcome) : list Z :=
  match o with
  | Responds r =>
      match data r with
      | ProductList l => map pv_id l
      | _ => []
      end
  | Throws _ => []
  end.

(** The product entries a response lists. *)
Definition listed (o : Outcome) : list ProductView :=
  match o with
  | Responds r =>
      match data r with
      | ProductList l => l
      | _ => []
      end
  | Throws _ => []
  end.

Definition cookiesOf (o : Outcome) : list Auth.Cookie :=
  match o with
  | Responds r => setCookie r
  | Throws _ => []
  end.

(** The name restriction of [getProducts] on one product name: none when
    the search text is absent or empty, [ILIKE %text%] otherwise. *)
Definition nameFilter (productNameSearch : option string) (productName : string) : bool :=
  match productNameSearch with
  | Some s => if JS.is_empty s then true else Pg.ilike productName ("%" ++ s ++ "%")
  | None => true
  end.

End Observe.

(* ================================================================== *)
(** ** The formatter as the specification words it *)
(* ================================================================== *)

Module Spec.

(** White-space separated tokens of a string. *)
Fixpoint words (s : string) : list string :=
  match s with
  | EmptyString => []
  | String c s' =>
      if JS.is_ws c then words s'
      else
        match s' with
        | EmptyString => [String c EmptyString]
        | String d _ =>
            if JS.is_ws d then String c EmptyString :: words s'
            else match words s' with
                 | t :: ts => String c t :: ts
                 | [] => [String c EmptyString]
                 end
        end
  end.

(** [toStorageForm], after the specification: lower-case; several
    white-space separated tokens are joined with underscores and trimmed;
    a single token is returned lower-cased and trimmed; null or empty
    gives null. *)
Definition toStorageForm (name : option string) : option string :=
  match name with
  | None => None
  | Some n =>
      if JS.is_empty n then None
      else
        let lower := JS.toLowerCase n in
        match words lower with
        | _ :: _ :: _ => Some (JS.trim (JS.join "_" (words lower)))
        | _ => Some (JS.trim lower)
        end
  end.

(** A token: not empty, no white space inside. *)
Definition token (t : string) : Prop :=
  t <> EmptyString /\
  forall c, In c (list_ascii_of_string t) -> JS.is_ws c = false.

End Spec.

(* ================================================================== *)
(** ** Characters of a string, and the common shape of the two formatters *)
(* ================================================================== *)

Module Chars.

Fixpoint has_char (a : ascii) (s : string) : bool :=
  match s with
  | EmptyString => false
  | String c s' => Ascii.eqb c a || has_char a s'
  end.

Fixpoint replaceChar (a b : ascii) (s : string) : string :=
  match s with
  | EmptyString => EmptyString
  | String c s' => String (if Ascii.eqb c a then b else c) (replaceChar a b s')
  end.

(** Both functions of reformatCategoryName.js: lower-case, and when the
    separator [a] occurs, put [b] in its place everywhere and trim. *)
Definition reformatWith (a b : ascii) (name : option string) : option string :=
  match name with
  | None => None
  | Some n =>
      if JS.is_empty n then None
      else
        let lower := JS.toLowerCase n in
        if has_char a lower then Some (JS.trim (replaceChar a b lower))
        else Some lower
  end.

(** A piece without white space, not empty. *)
Definition solid (t : string) : Prop :=
  t <> EmptyString /\ forall c, In c (list_ascii_of_string t) -> JS.is_ws c = false.

(** A token of a category name: not empty, free of white space and of
    the underscore. *)
Definition word (t : string) : Prop :=
  t <> EmptyString /\
  forall c, In c (list_ascii_of_string t) ->
            JS.is_ws c = false /\ c <> Formatter.underscore.

End Chars.

(* ================================================================== *)
(** ** The rows behind a listing *)
(* ================================================================== *)

Module Listing.

Import Store Http ProductController Observe.

(** The condition the awaited query of [getProducts] puts on a product:
    the name restriction when a name is searched, else membership in the
    matching ids when categories are required, else none. *)
Definition kept (cats : option (list Z)) (name : option string) (db : Db)
    (p : Product) : bool :=
  if JS.truthy name then nameFilter name (product_name p)
  else if filterGiven cats
       then JS.includes (product_id p)
              (matchingProductIds (match cats with Some l => l | None => [] end) db)
       else true.

(** The rows step 3 of [getProducts] groups. *)
Definition lookupRows (cats : option (list Z)) (name : option string) (db : Db) : list Row :=
  sortRows (filter (fun r => kept cats name db (row_product r)) (joinFromProducts db)).

Definition rowsOf (k : Z) (rows : list Row) : list Row :=
  filter (fun r => product_id (row_product r) =? k) rows.

(** [r1] is listed before [r2] by [orderBy(desc(products.createdAt))]. *)
Definition newer (r1 r2 : Row) : Prop :=
  product_createdAt (row_product r2) <= product_createdAt (row_product r1).

(** The product under id [k1] was not created before the one under [k2]. *)
Definition notOlder (db : Db) (k1 k2 : Z) : Prop :=
  forall p1 p2, In p1 (products db) -> In p2 (products db) ->
                product_id p1 = k1 -> product_id p2 = k2 ->
                product_createdAt p2 <= product_createdAt p1.

(** What the grouping loop maintains: one entry per product id, holding
    the categories of the rows seen under that id, in their order, and the
    name and price of such a row. *)
Definition groupInv (m : list ProductView) (seen : list Row) : Prop :=
  NoDup (map pv_id m) /\
  (forall v, In v m ->
     pv_categories v =
       map (fun r => categoryView (row_category r)) (rowsOf (pv_id v) seen)) /\
  (forall v, In v m ->
     exists r, In r seen /\ product_id (row_product r) = pv_id v /\
               pv_name v = product_name (row_product r) /\
               pv_price v = product_price (row_product r)).

End Listing.

(* ================================================================== *)
(** ** The access-token middleware *)
(* ================================================================== *)

Module Middleware.

Import Auth.

(** What the cookie parser holds under a name: the compact form of a
    token, or text that is none. *)
Inductive CookieValue :=
| Compact (t : Token)
| Text (s : string).

(** The decoded payload: [{ id, iat, exp }]. *)
Record Decoded := {
  user_id : PayloadId;
  user_iat : Z;
  user_exp : Z
}.

(** [jwt.verify(token, secret)] at time [now]: the signature is checked
    under [secret], and the token has expired once [now >= exp]. *)
Definition verify (token : CookieValue) (secret : string) (now : Z) : option Decoded :=
  match token with
  | Compact t =>
      if String.eqb (tk_secret t) secret && (now <? tk_exp t)
      then Some {| user_id := tk_id t; user_iat := tk_iat t; user_exp := tk_exp t |}
      else None
  | Text _ => None
  end.

Inductive Verdict :=
| Next (user : Decoded)                 (* [req.user = decoded; next()] *)
| Rejected (status : Z) (error : string).

(** [authenticateAccessToken(req, res, next)] on [req?.cookies?.access_token]. *)
Definition authenticateAccessToken (access_token : option CookieValue) (now : Z)
    : Verdict :=
  let missing :=
    match access_token with
    | None => true
    | Some (Text s) => JS.is_empty s
    | Some (Compact _) => false
    end in
  if missing then Rejected 401 "Access token missing"
  else
    match access_token with
    | Some accessToken =>
        match verify accessToken "mySecret" now with
        | Some decoded => Next decoded
        | None => Rejected 403 "Invalid or expired token"
        end
    | None => Rejected 401 "Access token missing"
    end.

End Middleware.

(* ================================================================== *)
(** ** Query strings that carry an array of integers *)
(* ================================================================== *)

Module Query.

Import ProductController.

Fixpoint all_digits (s : string) : bool :=
  match s with
  | EmptyString => true
  | String c s' => Json.is_digit c && all_digits s'
  end.

(** Digits of an integer as JSON writes one: no leading zero but in ["0"]. *)
Definition plainInt (d : string) : bool :=
  match d with
  | EmptyString => false
  | String c d' =>
      Json.is_digit c && all_digits d' &&
      (negb (Ascii.eqb c "0"%char) || JS.is_empty d')
  end.

(** A numeral: a sign and the digits. *)
Definition numeral (n : bool * string) : string :=
  if fst n then String "-"%char (snd n) else snd n.

Fixpoint more (ns : list (bool * string)) : string :=
  match ns with
  | [] => "]"
  | n :: ns' => String ","%char (numeral n ++ more ns')
  end.

(** The text [[n1,n2,...]]. *)
Definition arrayText (ns : list (bool * string)) : string :=
  String "["%char
    match ns with
    | [] => "]"
    | n :: ns' => numeral n ++ more ns'
    end.

(** The JSON number a numeral is read as. *)
Definition number (n : bool * string) : Json.json :=
  Json.JNumber {| Json.n_neg := fst n; Json.n_int := snd n;
                  Json.n_frac := EmptyString; Json.n_exp := None |}.

(** The characters a JSON number starts with. *)
Definition number_start (c : ascii) : bool :=
  Ascii.eqb c "-"%char || Json.is_digit c.

(** What follows a numeral in the text: a comma or the closing bracket. *)
Definition closes (t : string) : Prop :=
  exists c r, t = String c r /\ (c = ","%char \/ c = "]"%char).

(** The integer a numeral denotes. *)
Definition intOf (n : bool * string) : Z :=
  if fst n then - digitsValue 0 (snd n) else digitsValue 0 (snd n).

End Query.

(* ================================================================== *)
(** ** The routes of index.js as transitions of the store *)
(* ================================================================== *)

Module Api.

Import Store Schema.

Inductive Request :=
| GetProducts (categoryIds : option (list Z)) (name : option string)
| AddProduct (env_JWT_SECRET : option string) (now : Z) (name : string) (price : Z)
             (categoryIds : list Z)
| EditProduct (now id : Z) (name : option string) (price : option Z)
              (categoryIds : option (list Z))
| DeleteProduct (id : Z)
| GetCategories
| AddCategory (now : Z) (name : option string).

(** The store a request leaves behind. *)
Definition step (req : Request) (db : Db) : Db :=
  match req with
  | GetProducts _ _ => db
  | AddProduct env now name price categoryIds =>
      fst (ProductController.addProduct env now name price categoryIds db)
  | EditProduct now id name price categoryIds =>
      fst (ProductController.editProduct now id name price categoryIds db)
  | DeleteProduct id => fst (ProductController.deleteProduct id db)
  | GetCategories => db
  | AddCategory now name => fst (CategoryController.addCategory now name db)
  end.

(** The store after the migrations: empty tables, sequences at 1. *)
Definition migrated : Db :=
  {| products := []; categories := []; productCategories := [];
     products_id_seq := 1; categories_id_seq := 1 |}.

Inductive reachable : Db -> Prop :=
| reach_migrated : reachable migrated
| reach_step db req : reachable db -> reachable (step req db).

(** What every request maintains: the schema constraints, sequences
    ahead of the ids handed out, and at least one category per product. *)
Record invariant (db : Db) : Prop := {
  inv_wf : wf db;
  inv_products_seq : forall p, In p (products db) -> product_id p < products_id_seq db;
  inv_categories_seq :
    forall c, In c (categories db) -> category_id c < categories_id_seq db;
  inv_categorised :
    forall p, In p (products db) -> exists c, associated db (product_id p) c
}.

End Api.

(* ================================================================== *)
(** ** A sample catalogue *)
(* ================================================================== *)

Module Sample.

Import Store.

Definition product (id : Z) (name : string) (price createdAt : Z) : Product :=
  {| product_id := id; product_name := name; product_price := price;
     product_createdAt := createdAt; product_updatedAt := createdAt |}.

Definition category (id : Z) (name : string) : Category :=
  {| category_id := id; category_name := name; category_createdAt := 0 |}.

Definition pair (pid cid : Z) : ProductCategory :=
  {| productId := pid; categoryId := cid |}.

(** Product 20 is in categories 1 and 4, products 1 and 2 are fruit,
    product 2 is also in category 1, product 21 has no category. *)
Definition catalogue : Db :=
  {| products := [product 1 "apple" 5 10; product 2 "apricot" 6 20;
                  product 20 "4" 3 30; product 21 "lonely" 1 40];
     categories := [category 1 "electronics"; category 4 "female_clothing";
                    category 5 "fruit"];
     productCategories := [pair 1 5; pair 2 5; pair 20 1; pair 20 4; pair 2 1];
     products_id_seq := 22;
     categories_id_seq := 6 |}.

End Sample.

Import Store Http Schema Observe ProductController Chars Listing.

(* ================================================================== *)
(** ** Lists, membership tests and the wf checker *)
(* ================================================================== *)

Example reformat_input_two_words :
  Formatter.reformatCategoryNameInput (Some "Category Name") = Some "category_name".
Proof. reflexivity. Qed.

Example reformat_input_surrounding_spaces :
  Formatter.reformatCategoryNameInput (Some " Category Name ") = Some "_category_name_".
Proof. reflexivity. Qed.

Example reformat_response_two_words :
  Formatter.reformatCategoryNameResponse (Some "female_clothing") = Some "female clothing".
Proof. reflexivity. Qed.

Example parse_id_array :
  decodeCategoryIds (Some "[1, 4]") = Ids (Some [1; 4]).
Proof. reflexivity. Qed.

Example parse_trailing_comma : Json.parse "[1,]" = Json.ThrowsSyntaxError.
Proof. reflexivity. Qed.

Example lookup_two_categories :
  listed (getProducts (Some [1; 4]) None Sample.catalogue) =
  [ {| pv_id := 20; pv_name := "4"; pv_price := 3;
       pv_categories := [ {| cv_id := 1; cv_name := Some "electronics" |};
                          {| cv_id := 4; cv_name := Some "female clothing" |} ] |} ].
Proof. reflexivity. Qed.

Example lookup_no_common_product :
  getProducts (Some [1; 99]) None Sample.catalogue =
  json [] "No products found" "success" (ProductList []).
Proof. reflexivity. Qed.

Lemma toLowerCase_app a b :
  JS.toLowerCase (a ++ b) = JS.toLowerCase a ++ JS.toLowerCase b.
Proof. induction a as [|c a IH]; simpl; [reflexivity | now rewrite IH]. Qed.

Lemma includes_In x l : JS.includes x l = true <-> In x l.
Proof.
  unfold JS.includes. rewrite existsb_exists. split.
  - intros [y [Hy He]]. apply Z.eqb_eq in He. now subst.
  - intros H. exists x. split; [assumption | apply Z.eqb_refl].
Qed.

Lemma includes_ext l l' :
  (forall x, In x l <-> In x l') -> forall x, JS.includes x l = JS.includes x l'.
Proof.
  intros H x. destruct (JS.includes x l) eqn:E.
  - symmetry. apply includes_In, H, includes_In, E.
  - destruct (JS.includes x l') eqn:E'; [|reflexivity].
    apply includes_In, H, includes_In in E'. congruence.
Qed.

Lemma nodupb_sound {A} (eqb : A -> A -> bool) (l : list A) :
  (forall x, eqb x x = true) -> nodupb eqb l = true -> NoDup l.
Proof.
  intros Hrefl. induction l as [|x l IH]; simpl; intros H.
  - constructor.
  - apply andb_prop in H. destruct H as [Hx Hl]. constructor.
    + intros Hin. apply negb_true_iff in Hx.
      assert (existsb (eqb x) l = true) by (apply existsb_exists; eauto).
      congruence.
    + now apply IH.
Qed.

Lemma check_sound db : check db = true -> wf db.
Proof.
  unfold check. intros H.
  repeat (apply andb_prop in H; destruct H as [H ?]).
  constructor.
  - eapply nodupb_sound; [apply Z.eqb_refl | eassumption].
  - eapply nodupb_sound; [apply Z.eqb_refl | eassumption].
  - eapply nodupb_sound; [|eassumption].
    intros x. unfold pair_eqb. now rewrite !Z.eqb_refl.
  - eapply nodupb_sound; [apply String.eqb_refl | eassumption].
  - eapply nodupb_sound; [apply String.eqb_refl | eassumption].
  - now apply forallb_forall.
  - now apply forallb_forall.
Qed.

Lemma hasProduct_In db id :
  hasProduct db id = true <-> exists p, In p (products db) /\ product_id p = id.
Proof.
  unfold hasProduct. rewrite existsb_exists.
  split; intros [p [Hp He]]; exists p; split; auto; now apply Z.eqb_eq.
Qed.

Lemma hasCategory_In db id :
  hasCategory db id = true <-> exists c, In c (categories db) /\ category_id c = id.
Proof.
  unfold hasCategory. rewrite existsb_exists.
  split; intros [c [Hc He]]; exists c; split; auto; now apply Z.eqb_eq.
Qed.

Lemma pair_eta r : {| productId := productId r; categoryId := categoryId r |} = r.
Proof. now destruct r. Qed.

(* ================================================================== *)
(** ** The select builder *)
(* ================================================================== *)

Lemma In_insertRow r a l : In r (insertRow a l) <-> r = a \/ In r l.
Proof.
  induction l as [|h t IH]; simpl.
  - intuition.
  - destruct (_ <=? _); simpl; [intuition|]. rewrite IH. intuition.
Qed.

Lemma In_sortRows r l : In r (sortRows l) <-> In r l.
Proof.
  induction l as [|a l IH]; simpl; [reflexivity|].
  rewrite In_insertRow, IH. intuition.
Qed.

Lemma In_run r q :
  In r (run q) <->
  In r (sel_rows q) /\
  match sel_where q with Some cond => cond r = true | None => True end.
Proof.
  unfold run.
  destruct (sel_orderByCreatedAtDesc q); [rewrite In_sortRows|];
    destruct (sel_where q); rewrite ?filter_In; intuition.
Qed.

Lemma In_joinFromProducts db r :
  In r (joinFromProducts db) <->
  In (row_product r) (products db) /\
  In (row_productCategory r) (productCategories db) /\
  In (row_category r) (categories db) /\
  product_id (row_product r) = productId (row_productCategory r) /\
  category_id (row_category r) = categoryId (row_productCategory r).
Proof.
  unfold joinFromProducts. rewrite in_flat_map. split.
  - intros [p [Hp H]]. apply in_flat_map in H. destruct H as [pc [Hpc H]].
    destruct (product_id p =? productId pc) eqn:E1; [|contradiction].
    apply in_flat_map in H. destruct H as [c [Hc H]].
    destruct (category_id c =? categoryId pc) eqn:E2; [|contradiction].
    destruct H as [H|[]]. subst r. simpl.
    apply Z.eqb_eq in E1, E2. auto.
  - intros (Hp & Hpc & Hc & E1 & E2). exists (row_product r). split; [assumption|].
    apply in_flat_map. exists (row_productCategory r). split; [assumption|].
    apply Z.eqb_eq in E1. rewrite E1.
    apply in_flat_map. exists (row_category r). split; [assumption|].
    apply Z.eqb_eq in E2. rewrite E2. left. now destruct r.
Qed.

Lemma In_joinFromProductCategories db r :
  In r (joinFromProductCategories db) <-> In r (joinFromProducts db).
Proof.
  rewrite In_joinFromProducts. unfold joinFromProductCategories.
  rewrite in_flat_map. split.
  - intros [pc [Hpc H]]. apply in_flat_map in H. destruct H as [p [Hp H]].
    destruct (product_id p =? productId pc) eqn:E1; [|contradiction].
    apply in_flat_map in H. destruct H as [c [Hc H]].
    destruct (category_id c =? categoryId pc) eqn:E2; [|contradiction].
    destruct H as [H|[]]. subst r. simpl.
    apply Z.eqb_eq in E1, E2. auto.
  - intros (Hp & Hpc & Hc & E1 & E2). exists (row_productCategory r). split; [assumption|].
    apply in_flat_map. exists (row_product r). split; [assumption|].
    apply Z.eqb_eq in E1. rewrite E1.
    apply in_flat_map. exists (row_category r). split; [assumption|].
    apply Z.eqb_eq in E2. rewrite E2. left. now destruct r.
Qed.

(* ================================================================== *)
(** ** Step 1: the count map *)
(* ================================================================== *)

Lemma In_set_add y x s : In y (set_add x s) <-> y = x \/ In y s.
Proof.
  unfold set_add. destruct (JS.includes x s) eqn:E.
  - apply includes_In in E. split; [auto|]. intros [->|H]; assumption.
  - rewrite in_app_iff. simpl. intuition.
Qed.

Lemma countMap_has_In m k : countMap_has m k = true <-> In k (map fst m).
Proof.
  unfold countMap_has. rewrite existsb_exists, in_map_iff.
  split; intros [e [H1 H2]]; exists e.
  - apply Z.eqb_eq in H2. auto.
  - split; [assumption|]. now apply Z.eqb_eq.
Qed.

Lemma countMap_add_keys m k x : map fst (countMap_add m k x) = map fst m.
Proof.
  induction m as [|[k' s] m IH]; simpl; [reflexivity|].
  destruct (k' =? k); simpl; [reflexivity | now rewrite IH].
Qed.

Lemma In_countMap_add m k x k' s' :
  NoDup (map fst m) ->
  In (k', s') (countMap_add m k x) ->
  (k' <> k /\ In (k', s') m) \/
  (k' = k /\ exists s, In (k, s) m /\ s' = set_add x s).
Proof.
  induction m as [|[k0 s0] m IH]; simpl; intros Hnd H; [contradiction|].
  inversion Hnd as [|? ? Hnotin Hnd']; subst.
  destruct (k0 =? k) eqn:E.
  - apply Z.eqb_eq in E. subst k0. destruct H as [H|H].
    + inversion H; subst. right. split; [reflexivity|]. exists s0. auto.
    + left. split; [|auto]. intros ->. apply Hnotin.
      apply in_map_iff. exists (k, s'). auto.
  - apply Z.eqb_neq in E. destruct H as [H|H].
    + inversion H; subst. left. auto.
    + destruct (IH Hnd' H) as [[Hne Hin]|[He [s [Hin Hs]]]].
      * left. auto.
      * right. split; [assumption|]. exists s. auto.
Qed.

Lemma In_countMap_add_hit m k x s :
  In (k, s) m -> NoDup (map fst m) -> In (k, set_add x s) (countMap_add m k x).
Proof.
  induction m as [|[k0 s0] m IH]; simpl; intros H Hnd; [contradiction|].
  inversion Hnd as [|? ? Hnotin Hnd']; subst.
  destruct (k0 =? k) eqn:E.
  - apply Z.eqb_eq in E. subst k0. destruct H as [H|H].
    + inversion H; subst. now left.
    + exfalso. apply Hnotin. apply in_map_iff. exists (k, s). auto.
  - apply Z.eqb_neq in E. destruct H as [H|H].
    + inversion H; subst. congruence.
    + right. auto.
Qed.

Lemma In_countMap_add_miss m k x k' s' :
  k' <> k -> In (k', s') m -> In (k', s') (countMap_add m k x).
Proof.
  intros Hne. induction m as [|[k0 s0] m IH]; simpl; intros H; [contradiction|].
  destruct (k0 =? k) eqn:E.
  - apply Z.eqb_eq in E. subst k0. destruct H as [H|H].
    + inversion H; subst. congruence.
    + now right.
  - destruct H as [H|H]; [now left | right; auto].
Qed.

Lemma countInv_step m seen r :
  countInv m seen -> countInv (countStep m r) (seen ++ [r]).
Proof.
  intros (Hnd & Hsets & Hkeys). unfold countStep.
  set (m1 := if countMap_has m (productId r) then m
             else (m ++ [(productId r, [])])%list).
  assert (Hnd1 : NoDup (map fst m1)).
  { unfold m1. destruct (countMap_has m (productId r)) eqn:E; [assumption|].
    rewrite map_app. simpl. apply NoDup_app; [assumption | repeat constructor; simpl; tauto|].
    intros a Ha [Hb|[]]. subst a. apply countMap_has_In in Ha. simpl in Ha. congruence. }
  assert (Hsets1 : forall k s, In (k, s) m1 ->
            forall x, In x s <-> In {| productId := k; categoryId := x |} seen).
  { unfold m1. destruct (countMap_has m (productId r)) eqn:E; [assumption|].
    intros k s H x. apply in_app_iff in H. destruct H as [H|[H|[]]]; [now apply Hsets|].
    inversion H; subst. simpl. split; [contradiction|].
    intros Hin. apply Hkeys in Hin. simpl in Hin.
    apply countMap_has_In in Hin. congruence. }
  assert (Hkey1 : In (productId r) (map fst m1)).
  { unfold m1. destruct (countMap_has m (productId r)) eqn:E.
    - now apply countMap_has_In.
    - rewrite map_app, in_app_iff. right. simpl. auto. }
  assert (Hkeys1 : forall q, In q seen -> In (productId q) (map fst m1)).
  { unfold m1. destruct (countMap_has m (productId r)); [assumption|].
    intros q Hq. rewrite map_app, in_app_iff. left. auto. }
  clearbody m1. repeat split.
  - now rewrite countMap_add_keys.
  - intros Hx. apply In_countMap_add in H; [|assumption].
    apply in_app_iff. destruct H as [[Hne Hin]|[-> [s0 [Hin ->]]]].
    + left. now apply (Hsets1 _ _ Hin).
    + apply In_set_add in Hx. destruct Hx as [->|Hx].
      * right. left. now destruct r.
      * left. now apply (Hsets1 _ _ Hin).
  - intros Hx. apply In_countMap_add in H; [|assumption].
    apply in_app_iff in Hx.
    destruct H as [[Hne Hin]|[-> [s0 [Hin ->]]]].
    + destruct Hx as [Hx|[Hx|[]]]; [now apply (Hsets1 _ _ Hin)|].
      subst r. simpl in Hne. congruence.
    + apply In_set_add. destruct Hx as [Hx|[Hx|[]]].
      * right. now apply (Hsets1 _ _ Hin).
      * left. apply (f_equal categoryId) in Hx. simpl in Hx. congruence.
  - intros q Hq. rewrite countMap_add_keys. apply in_app_iff in Hq.
    destruct Hq as [Hq|[Hq|[]]]; [auto | now subst q].
Qed.

Lemma countInv_build rows : countInv (buildCountMap rows) rows.
Proof.
  unfold buildCountMap. induction rows as [|r rows IH] using rev_ind.
  - simpl. repeat split; simpl; try constructor; try contradiction.
  - rewrite fold_left_app. simpl. now apply countInv_step.
Qed.

Lemma In_selectPairsByCategoryIn ids db k x :
  In {| productId := k; categoryId := x |} (selectPairsByCategoryIn ids db) <->
  associated db k x /\ In x ids.
Proof.
  unfold selectPairsByCategoryIn, associated. rewrite filter_In. simpl.
  now rewrite includes_In.
Qed.

(** A product id is kept by step 1 exactly when some row carries it and
    every required category is among its rows. *)
Lemma In_matchingProductIds C db pid :
  C <> [] ->
  (In pid (matchingProductIds C db) <-> forall c, In c C -> associated db pid c).
Proof.
  intros HC. unfold matchingProductIds.
  destruct (countInv_build (selectPairsByCategoryIn C db)) as (Hnd & Hsets & Hkeys).
  set (m := buildCountMap (selectPairsByCategoryIn C db)) in *.
  rewrite in_map_iff. split.
  - intros [[k s] [Hk Hin]]. simpl in Hk. subst k.
    apply filter_In in Hin. destruct Hin as [Hin Hall]. simpl in Hall.
    intros c Hc. rewrite forallb_forall in Hall.
    specialize (Hall c Hc). apply includes_In in Hall.
    apply (Hsets _ _ Hin) in Hall. now apply In_selectPairsByCategoryIn in Hall.
  - intros Hall.
    assert (Hex : exists c0, In c0 C)
      by (destruct C; [congruence | eexists; left; reflexivity]).
    destruct Hex as [c0 Hc0].
    assert (H0 : In {| productId := pid; categoryId := c0 |}
                    (selectPairsByCategoryIn C db)).
    { apply In_selectPairsByCategoryIn. auto. }
    apply Hkeys in H0. simpl in H0. apply in_map_iff in H0.
    destruct H0 as [[k s] [Hk Hin]]. simpl in Hk. subst k.
    exists (pid, s). split; [reflexivity|]. apply filter_In. split; [assumption|].
    simpl. apply forallb_forall. intros c Hc. apply includes_In.
    apply (Hsets _ _ Hin). apply In_selectPairsByCategoryIn. auto.
Qed.

Lemma matchingProductIds_ext C C' db :
  (forall c, In c C <-> In c C') -> matchingProductIds C' db = matchingProductIds C db.
Proof.
  intros H. unfold matchingProductIds.
  assert (E : selectPairsByCategoryIn C' db = selectPairsByCategoryIn C db).
  { unfold selectPairsByCategoryIn. apply filter_ext. intros r.
    symmetry. now apply includes_ext. }
  rewrite E. f_equal. apply filter_ext. intros e.
  destruct (forallb _ C) eqn:E1.
  - apply forallb_forall. intros x Hx. rewrite forallb_forall in E1. apply E1, H, Hx.
  - destruct (forallb _ C') eqn:E2; [|reflexivity].
    rewrite <- E1. symmetry. apply forallb_forall. intros x Hx.
    rewrite forallb_forall in E2. apply E2, H, Hx.
Qed.

(* ================================================================== *)
(** ** Step 3: grouping *)
(* ================================================================== *)

Lemma productMap_has_In m k : productMap_has m k = true <-> In k (map pv_id m).
Proof.
  unfold productMap_has. rewrite existsb_exists, in_map_iff.
  split; intros [e [H1 H2]]; exists e.
  - apply Z.eqb_eq in H2. auto.
  - split; [assumption|]. now apply Z.eqb_eq.
Qed.

Lemma productMap_push_ids m k c : map pv_id (productMap_push m k c) = map pv_id m.
Proof.
  induction m as [|v m IH]; simpl; [reflexivity|].
  destruct (pv_id v =? k); simpl; [reflexivity | now rewrite IH].
Qed.

Lemma groupStep_ids m r :
  map pv_id (groupStep m r) =
  if productMap_has m (product_id (row_product r)) then map pv_id m
  else (map pv_id m ++ [product_id (row_product r)])%list.
Proof.
  unfold groupStep. rewrite productMap_push_ids.
  destruct (productMap_has m _); [reflexivity|]. now rewrite map_app.
Qed.

Lemma In_groupRows rows k :
  In k (map pv_id (groupRows rows)) <->
  exists r, In r rows /\ product_id (row_product r) = k.
Proof.
  unfold groupRows. induction rows as [|r rows IH] using rev_ind.
  - simpl. split; [contradiction | intros [r [[] _]]].
  - rewrite fold_left_app. simpl. rewrite groupStep_ids.
    destruct (productMap_has _ _) eqn:E.
    + rewrite IH. split.
      * intros [q [Hq He]]. exists q. rewrite in_app_iff. auto.
      * intros [q [Hq He]]. apply in_app_iff in Hq. destruct Hq as [Hq|[Hq|[]]].
        -- eauto.
        -- subst q. apply IH. rewrite <- He. now apply productMap_has_In.
    + rewrite in_app_iff, IH. simpl. split.
      * intros [[q [Hq He]]|[H|[]]].
        -- exists q. rewrite in_app_iff. auto.
        -- exists r. rewrite in_app_iff. simpl. auto.
      * intros [q [Hq He]]. apply in_app_iff in Hq. destruct Hq as [Hq|[Hq|[]]].
        -- left. eauto.
        -- subst q. right. auto.
Qed.

(* ================================================================== *)
(** ** [getProducts] *)
(* ================================================================== *)

(** Which rows of the join the handler keeps: the last [where] wins. *)
Lemma In_listedIds_getProducts cats name db pid :
  In pid (listedIds (getProducts cats name db)) <->
  (filterGiven cats = true ->
   matchingProductIds (match cats with Some l => l | None => [] end) db <> []) /\
  exists r, In r (joinFromProducts db) /\ product_id (row_product r) = pid /\
    if JS.truthy name then nameFilter name (product_name (row_product r)) = true
    else filterGiven cats = true ->
         In pid (matchingProductIds (match cats with Some l => l | None => [] end) db).
Proof.
  unfold getProducts.
  set (C := match cats with Some l => l | None => [] end).
  set (M := matchingProductIds C db). clearbody M C.
  assert (Hrun : forall (q : Select) r,
            In r (run q) <->
            In r (sel_rows q) /\
            match sel_where q with Some cond => cond r = true | None => True end)
    by (intros; apply In_run).
  destruct (filterGiven cats) eqn:EF; cbn [andb].
  - destruct (List.length M =? 0)%nat eqn:EL.
    + apply Nat.eqb_eq, length_zero_iff_nil in EL. subst M.
      cbn. split; [contradiction|]. intros [H _]. exfalso. now apply H.
    + assert (HM : M <> []) by (intros E; rewrite E in EL; discriminate).
      unfold json, listedIds. cbn [data]. rewrite In_groupRows.
      split.
      * intros [r [Hr He]]. split; [auto|]. exists r. apply Hrun in Hr.
        destruct name as [s|]; [destruct (JS.is_empty s) eqn:Es|];
          unfold JS.truthy; rewrite ?Es; cbn [negb];
          cbn [where_ orderByCreatedAtDesc sel_rows sel_where] in Hr;
          destruct Hr as [Hr Hc].
        -- apply includes_In in Hc. rewrite He in Hc. auto.
        -- unfold nameFilter. rewrite Es. auto.
        -- apply includes_In in Hc. rewrite He in Hc. auto.
      * intros [_ [r (Hr & He & Hc)]]. exists r. split; [|assumption].
        apply Hrun.
        destruct name as [s|]; [destruct (JS.is_empty s) eqn:Es|];
          unfold JS.truthy in Hc; rewrite ?Es in Hc; cbn [negb] in Hc;
          cbn [where_ orderByCreatedAtDesc sel_rows sel_where];
          (split; [assumption|]).
        -- apply includes_In. rewrite He. auto.
        -- unfold nameFilter in Hc. now rewrite Es in Hc.
        -- apply includes_In. rewrite He. auto.
  - unfold json, listedIds. cbn [data]. rewrite In_groupRows. split.
    + intros [r [Hr He]]. split; [discriminate|]. exists r. apply Hrun in Hr.
      destruct name as [s|]; [destruct (JS.is_empty s) eqn:Es|];
        unfold JS.truthy; rewrite ?Es; cbn [negb];
        cbn [where_ orderByCreatedAtDesc sel_rows sel_where] in Hr;
        destruct Hr as [Hr Hc].
      * repeat split; try assumption. discriminate.
      * unfold nameFilter. rewrite Es. auto.
      * repeat split; try assumption. discriminate.
    + intros [_ [r (Hr & He & Hc)]]. exists r. split; [|assumption].
      apply Hrun.
      destruct name as [s|]; [destruct (JS.is_empty s) eqn:Es|];
        unfold JS.truthy in Hc; rewrite ?Es in Hc; cbn [negb] in Hc;
        cbn [where_ orderByCreatedAtDesc sel_rows sel_where];
        (split; [assumption|]); try exact I.
      unfold nameFilter in Hc. now rewrite Es in Hc.
Qed.

(** Under referential integrity an association row always joins. *)
Lemma associated_joins db pid cid :
  wf db -> associated db pid cid ->
  exists r, In r (joinFromProducts db) /\ product_id (row_product r) = pid /\
            category_id (row_category r) = cid.
Proof.
  intros Hwf Ha. unfold associated in Ha.
  pose proof (wf_fk_product db Hwf _ Ha) as Hp.
  pose proof (wf_fk_category db Hwf _ Ha) as Hc. simpl in Hp, Hc.
  apply hasProduct_In in Hp. destruct Hp as [p [Hp Ep]].
  apply hasCategory_In in Hc. destruct Hc as [c [Hc Ec]].
  exists {| row_product := p;
            row_productCategory := {| productId := pid; categoryId := cid |};
            row_category := c |}.
  rewrite In_joinFromProducts. simpl. auto 7.
Qed.

Lemma joined_associated db r :
  In r (joinFromProducts db) ->
  associated db (product_id (row_product r)) (category_id (row_category r)).
Proof.
  rewrite In_joinFromProducts. intros (_ & Hpc & _ & E1 & E2).
  unfold associated. rewrite E1, E2. now rewrite pair_eta.
Qed.

Lemma getProducts_ext C C' name db :
  (forall c, In c C <-> In c C') ->
  getProducts (Some C') name db = getProducts (Some C) name db.
Proof.
  intros H. unfold getProducts.
  assert (EF : filterGiven (Some C') = filterGiven (Some C)).
  { destruct C as [|c C0], C' as [|c' C0']; simpl; try reflexivity.
    - exfalso. apply (H c'). now left.
    - exfalso. apply (H c). now left. }
  rewrite EF. now rewrite (matchingProductIds_ext C C' db H).
Qed.

(** C1: with a non-empty list [C] of required category ids and no name
    search, a product is listed by [getProducts] exactly when it has an
    association row for every id in [C]; and a list [C'] with the same
    elements as [C] (repeated or reordered ids) gives the same response. *)
Theorem getProducts_requires_every_category :
  forall (db : Db) (C : list Z) (name : option string) (pid : Z),
    wf db -> C <> [] -> JS.truthy name = false ->
    (In pid (listedIds (getProducts (Some C) name db)) <->
     forall c, In c C -> associated db pid c) /\
    (forall C' name', (forall c, In c C <-> In c C') ->
       getProducts (Some C') name' db = getProducts (Some C) name' db).
Proof.
  intros db C name pid Hwf HC Hname. split.
  - rewrite In_listedIds_getProducts. rewrite Hname.
    assert (EF : filterGiven (Some C) = true) by (destruct C; [congruence | reflexivity]).
    rewrite EF. split.
    + intros [_ [r (_ & _ & Hm)]]. apply In_matchingProductIds; auto.
    + intros Hall.
      assert (Hm : In pid (matchingProductIds C db)) by (apply In_matchingProductIds; auto).
      split; [intros _ E; rewrite E in Hm; contradiction|].
      destruct C as [|c0 C0]; [congruence|].
      destruct (associated_joins db pid c0 Hwf (Hall c0 (or_introl eq_refl)))
        as [r (Hr & He & _)].
      exists r. auto.
  - intros C' name' H. now apply getProducts_ext.
Qed.

Lemma getProducts_requires_every_category_witness :
  wf Sample.catalogue /\ [1; 4] <> [] /\
  In 20 (listedIds (getProducts (Some [1; 4]) None Sample.catalogue)) /\
  ~ In 2 (listedIds (getProducts (Some [1; 4]) None Sample.catalogue)) /\
  getProducts (Some [4; 1; 4; 1]) None Sample.catalogue =
  getProducts (Some [1; 4]) None Sample.catalogue.
Proof.
  assert (Hwf : wf Sample.catalogue) by (apply check_sound; reflexivity).
  assert (HC : [1; 4] <> []) by discriminate.
  destruct (getProducts_requires_every_category Sample.catalogue [1; 4] None 20
              Hwf HC eq_refl) as [H20 Hdup].
  destruct (getProducts_requires_every_category Sample.catalogue [1; 4] None 2
              Hwf HC eq_refl) as [H2 _].
  split; [exact Hwf|]. split; [exact HC|]. split; [|split].
  - apply H20. intros c [<-|[<-|[]]]; unfold associated; simpl; auto 6.
  - intros H. destruct H2 as [H2 _].
    specialize (H2 H 4 (or_intror (or_introl eq_refl))).
    unfold associated in H2. simpl in H2.
    repeat (destruct H2 as [H2|H2]; [discriminate H2|]). exact H2.
  - apply Hdup. intros c. simpl. tauto.
Defined.

Lemma NoDup_map_inj {A B} (f : A -> B) (l : list A) a b :
  NoDup (map f l) -> In a l -> In b l -> f a = f b -> a = b.
Proof.
  induction l as [|x l IH]; simpl; intros Hnd Ha Hb E; [contradiction|].
  inversion Hnd as [|? ? Hnotin Hnd']; subst.
  destruct Ha as [->|Ha], Hb as [->|Hb]; auto.
  - exfalso. apply Hnotin. rewrite E. now apply in_map.
  - exfalso. apply Hnotin. rewrite <- E. now apply in_map.
Qed.

Lemma nameFilter_falsy name n : JS.truthy name = false -> nameFilter name n = true.
Proof.
  unfold JS.truthy, nameFilter. destruct name as [s|]; [|reflexivity].
  destruct (JS.is_empty s); [reflexivity | discriminate].
Qed.

(* ------------------------------------------------------------------ *)
(** *** [ILIKE %text%] on a text without wildcards is a substring test *)

Lemma like_percent_nil p : Pg.like (String "%"%char p) EmptyString = Pg.like p EmptyString.
Proof. simpl. apply orb_false_r. Qed.

Lemma like_percent_cons p c t :
  Pg.like (String "%"%char p) (String c t) =
  Pg.like p (String c t) || Pg.like (String "%"%char p) t.
Proof. reflexivity. Qed.

Lemma like_plain_cons c p t :
  Pg.wildcard c = false ->
  Pg.like (String c p) t =
  match t with
  | EmptyString => false
  | String d t' => Ascii.eqb d c && Pg.like p t'
  end.
Proof.
  unfold Pg.wildcard. intros H.
  apply orb_false_elim in H. destruct H as [H H3].
  apply orb_false_elim in H. destruct H as [H1 H2].
  cbn [Pg.like]. rewrite H1, H2, H3. reflexivity.
Qed.

Lemma like_percent_any t : Pg.like "%" t = true.
Proof.
  induction t as [|c t IH]; [reflexivity|].
  rewrite like_percent_cons, IH. apply orb_true_r.
Qed.

Lemma like_percent p t :
  Pg.like (String "%"%char p) t = true <->
  exists pre post, t = pre ++ post /\ Pg.like p post = true.
Proof.
  induction t as [|c t IH].
  - rewrite like_percent_nil. split.
    + intros H. exists EmptyString, EmptyString. auto.
    + intros (pre & post & E & H). destruct pre; [|discriminate].
      simpl in E. now subst post.
  - rewrite like_percent_cons, orb_true_iff, IH. split.
    + intros [H|(pre & post & -> & H)].
      * exists EmptyString, (String c t). auto.
      * exists (String c pre), post. auto.
    + intros (pre & post & E & H). destruct pre as [|d pre]; simpl in E.
      * left. now subst post.
      * right. inversion E. subst. eauto.
Qed.

Lemma like_plain_prefix q t :
  Pg.plain q = true ->
  (Pg.like (q ++ "%") t = true <-> exists post, t = q ++ post).
Proof.
  revert t. induction q as [|c q IH]; intros t Hq.
  - simpl append. split; [intros _; now exists t | intros _; apply like_percent_any].
  - simpl in Hq. apply andb_prop in Hq. destruct Hq as [Hc Hq].
    apply negb_true_iff in Hc.
    change (String c q ++ "%") with (String c (q ++ "%")).
    rewrite (like_plain_cons c _ t Hc). destruct t as [|d t].
    + split; [discriminate | intros [post E]; discriminate E].
    + rewrite andb_true_iff, (IH t Hq). split.
      * intros [E [post ->]]. apply Ascii.eqb_eq in E. subst d. now exists post.
      * intros [post E]. inversion E. subst. split; [apply Ascii.eqb_refl | now exists post].
Qed.

Lemma wildcard_lower_char c : Pg.wildcard (JS.lower_char c) = Pg.wildcard c.
Proof. destruct c as [[] [] [] [] [] [] [] []]; reflexivity. Qed.

Lemma plain_toLowerCase s : Pg.plain (JS.toLowerCase s) = Pg.plain s.
Proof.
  induction s as [|c s IH]; simpl; [reflexivity|]. now rewrite wildcard_lower_char, IH.
Qed.

Lemma ilike_contains s n :
  Pg.plain s = true ->
  (Pg.ilike n ("%" ++ s ++ "%") = true <->
   exists pre post, JS.toLowerCase n = pre ++ JS.toLowerCase s ++ post).
Proof.
  intros Hs. unfold Pg.ilike.
  rewrite toLowerCase_app, toLowerCase_app.
  change (JS.toLowerCase "%") with "%".
  change ("%" ++ JS.toLowerCase s ++ "%") with (String "%"%char (JS.toLowerCase s ++ "%")).
  rewrite like_percent. rewrite <- plain_toLowerCase in Hs. split.
  - intros (pre & post & E & H). apply (like_plain_prefix _ _ Hs) in H.
    destruct H as [post' ->]. eauto.
  - intros (pre & post & E). exists pre, (JS.toLowerCase s ++ post).
    split; [assumption|]. apply (like_plain_prefix _ _ Hs). eauto.
Qed.

Lemma In_listedIds_unfiltered db cats name pid :
  wf db -> cats = None \/ cats = Some [] ->
  (In pid (listedIds (getProducts cats name db)) <->
   exists p, In p (products db) /\ product_id p = pid /\
             (exists c, associated db pid c) /\
             nameFilter name (product_name p) = true).
Proof.
  intros Hwf Hcats.
  assert (EF : filterGiven cats = false) by (destruct Hcats; subst; reflexivity).
  rewrite In_listedIds_getProducts, EF. split.
  - intros [_ [r (Hr & He & Hc)]]. exists (row_product r).
    pose proof (joined_associated db r Hr) as Ha. rewrite He in Ha.
    apply In_joinFromProducts in Hr. destruct Hr as (Hp & _).
    repeat split; try assumption; [eauto|].
    destruct (JS.truthy name) eqn:Et; [assumption | now apply nameFilter_falsy].
  - intros [p (Hp & He & [c Ha] & Hn)]. split; [discriminate|].
    destruct (associated_joins db pid c Hwf Ha) as [r (Hr & Er & _)].
    exists r. repeat split; try assumption.
    assert (row_product r = p).
    { apply In_joinFromProducts in Hr. destruct Hr as (Hp' & _).
      eapply NoDup_map_inj; [apply (wf_product_pk db Hwf) | | | congruence]; assumption. }
    subst p. destruct (JS.truthy name); [assumption | discriminate].
Qed.

(** With a name search the second [where] replaces the first: once some
    product matches the categories, the listing is the one of the name
    search alone. *)
Lemma getProducts_second_where_wins C name db :
  JS.truthy name = true -> matchingProductIds C db <> [] ->
  getProducts (Some C) name db = getProducts None name db.
Proof.
  intros Ht HM. unfold getProducts.
  destruct name as [s|]; [|discriminate]. simpl in Ht.
  destruct (JS.is_empty s); [discriminate|].
  destruct C as [|c C0]; [reflexivity|]. cbn [filterGiven andb].
  destruct (matchingProductIds (c :: C0) db) eqn:E; [congruence|]. reflexivity.
Qed.

(** C3 (fails on the code): asked for category 1 and the name part "ap",
    [getProducts] lists product 1 ("apple"), which has no association with
    category 1; the listing is the one of the name search alone. *)
Theorem getProducts_name_search_drops_category_filter :
  listedIds (getProducts (Some [1]) (Some "ap") Sample.catalogue) = [2; 1] /\
  ~ associated Sample.catalogue 1 1 /\
  getProducts (Some [1]) (Some "ap") Sample.catalogue =
  getProducts None (Some "ap") Sample.catalogue.
Proof.
  split; [reflexivity|]. split; [|reflexivity].
  unfold associated. simpl. intuition discriminate.
Qed.

(* ================================================================== *)
(** ** [editProduct] on an unknown id *)
(* ================================================================== *)

Lemma selectProductsById_none db id :
  hasProduct db id = false -> selectProductsById id db = [].
Proof.
  unfold hasProduct, selectProductsById. intros H.
  induction (products db) as [|p l IH]; simpl in *; [reflexivity|].
  apply orb_false_elim in H. destruct H as [H1 H2]. rewrite H1. auto.
Qed.

(** C6: when no product has the given id, an id of the range of the id
    column, [editProduct] answers 404 with message "Product not found" and
    status "error", and the store it leaves is the store it found: rows,
    associations, timestamps and sequences alike. *)
Theorem editProduct_unknown_id_changes_nothing :
  forall (now id : Z) (name : option string) (price : option Z)
         (categoryIds : option (list Z)) (db : Db),
    int4 id ->
    (forall p, In p (products db) -> product_id p <> id) ->
    editProduct now id name price categoryIds db =
    (db, Responds {| statusCode := 404; setCookie := [];
                     message := "Product not found"; status := "error";
                     data := NoData |}).
Proof.
  intros now id name price cats db _ H. unfold editProduct.
  rewrite selectProductsById_none; [reflexivity|].
  destruct (hasProduct db id) eqn:E; [|reflexivity].
  apply hasProduct_In in E. destruct E as [p [Hp He]]. now apply H in Hp.
Qed.

Lemma editProduct_unknown_id_changes_nothing_witness :
  int4 77 /\
  (forall p, In p (products Sample.catalogue) -> product_id p <> 77) /\
  editProduct 100 77 (Some "pear") (Some 9) (Some [1; 4]) Sample.catalogue =
  (Sample.catalogue,
   Responds {| statusCode := 404; setCookie := [];
               message := "Product not found"; status := "error";
               data := NoData |}).
Proof.
  assert (H : forall p, In p (products Sample.catalogue) -> product_id p <> 77).
  { intros p Hp. simpl in Hp.
    destruct Hp as [<-|[<-|[<-|[<-|[]]]]]; simpl; lia. }
  assert (Hid : int4 77) by (unfold int4; lia).
  split; [exact Hid|]. split; [exact H|].
  apply (editProduct_unknown_id_changes_nothing 100 77 (Some "pear") (Some 9)
           (Some [1; 4]) Sample.catalogue Hid H).
Defined.

(* ================================================================== *)
(** ** The category name formatter *)
(* ================================================================== *)

Lemma is_ws_lower_char c : JS.is_ws (JS.lower_char c) = JS.is_ws c.
Proof. destruct c as [[] [] [] [] [] [] [] []]; reflexivity. Qed.

Lemma toLowerCase_join_space ts :
  JS.toLowerCase (JS.join " " ts) = JS.join " " (map JS.toLowerCase ts).
Proof.
  induction ts as [|t ts IH]; [reflexivity|].
  destruct ts as [|t2 ts]; [reflexivity|].
  change (JS.join " " (t :: t2 :: ts)) with (t ++ " " ++ JS.join " " (t2 :: ts)).
  change (JS.join " " (map JS.toLowerCase (t :: t2 :: ts)))
    with (JS.toLowerCase t ++ " " ++ JS.join " " (map JS.toLowerCase (t2 :: ts))).
  rewrite toLowerCase_app, toLowerCase_app, IH. reflexivity.
Qed.

Lemma token_toLowerCase t : Spec.token t -> Spec.token (JS.toLowerCase t).
Proof.
  intros [Hne Hws]. split.
  - destruct t; [congruence | discriminate].
  - clear Hne. induction t as [|c t IH]; simpl; [contradiction|].
    intros d [<-|Hd].
    + rewrite is_ws_lower_char. apply Hws. now left.
    + apply IH; [|assumption]. intros e He. apply Hws. now right.
Qed.

Lemma token_tail c t :
  (forall d, In d (list_ascii_of_string (String c t)) -> JS.is_ws d = false) ->
  JS.is_ws c = false /\
  (forall d, In d (list_ascii_of_string t) -> JS.is_ws d = false).
Proof.
  intros H. split; [apply H; now left | intros d Hd; apply H; now right].
Qed.

Lemma not_ws_not_space c : JS.is_ws c = false -> Ascii.eqb c Formatter.space = false.
Proof.
  intros H. destruct (Ascii.eqb c Formatter.space) eqn:E; [|reflexivity].
  apply Ascii.eqb_eq in E. subst c. discriminate H.
Qed.

Lemma split_token t :
  (forall d, In d (list_ascii_of_string t) -> JS.is_ws d = false) ->
  JS.split Formatter.space t = [t].
Proof.
  induction t as [|c t IH]; intros H; [reflexivity|].
  apply token_tail in H. destruct H as [Hc Ht]. simpl.
  rewrite (not_ws_not_space c Hc), (IH Ht). reflexivity.
Qed.

Lemma split_token_space t rest :
  (forall d, In d (list_ascii_of_string t) -> JS.is_ws d = false) ->
  JS.split Formatter.space (t ++ " " ++ rest) = t :: JS.split Formatter.space rest.
Proof.
  induction t as [|c t IH]; intros H; [reflexivity|].
  apply token_tail in H. destruct H as [Hc Ht]. simpl.
  rewrite (not_ws_not_space c Hc). simpl in IH. rewrite (IH Ht). reflexivity.
Qed.

Lemma split_join_tokens ts :
  ts <> [] -> Forall Spec.token ts ->
  JS.split Formatter.space (JS.join " " ts) = ts.
Proof.
  induction ts as [|t ts IH]; intros Hne Hall; [congruence|].
  inversion Hall as [|? ? [_ Ht] Hts]; subst.
  destruct ts as [|t2 ts]; [now apply split_token|].
  change (JS.join " " (t :: t2 :: ts)) with (t ++ " " ++ JS.join " " (t2 :: ts)).
  rewrite (split_token_space _ _ Ht), IH; [reflexivity | discriminate | assumption].
Qed.

Lemma trimEnd_cons c s :
  JS.is_ws c = false -> JS.trimEnd (String c s) = String c (JS.trimEnd s).
Proof. intros H. simpl. now rewrite H. Qed.

Lemma trimEnd_token t :
  (forall d, In d (list_ascii_of_string t) -> JS.is_ws d = false) ->
  JS.trimEnd t = t.
Proof.
  induction t as [|c t IH]; intros H; [reflexivity|].
  apply token_tail in H. destruct H as [Hc Ht]. simpl.
  rewrite Hc, (IH Ht). reflexivity.
Qed.

Lemma trimEnd_app a b :
  b <> EmptyString -> JS.trimEnd b = b -> JS.trimEnd (a ++ b) = a ++ b.
Proof.
  intros Hne Hb. induction a as [|c a IH]; simpl; [assumption|].
  rewrite IH. destruct (a ++ b) eqn:E.
  - destruct a; simpl in E; [congruence | discriminate].
  - simpl. now rewrite andb_false_r.
Qed.

Lemma trimEnd_join_tokens ts :
  ts <> [] -> Forall Spec.token ts ->
  JS.join "_" ts <> EmptyString /\ JS.trimEnd (JS.join "_" ts) = JS.join "_" ts.
Proof.
  induction ts as [|t ts IH]; intros Hne Hall; [congruence|].
  inversion Hall as [|? ? [Htne Ht] Hts]; subst.
  destruct ts as [|t2 ts].
  - simpl. split; [assumption | now apply trimEnd_token].
  - change (JS.join "_" (t :: t2 :: ts)) with (t ++ "_" ++ JS.join "_" (t2 :: ts)).
    destruct IH as [IH1 IH2]; [discriminate | assumption |].
    split.
    + destruct t; [congruence | discriminate].
    + apply trimEnd_app.
      * discriminate.
      * change ("_" ++ JS.join "_" (t2 :: ts))
          with (String "_"%char (JS.join "_" (t2 :: ts))).
        rewrite trimEnd_cons by reflexivity. now rewrite IH2.
Qed.

Lemma trimStart_join_tokens ts :
  ts <> [] -> Forall Spec.token ts ->
  JS.trimStart (JS.join "_" ts) = JS.join "_" ts.
Proof.
  intros Hne Hall. destruct ts as [|t ts]; [congruence|].
  inversion Hall as [|? ? [Htne Ht] Hts]; subst.
  destruct t as [|c t]; [congruence|].
  apply token_tail in Ht. destruct Ht as [Hc _].
  destruct ts as [|t2 ts]; simpl; now rewrite Hc.
Qed.

(** C7 (amended): [reformatCategoryNameInput] returns null for null and
    for the empty string; for an input made of tokens separated by single
    spaces, without surrounding white space, it returns the lower-cased
    tokens joined with underscores, and a single token comes back
    lower-cased and otherwise unchanged. *)
Theorem reformatCategoryNameInput_joins_tokens :
  Formatter.reformatCategoryNameInput None = None /\
  Formatter.reformatCategoryNameInput (Some EmptyString) = None /\
  forall ts : list string,
    ts <> [] -> Forall Spec.token ts ->
    Formatter.reformatCategoryNameInput (Some (JS.join " " ts)) =
    Some (JS.join "_" (map JS.toLowerCase ts)).
Proof.
  split; [reflexivity|]. split; [reflexivity|].
  intros ts Hne Hall. unfold Formatter.reformatCategoryNameInput.
  assert (Hin : JS.is_empty (JS.join " " ts) = false).
  { destruct ts as [|t ts]; [congruence|].
    inversion Hall as [|? ? [Htne _] _]; subst.
    destruct t; [congruence|]. destruct ts; reflexivity. }
  rewrite Hin. cbv zeta. rewrite toLowerCase_join_space.
  assert (Hne' : map JS.toLowerCase ts <> []) by (destruct ts; [congruence | discriminate]).
  assert (Hall' : Forall Spec.token (map JS.toLowerCase ts)).
  { apply Forall_forall. intros t Ht. apply in_map_iff in Ht.
    destruct Ht as [t0 [<- Ht0]]. apply token_toLowerCase.
    rewrite Forall_forall in Hall. auto. }
  rewrite (split_join_tokens _ Hne' Hall').
  destruct (map JS.toLowerCase ts) as [|t [|t2 l]] eqn:E; [congruence | reflexivity |].
  change (2 <=? List.length (t :: t2 :: l))%nat with true. cbv iota.
  unfold JS.trim. rewrite (trimStart_join_tokens _ Hne' Hall').
  destruct (trimEnd_join_tokens _ Hne' Hall') as [_ H]. now rewrite H.
Qed.

Lemma reformatCategoryNameInput_joins_tokens_witness :
  Forall Spec.token ["Female"; "Clothing"] /\
  Formatter.reformatCategoryNameInput (Some "Female Clothing") = Some "female_clothing".
Proof.
  assert (H : Forall Spec.token ["Female"; "Clothing"]).
  { repeat constructor; try discriminate;
      simpl; intros c Hc;
      repeat (destruct Hc as [<-|Hc]; [reflexivity|]); contradiction. }
  split; [exact H|].
  destruct reformatCategoryNameInput_joins_tokens as (_ & _ & Hts).
  apply (Hts ["Female"; "Clothing"]); [discriminate | exact H].
Defined.

(** C7 as stated fails: the code splits on the space character only, so
    tokens separated by a TAB are not joined, and nothing is trimmed
    around a single token or once spaces have become underscores. *)
Lemma reformatCategoryNameInput_differs_from_toStorageForm :
  ~ (forall name : option string,
       Formatter.reformatCategoryNameInput name = Spec.toStorageForm name).
Proof.
  intros H.
  specialize (H (Some ("Gift" ++ String "009"%char "Cards"))).
  vm_compute in H. discriminate H.
Qed.

(** C8: the three equations of the formatter. *)
Theorem formatter_equations :
  Formatter.reformatCategoryNameResponse
    (Formatter.reformatCategoryNameInput (Some "Category Name")) = Some "category name" /\
  Formatter.reformatCategoryNameInput (Some "Category") = Some "category" /\
  Formatter.reformatCategoryNameInput None = None.
Proof. repeat split. Qed.

(* ================================================================== *)
(** ** [JSON.parse] never exhausts its fuel *)
(* ================================================================== *)

Local Open Scope nat_scope.

Lemma skip_ws_le s : String.length (Json.skip_ws s) <= String.length s.
Proof.
  induction s as [|c s IH]; simpl; [lia|].
  destruct (Json.is_json_ws c); simpl; lia.
Qed.

Lemma skip_ws_cons s c r :
  Json.skip_ws s = String c r -> String.length r < String.length s.
Proof.
  intros H. pose proof (skip_ws_le s) as Hle. rewrite H in Hle. simpl in Hle. lia.
Qed.

Lemma strip_prefix_le text : forall s r,
  Json.strip_prefix text s = Some r -> String.length r <= String.length s.
Proof.
  induction text as [|a text IH]; intros s r H; simpl in H.
  - inversion H. lia.
  - destruct s as [|b s]; [discriminate|].
    destruct (Ascii.eqb a b); [|discriminate].
    apply IH in H. simpl. lia.
Qed.

Lemma lit_le {A} text (v a : A) s r :
  Json.lit text v s = Json.Ok a r -> String.length r <= String.length s.
Proof.
  unfold Json.lit. destruct (Json.strip_prefix text s) eqn:E; [|discriminate].
  intros H. inversion H. subst. now apply strip_prefix_le in E.
Qed.

Lemma lex_string_body_lt s : forall b r,
  Json.lex_string_body s = Some (b, r) -> String.length r < String.length s.
Proof.
  induction s as [s IH] using (well_founded_induction (well_founded_ltof _ String.length)).
  intros b r H. destruct s as [|c s]; [discriminate|].
  cbn [Json.lex_string_body] in H.
  destruct (Ascii.eqb c "034"%char).
  { inversion H. subst. simpl. lia. }
  destruct (Json.is_control c); [discriminate|].
  destruct (Ascii.eqb c "\"%char).
  - destruct s as [|e s]; [discriminate|].
    destruct (Json.is_simple_escape e).
    + destruct (Json.lex_string_body s) as [[b' r']|] eqn:E; [|discriminate].
      inversion H. subst. apply IH in E; [simpl; lia | unfold ltof; simpl; lia].
    + destruct (Ascii.eqb e "u"%char); [|discriminate].
      destruct s as [|h1 [|h2 [|h3 [|h4 s4]]]]; try discriminate.
      destruct (Json.is_hex h1 && Json.is_hex h2 && Json.is_hex h3 && Json.is_hex h4);
        [|discriminate].
      destruct (Json.lex_string_body s4) as [[b' r']|] eqn:E; [|discriminate].
      inversion H. subst. apply IH in E; [simpl; lia | unfold ltof; simpl; lia].
  - destruct (Json.lex_string_body s) as [[b' r']|] eqn:E; [|discriminate].
    inversion H. subst. apply IH in E; [simpl; lia | unfold ltof; simpl; lia].
Qed.

Lemma lex_digits_le s : forall d r,
  Json.lex_digits s = (d, r) -> String.length r <= String.length s.
Proof.
  induction s as [|c s IH]; intros d r H; simpl in H.
  - inversion H. simpl. lia.
  - destruct (Json.is_digit c).
    + destruct (Json.lex_digits s) as [d' r'] eqn:E. inversion H. subst.
      specialize (IH _ _ eq_refl). simpl. lia.
    + inversion H. subst. lia.
Qed.

Lemma lex_int_lt s i r :
  Json.lex_int s = Some (i, r) -> String.length r < String.length s.
Proof.
  unfold Json.lex_int. destruct s as [|c s]; [discriminate|].
  destruct (Ascii.eqb c "0"%char).
  - intros H. inversion H. subst. simpl. lia.
  - destruct (Json.is_digit c); [|discriminate].
    destruct (Json.lex_digits s) as [d r'] eqn:E. intros H. inversion H. subst.
    apply lex_digits_le in E. simpl. lia.
Qed.

Lemma lex_frac_le s f r :
  Json.lex_frac s = Some (f, r) -> String.length r <= String.length s.
Proof.
  unfold Json.lex_frac. destruct s as [|c s].
  - intros H. inversion H. lia.
  - destruct (Ascii.eqb c "."%char).
    + destruct (Json.lex_digits s) as [d r'] eqn:E. apply lex_digits_le in E.
      destruct d; [discriminate|]. intros H. inversion H. subst. simpl. lia.
    + intros H. inversion H. lia.
Qed.

Lemma lex_exp_le s e r :
  Json.lex_exp s = Some (e, r) -> String.length r <= String.length s.
Proof.
  unfold Json.lex_exp. destruct s as [|c s].
  - intros H. inversion H. lia.
  - destruct (Ascii.eqb c "e"%char || Ascii.eqb c "E"%char).
    + destruct (match s with
                | EmptyString => (false, s)
                | String g s1 =>
                    if Ascii.eqb g "-"%char then (true, s1)
                    else if Ascii.eqb g "+"%char then (false, s1) else (false, s)
                end) as [sg s1] eqn:Es.
      assert (Hs1 : String.length s1 <= String.length s).
      { destruct s as [|g s0]; [inversion Es; lia|].
        destruct (Ascii.eqb g "-"%char); [inversion Es; simpl; lia|].
        destruct (Ascii.eqb g "+"%char); inversion Es; simpl; lia. }
      destruct (Json.lex_digits s1) as [d r'] eqn:E. apply lex_digits_le in E.
      destruct d; [discriminate|]. intros H. inversion H. subst. simpl. lia.
    + intros H. inversion H. lia.
Qed.

Lemma lex_number_lt s n r :
  Json.lex_number s = Some (n, r) -> String.length r < String.length s.
Proof.
  unfold Json.lex_number.
  destruct (match s with
            | EmptyString => (false, s)
            | String c s' => if Ascii.eqb c "-"%char then (true, s') else (false, s)
            end) as [neg s0] eqn:Es.
  assert (Hs0 : String.length s0 <= String.length s).
  { destruct s as [|c s']; [inversion Es; lia|].
    destruct (Ascii.eqb c "-"%char); inversion Es; simpl; lia. }
  destruct (Json.lex_int s0) as [[i s1]|] eqn:E1; [|discriminate].
  destruct (Json.lex_frac s1) as [[f s2]|] eqn:E2; [|discriminate].
  destruct (Json.lex_exp s2) as [[e s3]|] eqn:E3; [|discriminate].
  intros H. inversion H. subst.
  apply lex_int_lt in E1. apply lex_frac_le in E2. apply lex_exp_le in E3. lia.
Qed.

(** Every reader hands back strictly less than it was given. *)
Lemma readers_consume n :
  (forall s v r, Json.value n s = Json.Ok v r -> String.length r < String.length s) /\
  (forall s l r, Json.elements n s = Json.Ok l r -> String.length r < String.length s) /\
  (forall s kv r, Json.member n s = Json.Ok kv r -> String.length r < String.length s) /\
  (forall s l r, Json.members n s = Json.Ok l r -> String.length r < String.length s).
Proof.
  induction n as [|n (IHv & IHe & IHm & IHms)].
  - repeat split; intros; discriminate.
  - repeat split.
    + intros s v r H. cbn [Json.value] in H.
      destruct (Json.skip_ws s) as [|c t] eqn:Es; [discriminate|].
      apply skip_ws_cons in Es.
      destruct (Ascii.eqb c "n"%char); [apply lit_le in H; lia|].
      destruct (Ascii.eqb c "t"%char); [apply lit_le in H; lia|].
      destruct (Ascii.eqb c "f"%char); [apply lit_le in H; lia|].
      destruct (Ascii.eqb c "034"%char).
      { destruct (Json.lex_string_body t) as [[b r']|] eqn:E; [|discriminate].
        inversion H. subst. apply lex_string_body_lt in E. lia. }
      destruct (Ascii.eqb c "["%char).
      { destruct (Json.skip_ws t) as [|c1 t1] eqn:Et; [discriminate|].
        apply skip_ws_cons in Et.
        destruct (Ascii.eqb c1 "]"%char); [inversion H; subst; lia|].
        destruct (Json.value n t) as [v1 r1| |] eqn:E1; try discriminate.
        destruct (Json.elements n r1) as [l r2| |] eqn:E2; try discriminate.
        inversion H. subst. apply IHv in E1. apply IHe in E2. lia. }
      destruct (Ascii.eqb c "{"%char).
      { destruct (Json.skip_ws t) as [|c1 t1] eqn:Et; [discriminate|].
        apply skip_ws_cons in Et.
        destruct (Ascii.eqb c1 "}"%char); [inversion H; subst; lia|].
        destruct (Json.member n t) as [v1 r1| |] eqn:E1; try discriminate.
        destruct (Json.members n r1) as [l r2| |] eqn:E2; try discriminate.
        inversion H. subst. apply IHm in E1. apply IHms in E2. lia. }
      destruct (Ascii.eqb c "-"%char || Json.is_digit c); [|discriminate].
      destruct (Json.lex_number (String c t)) as [[x r']|] eqn:E; [|discriminate].
      inversion H. subst. apply lex_number_lt in E. simpl in E. lia.
    + intros s l r H. cbn [Json.elements] in H.
      destruct (Json.skip_ws s) as [|c t] eqn:Es; [discriminate|].
      apply skip_ws_cons in Es.
      destruct (Ascii.eqb c "]"%char); [inversion H; subst; lia|].
      destruct (Ascii.eqb c ","%char); [|discriminate].
      destruct (Json.value n t) as [v1 r1| |] eqn:E1; try discriminate.
      destruct (Json.elements n r1) as [l2 r2| |] eqn:E2; try discriminate.
      inversion H. subst. apply IHv in E1. apply IHe in E2. lia.
    + intros s kv r H. cbn [Json.member] in H.
      destruct (Json.skip_ws s) as [|c t] eqn:Es; [discriminate|].
      apply skip_ws_cons in Es.
      destruct (Ascii.eqb c "034"%char); [|discriminate].
      destruct (Json.lex_string_body t) as [[k r1]|] eqn:E; [|discriminate].
      apply lex_string_body_lt in E.
      destruct (Json.skip_ws r1) as [|c2 r2] eqn:Er; [discriminate|].
      apply skip_ws_cons in Er.
      destruct (Ascii.eqb c2 ":"%char); [|discriminate].
      destruct (Json.value n r2) as [v1 r3| |] eqn:E1; try discriminate.
      inversion H. subst. apply IHv in E1. lia.
    + intros s l r H. cbn [Json.members] in H.
      destruct (Json.skip_ws s) as [|c t] eqn:Es; [discriminate|].
      apply skip_ws_cons in Es.
      destruct (Ascii.eqb c "}"%char); [inversion H; subst; lia|].
      destruct (Ascii.eqb c ","%char); [|discriminate].
      destruct (Json.member n t) as [v1 r1| |] eqn:E1; try discriminate.
      destruct (Json.members n r1) as [l2 r2| |] eqn:E2; try discriminate.
      inversion H. subst. apply IHm in E1. apply IHms in E2. lia.
Qed.

(** More fuel than characters is enough for every reader. *)
Lemma readers_have_fuel n :
  (forall s, String.length s < n -> Json.value n s <> Json.OutOfFuel) /\
  (forall s, String.length s < n -> Json.elements n s <> Json.OutOfFuel) /\
  (forall s, String.length s < n -> Json.member n s <> Json.OutOfFuel) /\
  (forall s, String.length s < n -> Json.members n s <> Json.OutOfFuel).
Proof.
  induction n as [|n (IHv & IHe & IHm & IHms)].
  - repeat split; intros; lia.
  - destruct (readers_consume n) as (Cv & Ce & Cm & Cms).
    repeat split.
    + intros s Hs H. cbn [Json.value] in H.
      destruct (Json.skip_ws s) as [|c t] eqn:Es; [discriminate|].
      apply skip_ws_cons in Es.
      destruct (Ascii.eqb c "n"%char);
        [unfold Json.lit in H; destruct (Json.strip_prefix _ _); discriminate|].
      destruct (Ascii.eqb c "t"%char);
        [unfold Json.lit in H; destruct (Json.strip_prefix _ _); discriminate|].
      destruct (Ascii.eqb c "f"%char);
        [unfold Json.lit in H; destruct (Json.strip_prefix _ _); discriminate|].
      destruct (Ascii.eqb c "034"%char).
      { destruct (Json.lex_string_body t) as [[b r']|]; discriminate. }
      destruct (Ascii.eqb c "["%char).
      { destruct (Json.skip_ws t) as [|c1 t1] eqn:Et; [discriminate|].
        destruct (Ascii.eqb c1 "]"%char); [discriminate|].
        destruct (Json.value n t) as [v1 r1| |] eqn:E1; try discriminate.
        - apply Cv in E1.
          destruct (Json.elements n r1) as [l r2| |] eqn:E2; try discriminate.
          apply (IHe r1); [lia | assumption].
        - apply (IHv t); [lia | assumption]. }
      destruct (Ascii.eqb c "{"%char).
      { destruct (Json.skip_ws t) as [|c1 t1] eqn:Et; [discriminate|].
        destruct (Ascii.eqb c1 "}"%char); [discriminate|].
        destruct (Json.member n t) as [v1 r1| |] eqn:E1; try discriminate.
        - apply Cm in E1.
          destruct (Json.members n r1) as [l r2| |] eqn:E2; try discriminate.
          apply (IHms r1); [lia | assumption].
        - apply (IHm t); [lia | assumption]. }
      destruct (Ascii.eqb c "-"%char || Json.is_digit c); [|discriminate].
      destruct (Json.lex_number (String c t)) as [[x r']|]; discriminate.
    + intros s Hs H. cbn [Json.elements] in H.
      destruct (Json.skip_ws s) as [|c t] eqn:Es; [discriminate|].
      apply skip_ws_cons in Es.
      destruct (Ascii.eqb c "]"%char); [discriminate|].
      destruct (Ascii.eqb c ","%char); [|discriminate].
      destruct (Json.value n t) as [v1 r1| |] eqn:E1; try discriminate.
      * apply Cv in E1.
        destruct (Json.elements n r1) as [l2 r2| |] eqn:E2; try discriminate.
        apply (IHe r1); [lia | assumption].
      * apply (IHv t); [lia | assumption].
    + intros s Hs H. cbn [Json.member] in H.
      destruct (Json.skip_ws s) as [|c t] eqn:Es; [discriminate|].
      apply skip_ws_cons in Es.
      destruct (Ascii.eqb c "034"%char); [|discriminate].
      destruct (Json.lex_string_body t) as [[k r1]|] eqn:E; [|discriminate].
      apply lex_string_body_lt in E.
      destruct (Json.skip_ws r1) as [|c2 r2] eqn:Er; [discriminate|].
      apply skip_ws_cons in Er.
      destruct (Ascii.eqb c2 ":"%char); [|discriminate].
      destruct (Json.value n r2) as [v1 r3| |] eqn:E1; try discriminate.
      apply (IHv r2); [lia | assumption].
    + intros s Hs H. cbn [Json.members] in H.
      destruct (Json.skip_ws s) as [|c t] eqn:Es; [discriminate|].
      apply skip_ws_cons in Es.
      destruct (Ascii.eqb c "}"%char); [discriminate|].
      destruct (Ascii.eqb c ","%char); [|discriminate].
      destruct (Json.member n t) as [v1 r1| |] eqn:E1; try discriminate.
      * apply Cm in E1.
        destruct (Json.members n r1) as [l2 r2| |] eqn:E2; try discriminate.
        apply (IHms r1); [lia | assumption].
      * apply (IHm t); [lia | assumption].
Qed.

(** [JSON.parse] returns a value or throws on every text. *)
Lemma parse_total text : Json.parse text <> Json.Exhausted.
Proof.
  unfold Json.parse. destruct (Json.value _ text) as [v r| |] eqn:E.
  - destruct (JS.is_empty _); discriminate.
  - discriminate.
  - exfalso. destruct (readers_have_fuel (Json.fuel_for text)) as (Hv & _).
    apply (Hv text); [unfold Json.fuel_for; lia | exact E].
Qed.

(** A text that starts with none of the characters a JSON value can start
    with makes [JSON.parse] throw. *)
Lemma parse_throws_on_first_char c rest :
  Json.is_json_ws c = false ->
  existsb (Ascii.eqb c)
    ["n"%char; "t"%char; "f"%char; "034"%char; "["%char; "{"%char; "-"%char] = false ->
  Json.is_digit c = false ->
  Json.parse (String c rest) = Json.ThrowsSyntaxError.
Proof.
  intros Hws Hc Hd. unfold Json.parse, Json.fuel_for.
  cbn [String.length Nat.mul Nat.add Json.value Json.skip_ws]. rewrite Hws.
  cbn [existsb] in Hc.
  repeat (apply orb_false_elim in Hc; destruct Hc as [? Hc]).
  repeat match goal with E : Ascii.eqb c _ = false |- _ => rewrite E; clear E end.
  rewrite Hd. reflexivity.
Qed.

Local Close Scope nat_scope.

(* ================================================================== *)
(** ** The query string of [getProducts] *)
(* ================================================================== *)

Lemma getProductsRequest_throws text name db :
  text <> EmptyString -> Json.parse text = Json.ThrowsSyntaxError ->
  getProductsRequest (Some text) name db = Some (Throws JsonSyntaxError).
Proof.
  intros Hne Hp. unfold getProductsRequest, decodeCategoryIds.
  destruct text; [congruence|]. cbn [JS.is_empty]. now rewrite Hp.
Qed.

(** C9: a request whose [categoryIds] parameter is the text [abc] makes
    [JSON.parse] throw: the handler throws and sends no response, whatever
    the name parameter and the store.  The same holds for every text that
    begins with a character no JSON value begins with. *)
Theorem getProducts_throws_on_malformed_categoryIds :
  Json.parse "abc" = Json.ThrowsSyntaxError /\
  (forall (name : option string) (db : Db),
     getProductsRequest (Some "abc") name db = Some (Throws JsonSyntaxError)) /\
  (forall (c : ascii) (rest : string) (name : option string) (db : Db),
     Json.is_json_ws c = false ->
     existsb (Ascii.eqb c)
       ["n"%char; "t"%char; "f"%char; "034"%char; "["%char; "{"%char; "-"%char] = false ->
     Json.is_digit c = false ->
     getProductsRequest (Some (String c rest)) name db = Some (Throws JsonSyntaxError)).
Proof.
  split; [reflexivity|]. split; [intros; reflexivity|].
  intros c rest name db Hws Hc Hd.
  apply getProductsRequest_throws; [discriminate|].
  now apply parse_throws_on_first_char.
Qed.

Lemma getProducts_throws_on_malformed_categoryIds_witness :
  Json.is_json_ws "("%char = false /\ Json.is_digit "("%char = false /\
  getProductsRequest (Some "(1)") None Sample.catalogue = Some (Throws JsonSyntaxError).
Proof.
  split; [reflexivity|]. split; [reflexivity|].
  destruct getProducts_throws_on_malformed_categoryIds as (_ & _ & H).
  apply (H "("%char "1)" None Sample.catalogue); reflexivity.
Defined.

(* ================================================================== *)
(** ** Inserting association rows *)
(* ================================================================== *)

Lemma hasPair_withPairs db l pid cid :
  hasPair (withPairs db l) pid cid =
  existsb (fun r => (productId r =? pid) && (categoryId r =? cid)) l.
Proof. reflexivity. Qed.

Lemma rowOk_after db r r' :
  rowOk (withPairs db (productCategories db ++ [r])) r' =
  rowOk db r' && negb (pair_eqb r r').
Proof.
  unfold rowOk, hasPair, pair_eqb at 1. cbn [productCategories withPairs].
  change (hasProduct (withPairs db (productCategories db ++ [r])) (productId r'))
    with (hasProduct db (productId r')).
  change (hasCategory (withPairs db (productCategories db ++ [r])) (categoryId r'))
    with (hasCategory db (categoryId r')).
  rewrite existsb_app. cbn [existsb]. rewrite orb_false_r.
  unfold pair_eqb.
  destruct (existsb _ (productCategories db)),
    ((productId r =? productId r') && (categoryId r =? categoryId r')),
    (hasProduct db (productId r')), (hasCategory db (categoryId r')); reflexivity.
Qed.

Lemma insertable_after db r rows :
  insertable (withPairs db (productCategories db ++ [r])) rows =
  insertable db rows && negb (existsb (pair_eqb r) rows).
Proof.
  induction rows as [|r' rows IH]; simpl; [reflexivity|].
  rewrite IH, rowOk_after.
  destruct (rowOk db r'), (pair_eqb r r'), (existsb (pair_eqb r') rows),
    (insertable db rows), (existsb (pair_eqb r) rows); reflexivity.
Qed.

Lemma insertPair_ok db r :
  rowOk db r = true ->
  insertPair r db = (withPairs db (productCategories db ++ [r]), inr tt).
Proof.
  unfold rowOk, insertPair. intros H.
  apply andb_prop in H. destruct H as [H H3].
  apply andb_prop in H. destruct H as [H1 H2].
  apply negb_true_iff in H1. now rewrite H1, H2, H3.
Qed.

Lemma insertPair_fail db r :
  rowOk db r = false -> exists e, insertPair r db = (db, inl e).
Proof.
  unfold rowOk, insertPair. intros H.
  destruct (hasPair db (productId r) (categoryId r)); [eexists; reflexivity|].
  destruct (hasProduct db (productId r)); [|eexists; reflexivity].
  destruct (hasCategory db (categoryId r)); [discriminate H | eexists; reflexivity].
Qed.

Lemma withPairs_withPairs db l l' : withPairs (withPairs db l) l' = withPairs db l'.
Proof. reflexivity. Qed.

Lemma insertPairs_ok rows : forall db,
  insertable db rows = true ->
  insertPairs rows db = (withPairs db (productCategories db ++ rows), inr tt).
Proof.
  induction rows as [|r rows IH]; intros db H; cbn [insertable insertPairs] in *.
  - unfold ret, withPairs. rewrite app_nil_r. now destruct db.
  - apply andb_prop in H. destruct H as [H H3].
    apply andb_prop in H. destruct H as [H1 H2].
    unfold bind. rewrite (insertPair_ok db r H1).
    rewrite IH.
    + rewrite withPairs_withPairs. simpl. now rewrite <- app_assoc.
    + rewrite insertable_after, H3.
      apply negb_true_iff in H2. now rewrite H2.
Qed.

Lemma insertPairs_fail rows : forall db,
  insertable db rows = false -> exists db' e, insertPairs rows db = (db', inl e).
Proof.
  induction rows as [|r rows IH]; intros db H;
    cbn [insertable insertPairs] in *; [discriminate|].
  unfold bind. destruct (rowOk db r) eqn:E1.
  - rewrite (insertPair_ok db r E1).
    apply IH. rewrite insertable_after. rewrite ?E1 in H.
    destruct (existsb (pair_eqb r) rows); cbn [negb andb] in *.
    + apply andb_false_r.
    + rewrite andb_true_r. assumption.
  - destruct (insertPair_fail db r E1) as [e He]. rewrite He. eauto.
Qed.

Lemma existsb_pair_eqb_pairsFor id c L :
  existsb (pair_eqb {| productId := id; categoryId := c |}) (pairsFor id L) =
  existsb (Z.eqb c) L.
Proof.
  induction L as [|c' L IH]; simpl; [reflexivity|].
  rewrite IH. unfold pair_eqb. simpl. now rewrite Z.eqb_refl.
Qed.

Lemma insertable_pairsFor db id L :
  insertable db (pairsFor id L) =
  forallb (fun c => negb (hasPair db id c) && hasProduct db id && hasCategory db c) L &&
  nodupb Z.eqb L.
Proof.
  induction L as [|c L IH]; simpl; [reflexivity|].
  rewrite IH, existsb_pair_eqb_pairsFor. unfold rowOk. simpl.
  destruct (negb (hasPair db id c) && hasProduct db id && hasCategory db c),
    (existsb (Z.eqb c) L), (forallb _ L), (nodupb Z.eqb L); reflexivity.
Qed.

Lemma nodupb_complete (l : list Z) : NoDup l -> nodupb Z.eqb l = true.
Proof.
  induction 1 as [|x l Hx Hl IH]; simpl; [reflexivity|].
  rewrite IH, andb_true_r. apply negb_true_iff.
  destruct (existsb (Z.eqb x) l) eqn:E; [|reflexivity].
  exfalso. apply Hx. now apply includes_In.
Qed.

Lemma nodupb_NoDup (l : list Z) : nodupb Z.eqb l = true <-> NoDup l.
Proof.
  split; [|apply nodupb_complete]. apply nodupb_sound. apply Z.eqb_refl.
Qed.

(* ================================================================== *)
(** ** The re-fetch of a product with its categories *)
(* ================================================================== *)

Lemma flat_map_none {A B} (key : A -> Z) (k : Z) (h : A -> list B) (l : list A) :
  (forall x, In x l -> key x <> k) ->
  flat_map (fun x => if key x =? k then h x else []) l = [].
Proof.
  induction l as [|x l IH]; simpl; intros H; [reflexivity|].
  destruct (key x =? k) eqn:E.
  - apply Z.eqb_eq in E. exfalso. apply (H x); auto.
  - apply IH. intros y Hy. apply H. now right.
Qed.

Lemma flat_map_unique {A B} (key : A -> Z) (k : Z) (h : A -> list B) (l : list A) a :
  NoDup (map key l) -> In a l -> key a = k ->
  flat_map (fun x => if key x =? k then h x else []) l = h a.
Proof.
  induction l as [|x l IH]; simpl; intros Hnd Ha Hk; [contradiction|].
  inversion Hnd as [|? ? Hnotin Hnd']; subst.
  destruct Ha as [->|Ha].
  - rewrite Z.eqb_refl. rewrite flat_map_none; [apply app_nil_r|].
    intros y Hy E. apply Hnotin. rewrite <- E. now apply in_map.
  - destruct (key x =? key a) eqn:E.
    + apply Z.eqb_eq in E. exfalso. apply Hnotin. rewrite E. now apply in_map.
    + simpl. now apply IH.
Qed.

Lemma productWithCategories_ids db id :
  wf db ->
  map (fun r => category_id (row_category r)) (productWithCategories id db) =
  map categoryId (filter (fun pc => productId pc =? id) (productCategories db)).
Proof.
  intros Hwf. unfold productWithCategories, run.
  cbn [where_ sel_where sel_rows sel_orderByCreatedAtDesc].
  unfold joinFromProductCategories.
  pose proof (wf_fk_product db Hwf) as Hfp.
  pose proof (wf_fk_category db Hwf) as Hfc.
  induction (productCategories db) as [|pc l IH]; [reflexivity|].
  cbn [flat_map]. rewrite filter_app, map_app.
  rewrite IH;
    [| intros; apply Hfp; now right | intros; apply Hfc; now right].
  clear IH.
  assert (Hp := Hfp pc (or_introl eq_refl)).
  assert (Hc := Hfc pc (or_introl eq_refl)).
  apply hasProduct_In in Hp. destruct Hp as [p [Hp Ep]].
  apply hasCategory_In in Hc. destruct Hc as [c [Hc Ec]].
  rewrite (flat_map_unique product_id (productId pc) _ (products db) p
             (wf_product_pk db Hwf) Hp Ep).
  rewrite (flat_map_unique category_id (categoryId pc) _ (categories db) c
             (wf_category_pk db Hwf) Hc Ec).
  cbn [filter row_productCategory].
  destruct (productId pc =? id); cbn [map row_category app]; congruence.
Qed.

Lemma productWithCategories_views db id :
  wf db ->
  map cv_id (map (fun row => categoryView (row_category row)) (productWithCategories id db)) =
  map categoryId (filter (fun pc => productId pc =? id) (productCategories db)).
Proof.
  intros Hwf. rewrite <- (productWithCategories_ids db id Hwf).
  rewrite map_map. reflexivity.
Qed.

(* ================================================================== *)
(** ** [addProduct] *)
(* ================================================================== *)

Lemma selectProductsByName_nil db name :
  selectProductsByName name db = [] <->
  existsb (fun p => String.eqb (product_name p) name) (products db) = false.
Proof.
  unfold selectProductsByName.
  induction (products db) as [|p l IH]; simpl; [tauto|].
  destruct (String.eqb (product_name p) name); simpl; [|exact IH].
  split; discriminate.
Qed.

Lemma In_selectCategoryIdsIn L db v :
  In v (selectCategoryIdsIn L db) <-> In v L /\ hasCategory db v = true.
Proof.
  unfold selectCategoryIdsIn. rewrite in_map_iff. split.
  - intros [c [<- Hc]]. apply filter_In in Hc. destruct Hc as [Hc Hi].
    apply includes_In in Hi. split; [assumption|].
    apply hasCategory_In. eauto.
  - intros [HL Hc]. apply hasCategory_In in Hc. destruct Hc as [c [Hc <-]].
    exists c. split; [reflexivity|]. apply filter_In. split; [assumption|].
    now apply includes_In.
Qed.

Lemma selectCategoryIdsIn_nil L db :
  selectCategoryIdsIn L db = [] <-> forall c, In c L -> hasCategory db c = false.
Proof.
  split.
  - intros E c Hc. destruct (hasCategory db c) eqn:Eh; [|reflexivity].
    assert (H : In c (selectCategoryIdsIn L db)) by (apply In_selectCategoryIdsIn; auto).
    rewrite E in H. contradiction.
  - intros H. destruct (selectCategoryIdsIn L db) as [|v l] eqn:E; [reflexivity|].
    assert (Hv : In v (selectCategoryIdsIn L db)) by (rewrite E; now left).
    apply In_selectCategoryIdsIn in Hv. destruct Hv as [Hv Hc].
    rewrite (H v Hv) in Hc. discriminate.
Qed.

Lemma length_eqb_0 {A} (l : list A) : (List.length l =? 0)%nat = true <-> l = [].
Proof. destruct l; simpl; split; congruence. Qed.

Lemma NoDup_NoDup_pairsFor id L : NoDup L -> NoDup (pairsFor id L).
Proof.
  induction 1 as [|c L Hc HL IH]; simpl; constructor; [|assumption].
  intros H. apply Hc. unfold pairsFor in H. apply in_map_iff in H.
  destruct H as [c' [E Hc']]. inversion E. now subst.
Qed.

Lemma In_pairsFor id L r :
  In r (pairsFor id L) <-> productId r = id /\ In (categoryId r) L.
Proof.
  unfold pairsFor. rewrite in_map_iff. split.
  - intros [c [<- Hc]]. simpl. auto.
  - intros [<- Hc]. exists (categoryId r). split; [apply pair_eta | assumption].
Qed.

Lemma hasPair_false_fresh db id c :
  wf db -> hasProduct db id = false -> hasPair db id c = false.
Proof.
  intros Hwf Hf. unfold hasPair. destruct (existsb _ _) eqn:E; [|reflexivity].
  apply existsb_exists in E. destruct E as [r [Hr He]].
  apply andb_prop in He. destruct He as [He _]. apply Z.eqb_eq in He.
  pose proof (wf_fk_product db Hwf r Hr) as H. rewrite He in H. congruence.
Qed.

Lemma filter_pairs_fresh db id :
  wf db -> hasProduct db id = false ->
  filter (fun pc => productId pc =? id) (productCategories db) = [].
Proof.
  intros Hwf Hf. pose proof (wf_fk_product db Hwf) as H.
  induction (productCategories db) as [|r l IH]; [reflexivity|]. simpl.
  destruct (productId r =? id) eqn:E.
  - apply Z.eqb_eq in E. specialize (H r (or_introl eq_refl)). rewrite E in H. congruence.
  - apply IH. intros q Hq. apply H. now right.
Qed.

Lemma filter_pairsFor_same id L :
  filter (fun pc => productId pc =? id) (pairsFor id L) = pairsFor id L.
Proof.
  induction L as [|c L IH]; simpl; [reflexivity|]. now rewrite Z.eqb_refl, IH.
Qed.

Lemma map_categoryId_pairsFor id L : map categoryId (pairsFor id L) = L.
Proof. unfold pairsFor. rewrite map_map. simpl. apply map_id. Qed.

Lemma hasProduct_withNewProduct db row l id :
  hasProduct (withPairs (withNewProduct db row) l) id =
  hasProduct db id || (product_id row =? id).
Proof.
  unfold hasProduct. cbn [withPairs withNewProduct products].
  rewrite existsb_app. simpl. now rewrite orb_false_r.
Qed.

(** The store after a committed [addProduct] satisfies the schema. *)
Lemma wf_after_add db name price now L :
  wf db -> hasProduct db (products_id_seq db) = false ->
  selectProductsByName name db = [] ->
  (forall c, In c L -> hasCategory db c = true) -> NoDup L ->
  wf (withPairs (withNewProduct db (newRow db name price now))
        (productCategories db ++ pairsFor (products_id_seq db) L)).
Proof.
  intros Hwf Hfresh Hname Hvalid HndL.
  constructor; cbn [withPairs withNewProduct products categories productCategories].
  - rewrite map_app. apply NoDup_app; [apply (wf_product_pk db Hwf) | repeat constructor; simpl; tauto|].
    intros a Ha [<-|[]]. simpl in Ha. apply in_map_iff in Ha.
    destruct Ha as [p [Ep Hp]].
    assert (hasProduct db (products_id_seq db) = true) by (apply hasProduct_In; eauto).
    congruence.
  - apply (wf_category_pk db Hwf).
  - apply NoDup_app; [apply (wf_pair_pk db Hwf) | now apply NoDup_NoDup_pairsFor|].
    intros r Hr Hn. apply In_pairsFor in Hn. destruct Hn as [E _].
    pose proof (wf_fk_product db Hwf r Hr) as H. rewrite E in H. congruence.
  - rewrite map_app. apply NoDup_app; [apply (wf_product_name db Hwf) | repeat constructor; simpl; tauto|].
    intros a Ha [<-|[]]. simpl in Ha. apply in_map_iff in Ha.
    destruct Ha as [p [Ep Hp]]. apply selectProductsByName_nil in Hname.
    assert (existsb (fun p => String.eqb (product_name p) name) (products db) = true).
    { apply existsb_exists. exists p. split; [assumption|]. now apply String.eqb_eq. }
    congruence.
  - apply (wf_category_name db Hwf).
  - intros r Hr. rewrite hasProduct_withNewProduct.
    apply in_app_iff in Hr. destruct Hr as [Hr|Hr].
    + apply (wf_fk_product db Hwf) in Hr. now rewrite Hr.
    + apply In_pairsFor in Hr. destruct Hr as [-> _]. simpl.
      rewrite Z.eqb_refl. apply orb_true_r.
  - intros r Hr. apply in_app_iff in Hr. destruct Hr as [Hr|Hr].
    + apply (wf_fk_category db Hwf r Hr).
    + apply In_pairsFor in Hr. destruct Hr as [_ Hr]. apply (Hvalid _ Hr).
Qed.

Lemma addProduct_past_checks env now name price L db :
  hasProduct db (products_id_seq db) = false ->
  selectProductsByName name db = [] ->
  (exists c, In c L /\ hasCategory db c = true) ->
  addProduct env now name price L db =
  match insertPairs (pairsFor (products_id_seq db) L)
          (withNewProduct db (newRow db name price now)) with
  | (db2, inl e) => (rollback db db2, Throws e)
  | (db2, inr _) =>
      (db2, json (fst (Auth.setAuthCookies env now
                         (Some (Auth.IdNumber (products_id_seq db)))))
              "Product added successfully" "success"
              (ProductDetail (Some (newRow db name price now))
                 (map (fun row => categoryView (row_category row))
                      (productWithCategories (products_id_seq db) db2))))
  end.
Proof.
  intros Hfresh Hname [c [HcL Hc]]. unfold addProduct.
  rewrite Hname. cbn [List.length Nat.ltb Nat.leb].
  destruct (selectCategoryIdsIn L db) as [|v vs] eqn:Esel.
  { rewrite selectCategoryIdsIn_nil in Esel. rewrite (Esel c HcL) in Hc. discriminate. }
  cbn [List.length Nat.eqb].
  unfold transaction, bind, insertProduct. rewrite Hfresh.
  apply selectProductsByName_nil in Hname. rewrite Hname.
  fold (newRow db name price now).
  fold (withNewProduct db (newRow db name price now)).
  cbn [product_id newRow].
  unfold insertProductCategories.
  destruct L as [|c0 L0]; [contradiction|].
  cbn [pairsFor map]. fold (pairsFor (products_id_seq db) L0).
  change ({| productId := products_id_seq db; categoryId := c0 |}
            :: pairsFor (products_id_seq db) L0)
    with (pairsFor (products_id_seq db) (c0 :: L0)).
  destruct (insertPairs _ _) as [db2 [e|[]]]; reflexivity.
Qed.

Lemma forallb_pointwise {A} (f g : A -> bool) (l : list A) :
  (forall x, f x = g x) -> forallb f l = forallb g l.
Proof.
  intros H. induction l as [|x l IH]; simpl; [reflexivity|]. now rewrite H, IH.
Qed.

Lemma insertable_new_product db name price now L :
  wf db -> hasProduct db (products_id_seq db) = false ->
  insertable (withNewProduct db (newRow db name price now))
             (pairsFor (products_id_seq db) L) =
  forallb (hasCategory db) L && nodupb Z.eqb L.
Proof.
  intros Hwf Hfresh. rewrite insertable_pairsFor. f_equal.
  apply forallb_pointwise. intros c.
  change (hasPair (withNewProduct db (newRow db name price now)) (products_id_seq db) c)
    with (hasPair db (products_id_seq db) c).
  rewrite (hasPair_false_fresh db _ c Hwf Hfresh).
  change (hasCategory (withNewProduct db (newRow db name price now)) c)
    with (hasCategory db c).
  replace (hasProduct (withNewProduct db (newRow db name price now)) (products_id_seq db))
    with true; [reflexivity|].
  symmetry. unfold hasProduct. cbn [withNewProduct products]. rewrite existsb_app.
  simpl. rewrite Z.eqb_refl. apply orb_true_r.
Qed.

Lemma addProduct_not_found_only_if env now name price L db :
  snd (addProduct env now name price L db) = error 400 "Category not found" ->
  forall c, In c L -> hasCategory db c = false.
Proof.
  unfold addProduct.
  destruct (0 <? List.length (selectProductsByName name db))%nat; [discriminate|].
  destruct (List.length (selectCategoryIdsIn L db) =? 0)%nat eqn:E.
  - intros _. apply selectCategoryIdsIn_nil. now apply length_eqb_0.
  - destruct (transaction _ db) as [db' [e|p]]; discriminate.
Qed.

Lemma views_are_rows db id c :
  wf db ->
  (In c (map cv_id (map (fun row => categoryView (row_category row))
                        (productWithCategories id db))) <->
   associated db id c).
Proof.
  intros Hwf. rewrite (productWithCategories_views db id Hwf), in_map_iff.
  unfold associated. split.
  - intros [r [<- Hr]]. apply filter_In in Hr. destruct Hr as [Hr E].
    apply Z.eqb_eq in E. rewrite <- E. now rewrite pair_eta.
  - intros H. exists {| productId := id; categoryId := c |}. split; [reflexivity|].
    apply filter_In. split; [exact H|]. apply Z.eqb_refl.
Qed.

Lemma addProduct_commit_inv env now name price L db r :
  wf db ->
  snd (addProduct env now name price L db) = Responds r -> statusCode r = 200 ->
  hasProduct db (products_id_seq db) = false /\
  selectProductsByName name db = [] /\
  L <> [] /\ (forall c, In c L -> hasCategory db c = true) /\ NoDup L /\
  fst (addProduct env now name price L db) =
    withPairs (withNewProduct db (newRow db name price now))
      (productCategories db ++ pairsFor (products_id_seq db) L).
Proof.
  intros Hwf Hout Hst.
  destruct (selectProductsByName name db) as [|q qs] eqn:Hname.
  2:{ unfold addProduct in Hout. rewrite Hname in Hout. cbn in Hout.
      inversion Hout. subst r. discriminate Hst. }
  destruct (selectCategoryIdsIn L db) as [|v vs] eqn:Hsel.
  { unfold addProduct in Hout. rewrite Hname, Hsel in Hout. cbn in Hout.
    inversion Hout. subst r. discriminate Hst. }
  assert (Hex : exists c, In c L /\ hasCategory db c = true).
  { exists v. apply In_selectCategoryIdsIn. rewrite Hsel. now left. }
  destruct (hasProduct db (products_id_seq db)) eqn:Hfresh.
  { unfold addProduct in Hout. rewrite Hname, Hsel in Hout.
    cbn [List.length Nat.ltb Nat.leb Nat.eqb] in Hout.
    unfold transaction, bind, insertProduct in Hout. rewrite Hfresh in Hout.
    discriminate Hout. }
  rewrite (addProduct_past_checks env now name price L db Hfresh Hname Hex) in Hout |- *.
  destruct (insertable (withNewProduct db (newRow db name price now))
              (pairsFor (products_id_seq db) L)) eqn:Hins.
  - rewrite (insertPairs_ok _ _ Hins). cbn [fst withNewProduct productCategories].
    rewrite (insertable_new_product db name price now L Hwf Hfresh) in Hins.
    apply andb_prop in Hins. destruct Hins as [Hvalid Hnd].
    rewrite forallb_forall in Hvalid. apply nodupb_NoDup in Hnd.
    repeat split; auto.
    destruct Hex as [c [Hc _]]. intros ->. contradiction.
  - destruct (insertPairs_fail _ _ Hins) as [db2 [e He]]. rewrite He in Hout.
    discriminate Hout.
Qed.

Lemma associated_after_add db name price now L c :
  wf db -> hasProduct db (products_id_seq db) = false ->
  (associated (withPairs (withNewProduct db (newRow db name price now))
                 (productCategories db ++ pairsFor (products_id_seq db) L))
              (products_id_seq db) c <->
   In c L).
Proof.
  intros Hwf Hfresh. unfold associated. cbn [withPairs productCategories].
  rewrite in_app_iff, In_pairsFor. cbn [productId categoryId]. split.
  - intros [H|[_ H]]; [|exact H].
    pose proof (wf_fk_product db Hwf _ H) as Hp. cbn [productId] in Hp. congruence.
  - intros H. right. auto.
Qed.

(** C5 (amended): [addProduct] answers "Category not found" only when no
    supplied id resolves, and one resolving id is enough to pass that
    test.  A successful answer means that the product row is inserted,
    that every association row of the new product is for a supplied id
    that resolves, and that the response carries the product with its
    full category list.  When every supplied id resolves and none is
    repeated, it succeeds: the store gains that product and one
    association row per supplied id.  The name is new, and the price and
    the ids are of the range of their columns. *)
Theorem addProduct_category_check_and_insert :
  forall (env : option string) (now : Z) (name : string) (price : Z)
         (L : list Z) (db : Db),
    wf db -> hasProduct db (products_id_seq db) = false ->
    selectProductsByName name db = [] ->
    int4 price -> (forall c, In c L -> int4 c) ->
    let db' := fst (addProduct env now name price L db) in
    let out := snd (addProduct env now name price L db) in
    let id := products_id_seq db in
    (out = error 400 "Category not found" ->
     forall c, In c L -> hasCategory db c = false) /\
    (L <> [] -> (forall c, In c L -> hasCategory db c = false) ->
     out = error 400 "Category not found" /\ db' = db) /\
    (forall r, out = Responds r -> statusCode r = 200 ->
       In (newRow db name price now) (products db') /\
       (forall c, associated db' id c -> In c L /\ hasCategory db c = true) /\
       exists views,
         data r = ProductDetail (Some (newRow db name price now)) views /\
         forall c, In c (map cv_id views) <-> associated db' id c) /\
    ((forall c, In c L -> hasCategory db c = true) -> L <> [] -> NoDup L ->
       wf db' /\
       products db' = (products db ++ [newRow db name price now])%list /\
       productCategories db' = (productCategories db ++ pairsFor id L)%list /\
       exists views,
         (forall c, In c (map cv_id views) <-> In c L) /\
         out = json (fst (Auth.setAuthCookies env now (Some (Auth.IdNumber id))))
                 "Product added successfully" "success"
                 (ProductDetail (Some (newRow db name price now)) views)).
Proof.
  intros env now name price L db Hwf Hfresh Hname _ _ db' out id.
  assert (Hcommit :
    (forall c, In c L -> hasCategory db c = true) -> L <> [] -> NoDup L ->
    addProduct env now name price L db =
    (withPairs (withNewProduct db (newRow db name price now))
       (productCategories db ++ pairsFor id L),
     json (fst (Auth.setAuthCookies env now (Some (Auth.IdNumber id))))
       "Product added successfully" "success"
       (ProductDetail (Some (newRow db name price now))
          (map (fun row => categoryView (row_category row))
               (productWithCategories id
                  (withPairs (withNewProduct db (newRow db name price now))
                     (productCategories db ++ pairsFor id L))))))).
  { intros Hvalid HL Hnd.
    assert (Hex : exists c, In c L /\ hasCategory db c = true).
    { destruct L as [|c0 L0]; [congruence|]. exists c0. split; [now left|].
      apply Hvalid. now left. }
    rewrite (addProduct_past_checks env now name price L db Hfresh Hname Hex).
    assert (Hok : insertable (withNewProduct db (newRow db name price now))
                    (pairsFor (products_id_seq db) L) = true).
    { rewrite (insertable_new_product db name price now L Hwf Hfresh).
      apply andb_true_intro. split.
      - apply forallb_forall. exact Hvalid.
      - now apply nodupb_complete. }
    rewrite (insertPairs_ok _ _ Hok). reflexivity. }
  assert (Hafter :
    (forall c, In c L -> hasCategory db c = true) -> L <> [] -> NoDup L ->
    wf db' /\
    products db' = (products db ++ [newRow db name price now])%list /\
    productCategories db' = (productCategories db ++ pairsFor id L)%list /\
    (forall c, associated db' id c <-> In c L) /\
    out = json (fst (Auth.setAuthCookies env now (Some (Auth.IdNumber id))))
            "Product added successfully" "success"
            (ProductDetail (Some (newRow db name price now))
               (map (fun row => categoryView (row_category row))
                    (productWithCategories id db')))).
  { intros Hvalid HL Hnd. unfold db', out.
    rewrite (Hcommit Hvalid HL Hnd). cbn [fst snd].
    split; [now apply wf_after_add|]. split; [reflexivity|]. split; [reflexivity|].
    split; [|reflexivity].
    intros c. now apply associated_after_add. }
  split; [|split; [|split]].
  - apply addProduct_not_found_only_if.
  - intros _ H. unfold db', out, addProduct. rewrite Hname.
    cbn [List.length Nat.ltb Nat.leb].
    apply selectCategoryIdsIn_nil in H. rewrite H. split; reflexivity.
  - intros r Hout Hst.
    destruct (addProduct_commit_inv env now name price L db r Hwf Hout Hst)
      as (_ & _ & HL & Hvalid & Hnd & _).
    destruct (Hafter Hvalid HL Hnd) as (Hwf' & Hp & _ & Hassoc & Hjson).
    split; [rewrite Hp; apply in_app_iff; right; now left|]. split.
    + intros c Hc. apply Hassoc in Hc. auto.
    + rewrite Hjson in Hout. unfold json in Hout. injection Hout as <-.
      cbn [data]. eexists. split; [reflexivity|].
      intros c. now apply views_are_rows.
  - intros Hvalid HL Hnd.
    destruct (Hafter Hvalid HL Hnd) as (Hwf' & Hp & Hpc & Hassoc & Hjson).
    split; [exact Hwf'|]. split; [exact Hp|]. split; [exact Hpc|].
    eexists. split; [|exact Hjson].
    intros c. rewrite (views_are_rows db' id c Hwf'). apply Hassoc.
Qed.

Lemma addProduct_category_check_and_insert_witness :
  wf Sample.catalogue /\ int4 7 /\
  productCategories (fst (addProduct None 100 "pear" 7 [5; 1] Sample.catalogue)) =
    (productCategories Sample.catalogue ++ pairsFor 22 [5; 1])%list /\
  snd (addProduct None 100 "pear" 7 [99] Sample.catalogue) =
    error 400 "Category not found".
Proof.
  assert (Hwf : wf Sample.catalogue) by (apply check_sound; reflexivity).
  assert (Hprice : int4 7) by (unfold int4; lia).
  assert (H1 : forall c, In c [5; 1] -> int4 c)
    by (intros c [<-|[<-|[]]]; unfold int4; lia).
  assert (H2 : forall c, In c [99] -> int4 c)
    by (intros c [<-|[]]; unfold int4; lia).
  split; [exact Hwf|]. split; [exact Hprice|]. split.
  - destruct (addProduct_category_check_and_insert None 100 "pear" 7 [5; 1]
                Sample.catalogue Hwf eq_refl eq_refl Hprice H1) as (_ & _ & _ & H).
    apply H.
    + intros c [<-|[<-|[]]]; reflexivity.
    + discriminate.
    + repeat constructor; simpl; intuition discriminate.
  - destruct (addProduct_category_check_and_insert None 100 "pear" 7 [99]
                Sample.catalogue Hwf eq_refl eq_refl Hprice H2) as (_ & H & _).
    apply H; [discriminate|]. intros c [<-|[]]. reflexivity.
Defined.

Lemma insertPair_inv r db db' x :
  insertPair r db = (db', inr x) ->
  hasCategory db (categoryId r) = true /\
  db' = withPairs db (productCategories db ++ [r]).
Proof.
  unfold insertPair.
  destruct (hasPair db (productId r) (categoryId r)); [discriminate|].
  destruct (hasProduct db (productId r)); [|discriminate].
  destruct (hasCategory db (categoryId r)); [|discriminate].
  cbn [negb]. intros H. inversion H. auto.
Qed.

Lemma insertPairs_inv rows : forall db db' x,
  insertPairs rows db = (db', inr x) ->
  products db' = products db /\
  forall r, In r rows -> hasCategory db (categoryId r) = true.
Proof.
  induction rows as [|r rows IH]; intros db db' x H; cbn [insertPairs] in H.
  - inversion H. subst. split; [reflexivity | contradiction].
  - unfold bind in H. destruct (insertPair r db) as [db1 [e|[]]] eqn:E1; [discriminate|].
    apply insertPair_inv in E1. destruct E1 as [Hc ->].
    apply IH in H. destruct H as [Hp Hall]. split; [exact Hp|].
    intros q [<-|Hq]; [exact Hc | apply (Hall q Hq)].
Qed.

(** What a successful [addProduct] has done, on any store. *)
Lemma addProduct_success env now name price L db r :
  snd (addProduct env now name price L db) = Responds r -> statusCode r = 200 ->
  (exists views,
     r = {| statusCode := 200;
            setCookie := fst (Auth.setAuthCookies env now
                                (Some (Auth.IdNumber (products_id_seq db))));
            message := "Product added successfully"; status := "success";
            data := ProductDetail (Some (newRow db name price now)) views |}) /\
  In (newRow db name price now) (products (fst (addProduct env now name price L db))) /\
  (forall c, In c L -> hasCategory db c = true).
Proof.
  unfold addProduct.
  destruct (0 <? List.length (selectProductsByName name db))%nat.
  { cbn [snd error]. intros H Hs. inversion H. subst r. discriminate Hs. }
  destruct (List.length (selectCategoryIdsIn L db) =? 0)%nat.
  { cbn [snd error]. intros H Hs. inversion H. subst r. discriminate Hs. }
  unfold transaction, bind, insertProduct.
  destruct (hasProduct db (products_id_seq db)); [discriminate|].
  destruct (existsb _ (products db)); [discriminate|].
  fold (newRow db name price now). fold (withNewProduct db (newRow db name price now)).
  cbn [product_id newRow].
  unfold insertProductCategories.
  destruct (pairsFor (products_id_seq db) L) as [|r0 rows] eqn:Erows; [discriminate|].
  rewrite <- Erows.
  destruct (insertPairs _ _) as [db2 [e|[]]] eqn:Eins; [discriminate|].
  unfold ret. cbn [snd fst json product_id newRow]. intros H _. inversion H. subst r.
  apply insertPairs_inv in Eins. destruct Eins as [Hp Hall].
  split; [eexists; reflexivity|]. split.
  - rewrite Hp. cbn [withNewProduct products]. apply in_app_iff. right. now left.
  - intros c Hc.
    apply (Hall {| productId := products_id_seq db; categoryId := c |}).
    apply In_pairsFor. auto.
Qed.

(** C5 as stated fails: [addProduct] never succeeds on a list that holds
    an id resolving to no category, so no association row is ever
    inserted for such an id; a list like [5, 99] passes the test on the
    categories and then aborts on the foreign key. *)
Lemma addProduct_never_links_unresolved_id :
  ~ (exists (db : Db) (env : option string) (now : Z) (name : string) (price : Z)
            (L : list Z) (c : Z) (r : Response),
       snd (addProduct env now name price L db) = Responds r /\
       statusCode r = 200 /\ In c L /\ hasCategory db c = false).
Proof.
  intros (db & env & now & name & price & L & c & r & Hout & Hst & HcL & Hc).
  destruct (addProduct_success env now name price L db r Hout Hst) as (_ & _ & Hall).
  rewrite (Hall c HcL) in Hc. discriminate.
Qed.

(* ================================================================== *)
(** ** Auth cookies *)
(* ================================================================== *)

Lemma cookiesOf_editProduct now id name price cats db :
  cookiesOf (snd (editProduct now id name price cats db)) = [].
Proof.
  unfold editProduct.
  destruct (List.length (selectProductsById id db) =? 0)%nat; [reflexivity|].
  destruct (transaction _ db) as [db' [e|p]]; reflexivity.
Qed.

Lemma cookiesOf_addCategory now name db :
  cookiesOf (snd (CategoryController.addCategory now name db)) = [].
Proof.
  unfold CategoryController.addCategory.
  destruct name as [n|]; [|reflexivity].
  destruct (JS.is_empty n); [reflexivity|].
  destruct (Formatter.reformatCategoryNameInput (Some n)); [|reflexivity].
  destruct (0 <? _)%nat; [reflexivity|].
  destruct (insertCategory _ now db) as [db' [e|l]]; reflexivity.
Qed.

Lemma cookiesOf_getProducts cats name db : cookiesOf (getProducts cats name db) = [].
Proof.
  unfold getProducts. destruct (filterGiven cats && _); reflexivity.
Qed.

Lemma cookiesOf_deleteProduct id db : cookiesOf (snd (deleteProduct id db)) = [].
Proof.
  unfold deleteProduct.
  destruct (List.length (selectProductsById id db) =? 0)%nat; reflexivity.
Qed.

(** C10: a successful [addProduct] response carries a [Set-Cookie] header
    with two cookies, [access_token] (expiring 60 s after issue) and
    [refresh_token] (7 days), both signed now over the payload
    [{ id: <id of the product just inserted> }]; stored by the caller
    they take the place of whatever auth cookies it held.  No response of
    [getProducts], [editProduct], [deleteProduct], [getCategories] or
    [addCategory], and no error response of [addProduct], sets a cookie. *)
Theorem addProduct_sets_auth_cookies :
  (forall (env : option string) (now : Z) (name : string) (price : Z)
          (L : list Z) (db : Db) (r : Response),
     snd (addProduct env now name price L db) = Responds r -> statusCode r = 200 ->
     let access := Auth.sign (Auth.IdNumber (products_id_seq db)) (Auth.secret env) 60 now in
     let refresh := Auth.sign (Auth.IdNumber (products_id_seq db)) (Auth.secret env) 604800 now in
     (exists p views,
        data r = ProductDetail (Some p) views /\
        product_id p = products_id_seq db /\
        In p (products (fst (addProduct env now name price L db)))) /\
     setCookie r =
       [ {| Auth.cookie_name := "access_token"; Auth.cookie_value := access;
            Auth.cookie_path := "/"; Auth.cookie_maxAge := 60;
            Auth.cookie_httpOnly := true; Auth.cookie_secure := true;
            Auth.cookie_sameSite := "None" |};
         {| Auth.cookie_name := "refresh_token"; Auth.cookie_value := refresh;
            Auth.cookie_path := "/"; Auth.cookie_maxAge := 604800;
            Auth.cookie_httpOnly := true; Auth.cookie_secure := true;
            Auth.cookie_sameSite := "None" |} ] /\
     Auth.tk_exp access = Auth.tk_iat access + 60 /\
     Auth.tk_exp refresh = Auth.tk_iat refresh + 604800 /\
     Auth.tk_iat access = now /\ Auth.tk_iat refresh = now /\
     (forall jar,
        Auth.cookie (Auth.receive jar (setCookie r)) "access_token" = Some access /\
        Auth.cookie (Auth.receive jar (setCookie r)) "refresh_token" = Some refresh)) /\
  (forall (env : option string) (now : Z) (name : string) (price : Z)
          (L : list Z) (db : Db) (r : Response),
     snd (addProduct env now name price L db) = Responds r -> statusCode r <> 200 ->
     setCookie r = []) /\
  (forall cats name db, cookiesOf (getProducts cats name db) = []) /\
  (forall now id name price cats db,
     cookiesOf (snd (editProduct now id name price cats db)) = []) /\
  (forall id db, cookiesOf (snd (deleteProduct id db)) = []) /\
  (forall db, cookiesOf (CategoryController.getCategories db) = []) /\
  (forall now name db, cookiesOf (snd (CategoryController.addCategory now name db)) = []).
Proof.
  split; [|split; [|split; [|split; [|split; [|split]]]]].
  - intros env now name price L db r Hout Hst access refresh.
    destruct (addProduct_success env now name price L db r Hout Hst)
      as ([views Hr] & Hin & _).
    subst r. cbn [data setCookie]. split; [|split; [|repeat split]].
    + exists (newRow db name price now), views. auto.
    + reflexivity.
  - intros env now name price L db r. unfold addProduct.
    destruct (0 <? List.length (selectProductsByName name db))%nat.
    { cbn [snd error]. intros H _. inversion H. reflexivity. }
    destruct (List.length (selectCategoryIdsIn L db) =? 0)%nat.
    { cbn [snd error]. intros H _. inversion H. reflexivity. }
    destruct (transaction _ db) as [db' [e|p]]; [discriminate|].
    cbn [snd json]. intros H Hs. inversion H. subst r. now contradiction Hs.
  - apply cookiesOf_getProducts.
  - apply cookiesOf_editProduct.
  - apply cookiesOf_deleteProduct.
  - reflexivity.
  - apply cookiesOf_addCategory.
Qed.

Lemma addProduct_sets_auth_cookies_witness :
  exists r,
    snd (addProduct None 100 "pear" 7 [5; 1] Sample.catalogue) = Responds r /\
    statusCode r = 200 /\
    forall jar,
      Auth.cookie (Auth.receive jar (setCookie r)) "access_token" =
      Some {| Auth.tk_id := Auth.IdNumber 22; Auth.tk_iat := 100;
              Auth.tk_exp := 160; Auth.tk_secret := "mySecret" |}.
Proof.
  eexists. split; [reflexivity|]. split; [reflexivity|].
  intros jar.
  destruct addProduct_sets_auth_cookies as [H _].
  destruct (H None 100 "pear" 7 [5; 1] Sample.catalogue _ eq_refl eq_refl)
    as (_ & _ & _ & _ & _ & _ & Hjar).
  apply (Hjar jar).
Defined.

(* ================================================================== *)
(** ** [editProduct] *)
(* ================================================================== *)

Lemma selectProductsById_some db id :
  hasProduct db id = true -> (List.length (selectProductsById id db) =? 0)%nat = false.
Proof.
  unfold hasProduct, selectProductsById.
  induction (products db) as [|p l IH]; simpl; [discriminate|].
  destruct (product_id p =? id); simpl; [reflexivity | exact IH].
Qed.

Lemma updateProduct_ok id name price updatedAt db :
  (forall n p, name = Some n -> In p (products db) -> product_name p = n ->
               product_id p = id) ->
  updateProduct id name price updatedAt db =
  (withProducts db
     (map (fun p => if product_id p =? id then setFields name price updatedAt p else p)
          (products db)),
   inr (map (setFields name price updatedAt) (selectProductsById id db))).
Proof.
  intros H. unfold updateProduct.
  assert (E : match name with
              | Some n => hasProduct db id &&
                          existsb (fun p => negb (product_id p =? id) &&
                                            String.eqb (product_name p) n) (products db)
              | None => false
              end = false).
  { destruct name as [n|]; [|reflexivity].
    apply andb_false_iff. right.
    destruct (existsb _ (products db)) eqn:Ex; [|reflexivity].
    apply existsb_exists in Ex. destruct Ex as [p [Hp Hc]].
    apply andb_prop in Hc. destruct Hc as [Hne He].
    apply String.eqb_eq in He. apply negb_true_iff, Z.eqb_neq in Hne.
    exfalso. apply Hne. now apply (H n p). }
  rewrite E. reflexivity.
Qed.

Lemma hasProduct_after_update db id name price u l k :
  hasProduct
    (withPairs
       (withProducts db
          (map (fun p => if product_id p =? id then setFields name price u p else p)
               (products db))) l) k =
  hasProduct db k.
Proof.
  unfold hasProduct. cbn [withPairs withProducts products].
  induction (products db) as [|p ps IH]; simpl; [reflexivity|].
  rewrite IH. destruct (product_id p =? id); reflexivity.
Qed.

Lemma hasPair_after_delete db l id c :
  hasPair (withPairs db (filter (fun r => negb (productId r =? id)) l)) id c = false.
Proof.
  rewrite hasPair_withPairs. induction l as [|r l IH]; simpl; [reflexivity|].
  destruct (productId r =? id) eqn:E; simpl; [exact IH|]. now rewrite E, IH.
Qed.

Lemma NoDup_map_filter {A B} (f : A -> B) (g : A -> bool) (l : list A) :
  NoDup (map f l) -> NoDup (map f (filter g l)).
Proof.
  induction l as [|x l IH]; simpl; intros H; [constructor|].
  inversion H as [|? ? Hx Hl]; subst.
  destruct (g x); simpl; [|auto]. constructor; [|auto].
  intros Hin. apply Hx. apply in_map_iff in Hin. destruct Hin as [y [E Hy]].
  apply filter_In in Hy. rewrite <- E. apply in_map. tauto.
Qed.

(** The association table after a committed [editProduct] with a list. *)
Lemma editProduct_commit now id name price L db :
  wf db -> hasProduct db id = true -> L <> [] ->
  (exists c, In c L /\ hasCategory db c = true) ->
  (forall n p, givenName name = Some n -> In p (products db) ->
               product_name p = n -> product_id p = id) ->
  productCategories (fst (editProduct now id name price (Some L) db)) =
    (filter (fun r => negb (productId r =? id)) (productCategories db) ++
     pairsFor id (selectCategoryIdsIn L db))%list /\
  exists r, snd (editProduct now id name price (Some L) db) = Responds r /\
            statusCode r = 200.
Proof.
  intros Hwf Hid HL [c0 [Hc0L Hc0]] Hclash. unfold editProduct.
  rewrite (selectProductsById_some db id Hid).
  unfold transaction, bind.
  fold (givenName name). fold (givenPrice price).
  rewrite (updateProduct_ok id (givenName name) (givenPrice price) now db Hclash).
  assert (EF : filterGiven (Some L) = true) by (destruct L; [congruence | reflexivity]).
  rewrite EF. unfold deletePairsOfProduct.
  set (db1 := withProducts db _).
  change (selectCategoryIdsIn L db1) with (selectCategoryIdsIn L db).
  match goal with
  | |- context [insertProductCategories ?rows ?d] =>
      change d with
        (withPairs db1 (filter (fun r => negb (productId r =? id)) (productCategories db)))
  end.
  set (db2 := withPairs db1 _).
  assert (Hrows : insertProductCategories (pairsFor id (selectCategoryIdsIn L db)) db2 =
                  insertPairs (pairsFor id (selectCategoryIdsIn L db)) db2).
  { destruct (selectCategoryIdsIn L db) as [|v vs] eqn:E; [|reflexivity].
    rewrite selectCategoryIdsIn_nil in E. rewrite (E c0 Hc0L) in Hc0. discriminate. }
  rewrite Hrows.
  assert (Hok : insertable db2 (pairsFor id (selectCategoryIdsIn L db)) = true).
  { rewrite insertable_pairsFor. apply andb_true_intro. split.
    - apply forallb_forall. intros c Hc. unfold db2, db1.
      rewrite hasPair_after_delete, hasProduct_after_update, Hid.
      apply In_selectCategoryIdsIn in Hc. destruct Hc as [_ Hc].
      cbn [negb andb]. exact Hc.
    - apply nodupb_complete. unfold selectCategoryIdsIn.
      apply NoDup_map_filter. apply (wf_category_pk db Hwf). }
  rewrite (insertPairs_ok _ _ Hok). unfold ret. cbn [fst snd].
  split; [reflexivity|]. eexists. split; reflexivity.
Qed.

Lemma associated_after_edit db id L pid c :
  In {| productId := pid; categoryId := c |}
     (filter (fun r => negb (productId r =? id)) (productCategories db) ++
      pairsFor id (selectCategoryIdsIn L db)) <->
  (pid <> id /\ associated db pid c) \/
  (pid = id /\ In c L /\ hasCategory db c = true).
Proof.
  rewrite in_app_iff, filter_In, In_pairsFor. simpl.
  rewrite In_selectCategoryIdsIn, negb_true_iff, Z.eqb_neq.
  unfold associated. tauto.
Qed.

Lemma listed_requires_association C name db pid :
  JS.truthy name = false ->
  In pid (listedIds (getProducts (Some C) name db)) ->
  forall c, In c C -> associated db pid c.
Proof.
  intros Hn H c Hc. apply In_listedIds_getProducts in H. rewrite Hn in H.
  assert (HC : C <> []) by (intros ->; contradiction).
  assert (EF : filterGiven (Some C) = true) by (destruct C; [congruence | reflexivity]).
  rewrite EF in H. destruct H as [_ [r (_ & _ & Hm)]].
  apply (In_matchingProductIds C db pid HC); auto.
Qed.

Lemma editProduct_without_list now id name price cats db :
  cats = None \/ cats = Some [] ->
  productCategories (fst (editProduct now id name price cats db)) = productCategories db.
Proof.
  intros Hcats.
  assert (EF : filterGiven cats = false) by (destruct Hcats; subst; reflexivity).
  unfold editProduct.
  destruct (List.length (selectProductsById id db) =? 0)%nat; [reflexivity|].
  unfold transaction, bind, updateProduct. rewrite EF.
  destruct (match (if JS.truthy name then name else None) with
            | Some n => _ | None => false end); reflexivity.
Qed.

(** X22: on a store satisfying the schema, for a stored product and a
    supplied list of which at least one id resolves (price and ids of the
    range of their columns, and a new name, if given, not taken by another
    product), [editProduct] commits: all prior association rows of the
    product are gone, its rows are exactly those for the supplied ids that
    resolve, the rows of other products are as before, and a later lookup
    without name search, filtered by any category not among them, leaves
    the product out.  Without a list (absent or empty) the association
    table is untouched. *)
Theorem editProduct_replaces_associations :
  (forall (now id : Z) (name : option string) (price : option Z) (L : list Z) (db : Db),
     wf db -> hasProduct db id = true -> L <> [] ->
     (forall x, price = Some x -> int4 x) ->
     (forall c, In c L -> int4 c) ->
     (exists c, In c L /\ hasCategory db c = true) ->
     (forall n p, givenName name = Some n -> In p (products db) ->
                  product_name p = n -> product_id p = id) ->
     let db' := fst (editProduct now id name price (Some L) db) in
     (exists r, snd (editProduct now id name price (Some L) db) = Responds r /\
                statusCode r = 200) /\
     (forall c, associated db' id c <-> In c L /\ hasCategory db c = true) /\
     (forall pid c, pid <> id -> (associated db' pid c <-> associated db pid c)) /\
     (forall c C search, ~ (In c L /\ hasCategory db c = true) -> In c C ->
        JS.truthy search = false ->
        ~ In id (listedIds (getProducts (Some C) search db')))) /\
  (forall (now id : Z) (name : option string) (price : option Z)
          (cats : option (list Z)) (db : Db),
     cats = None \/ cats = Some [] ->
     productCategories (fst (editProduct now id name price cats db)) =
     productCategories db).
Proof.
  split; [|intros; now apply editProduct_without_list].
  intros now id name price L db Hwf Hid HL _ _ Hex Hclash db'.
  destruct (editProduct_commit now id name price L db Hwf Hid HL Hex Hclash) as [Hpc Hout].
  assert (Hassoc : forall pid c, associated db' pid c <->
            (pid <> id /\ associated db pid c) \/
            (pid = id /\ In c L /\ hasCategory db c = true)).
  { intros pid c. unfold associated at 1. unfold db'. rewrite Hpc.
    apply associated_after_edit. }
  split; [exact Hout|]. split; [|split].
  - intros c. rewrite Hassoc. intuition.
  - intros pid c Hne. rewrite Hassoc. intuition.
  - intros c C search Hnot HcC Hs Hin.
    apply (listed_requires_association C search db' id Hs) with (c := c) in Hin;
      [|exact HcC].
    apply Hassoc in Hin. intuition.
Qed.

Lemma editProduct_replaces_associations_witness :
  wf Sample.catalogue /\
  (forall c, associated (fst (editProduct 100 2 (Some "plum") None (Some [4; 99; 5])
                                 Sample.catalogue)) 2 c <-> c = 4 \/ c = 5) /\
  ~ In 2 (listedIds (getProducts (Some [1]) None
            (fst (editProduct 100 2 (Some "plum") None (Some [4; 99; 5]) Sample.catalogue)))).
Proof.
  assert (Hwf : wf Sample.catalogue) by (apply check_sound; reflexivity).
  assert (Hex : exists c, In c [4; 99; 5] /\ hasCategory Sample.catalogue c = true)
    by (exists 4; split; [now left | reflexivity]).
  assert (Hclash : forall n p, givenName (Some "plum") = Some n ->
            In p (products Sample.catalogue) -> product_name p = n -> product_id p = 2).
  { intros n p Hn Hp He. injection Hn as Hn. rewrite <- Hn in He. simpl in Hp.
    destruct Hp as [<-|[<-|[<-|[<-|[]]]]]; discriminate He. }
  destruct editProduct_replaces_associations as [H _].
  assert (Hprice : forall x, @None Z = Some x -> int4 x) by (intros x Hx; discriminate Hx).
  assert (Hrange : forall c, In c [4; 99; 5] -> int4 c)
    by (intros c [<-|[<-|[<-|[]]]]; unfold int4; lia).
  destruct (H 100 2 (Some "plum") None [4; 99; 5] Sample.catalogue Hwf eq_refl
              ltac:(discriminate) Hprice Hrange Hex Hclash) as (_ & Hrows & _ & Hlook).
  split; [exact Hwf|]. split.
  - intros c. rewrite Hrows. split.
    + intros [[<-|[<-|[<-|[]]]] Hc]; auto. discriminate Hc.
    + intros [->| ->]; split; simpl; auto.
  - apply (Hlook 1 [1] None); [|now left|reflexivity].
    intros [[E|[E|[E|[]]]] _]; discriminate E.
Defined.

(** C4 (fails on the code): asked to give product 1, which is in
    category 5, the categories [[99]], none of which exists,
    [editProduct] neither replaces the rows nor answers 400: the insert of
    no rows fails, the delete before it is rolled back, the handler throws
    and product 1 is in category 5 as before.  [addProduct] on the same
    list answers 400 "Category not found". *)
Theorem editProduct_unresolved_list_keeps_rows :
  hasProduct Sample.catalogue 1 = true /\
  hasCategory Sample.catalogue 99 = false /\
  associated Sample.catalogue 1 5 /\
  editProduct 100 1 None None (Some [99]) Sample.catalogue =
    (Sample.catalogue, Throws EmptyValues) /\
  snd (addProduct None 100 "pear" 7 [99] Sample.catalogue) =
    error 400 "Category not found".
Proof.
  split; [reflexivity|]. split; [reflexivity|]. split.
  - unfold associated. simpl. auto.
  - split; reflexivity.
Qed.

(* ================================================================== *)
(** ** What every request maintains *)
(* ================================================================== *)

Import Api.

Lemma wf_same_tables a b :
  products a = products b -> categories a = categories b ->
  productCategories a = productCategories b -> wf b -> wf a.
Proof.
  intros Hp Hc Hpc Hwf. constructor; unfold hasProduct, hasCategory; rewrite ?Hp, ?Hc, ?Hpc.
  - apply (wf_product_pk b Hwf).
  - apply (wf_category_pk b Hwf).
  - apply (wf_pair_pk b Hwf).
  - apply (wf_product_name b Hwf).
  - apply (wf_category_name b Hwf).
  - apply (wf_fk_product b Hwf).
  - apply (wf_fk_category b Hwf).
Qed.

Lemma invariant_rollback db db2 :
  invariant db ->
  products_id_seq db <= products_id_seq db2 ->
  categories_id_seq db <= categories_id_seq db2 ->
  invariant (rollback db db2).
Proof.
  intros [Hwf Hps Hcs Hcat] H1 H2. constructor.
  - now apply (wf_same_tables _ db).
  - intros p Hp. specialize (Hps p Hp). simpl. lia.
  - intros c Hc. specialize (Hcs c Hc). simpl. lia.
  - exact Hcat.
Qed.

Lemma insertPair_seqs r db :
  products_id_seq (fst (insertPair r db)) = products_id_seq db /\
  categories_id_seq (fst (insertPair r db)) = categories_id_seq db.
Proof.
  unfold insertPair.
  destruct (hasPair db _ _); [split; reflexivity|].
  destruct (negb (hasProduct db _)); [split; reflexivity|].
  destruct (negb (hasCategory db _)); split; reflexivity.
Qed.

Lemma insertPairs_seqs rows : forall db,
  products_id_seq (fst (insertPairs rows db)) = products_id_seq db /\
  categories_id_seq (fst (insertPairs rows db)) = categories_id_seq db.
Proof.
  induction rows as [|r rows IH]; intros db; cbn [insertPairs]; [split; reflexivity|].
  unfold bind. pose proof (insertPair_seqs r db) as Hr.
  destruct (insertPair r db) as [db1 [e|[]]]; cbn [fst] in *; [exact Hr|].
  destruct (IH db1) as [H1 H2]. destruct Hr as [H3 H4]. split; congruence.
Qed.

Lemma fresh_sequence db :
  (forall p, In p (products db) -> product_id p < products_id_seq db) ->
  hasProduct db (products_id_seq db) = false.
Proof.
  intros H. destruct (hasProduct db (products_id_seq db)) eqn:E; [|reflexivity].
  apply hasProduct_In in E. destruct E as [p [Hp He]]. specialize (H p Hp). lia.
Qed.

Lemma addProduct_invariant env now name price L db :
  invariant db -> invariant (fst (addProduct env now name price L db)).
Proof.
  intros Hinv. pose proof Hinv as [Hwf Hps Hcs Hcat].
  destruct (selectProductsByName name db) as [|p0 ps] eqn:Hname;
    [|unfold addProduct; rewrite Hname; exact Hinv].
  destruct (selectCategoryIdsIn L db) as [|v vs] eqn:Hsel;
    [unfold addProduct; rewrite Hname, Hsel; exact Hinv|].
  assert (Hex : exists c, In c L /\ hasCategory db c = true).
  { exists v. apply In_selectCategoryIdsIn. rewrite Hsel. now left. }
  pose proof (fresh_sequence db Hps) as Hfresh.
  rewrite (addProduct_past_checks env now name price L db Hfresh Hname Hex).
  destruct (insertable (withNewProduct db (newRow db name price now))
              (pairsFor (products_id_seq db) L)) eqn:Hins.
  - rewrite (insertPairs_ok _ _ Hins). cbn [fst withNewProduct productCategories].
    rewrite (insertable_new_product db name price now L Hwf Hfresh) in Hins.
    apply andb_prop in Hins. destruct Hins as [Hvalid Hnd].
    rewrite forallb_forall in Hvalid. apply nodupb_NoDup in Hnd.
    constructor.
    + now apply wf_after_add.
    + cbn [withPairs withNewProduct products products_id_seq]. intros p Hp.
      apply in_app_iff in Hp. destruct Hp as [Hp|[<-|[]]].
      * specialize (Hps p Hp). lia.
      * simpl. lia.
    + exact Hcs.
    + cbn [withPairs withNewProduct products]. intros p Hp.
      unfold associated. cbn [withPairs productCategories].
      apply in_app_iff in Hp. destruct Hp as [Hp|[<-|[]]].
      * destruct (Hcat p Hp) as [c Hc]. exists c. apply in_app_iff. now left.
      * destruct Hex as [c [Hc _]]. exists c. apply in_app_iff. right.
        apply In_pairsFor. simpl. auto.
  - pose proof (insertPairs_seqs (pairsFor (products_id_seq db) L)
                  (withNewProduct db (newRow db name price now))) as [Hs1 Hs2].
    destruct (insertPairs_fail _ _ Hins) as [db2 [e He]].
    rewrite He in *. cbn [fst] in *.
    apply invariant_rollback; [exact Hinv | |].
    + rewrite Hs1. simpl. lia.
    + rewrite Hs2. simpl. lia.
Qed.

Lemma hasProduct_selectProductsById db id :
  (List.length (selectProductsById id db) =? 0)%nat = false -> hasProduct db id = true.
Proof.
  intros H. destruct (hasProduct db id) eqn:E; [reflexivity|].
  rewrite (selectProductsById_none db id E) in H. discriminate.
Qed.

Lemma updateProduct_inv id name price u db db1 (x : Error + list Product) :
  hasProduct db id = true ->
  updateProduct id name price u db = (db1, x) ->
  (exists e, x = inl e /\ db1 = db) \/
  ((exists l, x = inr l) /\
   db1 = withProducts db
           (map (fun p => if product_id p =? id then setFields name price u p else p)
                (products db)) /\
   forall n p, name = Some n -> In p (products db) -> product_name p = n ->
               product_id p = id).
Proof.
  intros Hid. unfold updateProduct.
  destruct (match name with
            | Some n => hasProduct db id && existsb _ (products db)
            | None => false
            end) eqn:E.
  - intros H. inversion H. left. eauto.
  - intros H. inversion H. right. split; [eauto|]. split; [reflexivity|].
    intros n p -> Hp Hn. rewrite Hid in E. cbn [andb] in E.
    destruct (product_id p =? id) eqn:Ep; [now apply Z.eqb_eq|].
    assert (existsb (fun p => negb (product_id p =? id) && String.eqb (product_name p) n)
                    (products db) = true); [|congruence].
    apply existsb_exists. exists p. split; [assumption|].
    rewrite Ep. cbn [negb andb]. now apply String.eqb_eq.
Qed.

Lemma map_id_after_update id name price u (l : list Product) :
  map product_id
      (map (fun p => if product_id p =? id then setFields name price u p else p) l) =
  map product_id l.
Proof.
  rewrite map_map. apply map_ext. intros p. now destruct (product_id p =? id).
Qed.

Lemma NoDup_names_after_update id name price u (l : list Product) :
  NoDup (map product_id l) -> NoDup (map product_name l) ->
  (forall n p, name = Some n -> In p l -> product_name p = n -> product_id p = id) ->
  NoDup (map product_name
           (map (fun p => if product_id p =? id then setFields name price u p else p) l)).
Proof.
  destruct name as [n|].
  - intros Hids Hnames Hclash.
    assert (Hc : forall p, In p l -> product_name p = n -> product_id p = id)
      by (intros p Hp Hn; now apply (Hclash n p)).
    clear Hclash. induction l as [|p l IH]; [constructor|].
    cbn [map] in *. inversion Hids as [|? ? Hi Hids']; subst.
    inversion Hnames as [|? ? Hn Hnames']; subst.
    constructor.
    + intros Hin. apply in_map_iff in Hin. destruct Hin as [q' [Eq Hq']].
      apply in_map_iff in Hq'. destruct Hq' as [q [<- Hq]].
      assert (Hqid : product_id p <> product_id q).
      { intros E. apply Hi. rewrite E. now apply in_map. }
      assert (Hqn : product_name p <> product_name q).
      { intros E. apply Hn. rewrite E. now apply in_map. }
      destruct (product_id p =? id) eqn:Ep, (product_id q =? id) eqn:Eq';
        cbn [setFields product_name] in Eq;
        rewrite ?Z.eqb_eq, ?Z.eqb_neq in *.
      * congruence.
      * apply Eq'. apply Hc; [now right | assumption].
      * apply Ep. apply Hc; [now left | congruence].
      * congruence.
    + apply IH; try assumption. intros q Hq. apply Hc. now right.
  - intros _ Hnames _. rewrite map_map.
    erewrite map_ext; [exact Hnames|].
    intros p. now destruct (product_id p =? id).
Qed.

Lemma invariant_after_update id name price u db :
  invariant db ->
  (forall n p, name = Some n -> In p (products db) -> product_name p = n ->
               product_id p = id) ->
  invariant
    (withProducts db
       (map (fun p => if product_id p =? id then setFields name price u p else p)
            (products db))).
Proof.
  intros [Hwf Hps Hcs Hcat] Hclash.
  assert (Hhas : forall k,
            hasProduct (withProducts db
              (map (fun p => if product_id p =? id then setFields name price u p else p)
                   (products db))) k = hasProduct db k).
  { intros k. apply (hasProduct_after_update db id name price u (productCategories db) k). }
  constructor.
  - constructor; cbn [withProducts products categories productCategories].
    + rewrite map_id_after_update. apply (wf_product_pk db Hwf).
    + apply (wf_category_pk db Hwf).
    + apply (wf_pair_pk db Hwf).
    + apply NoDup_names_after_update;
        [apply (wf_product_pk db Hwf) | apply (wf_product_name db Hwf) | exact Hclash].
    + apply (wf_category_name db Hwf).
    + intros r Hr. rewrite Hhas. apply (wf_fk_product db Hwf r Hr).
    + apply (wf_fk_category db Hwf).
  - cbn [withProducts products products_id_seq]. intros p Hp.
    apply in_map_iff in Hp. destruct Hp as [q [<- Hq]].
    specialize (Hps q Hq). now destruct (product_id q =? id).
  - exact Hcs.
  - cbn [withProducts products]. intros p Hp.
    apply in_map_iff in Hp. destruct Hp as [q [<- Hq]].
    destruct (Hcat q Hq) as [c Hc]. exists c.
    now destruct (product_id q =? id).
Qed.

Lemma invariant_after_replace db id valid :
  invariant db -> hasProduct db id = true -> valid <> [] -> NoDup valid ->
  (forall c, In c valid -> hasCategory db c = true) ->
  invariant
    (withPairs db
       (filter (fun r => negb (productId r =? id)) (productCategories db) ++
        pairsFor id valid)).
Proof.
  intros [Hwf Hps Hcs Hcat] Hid Hne Hnd Hvalid. constructor.
  - constructor; cbn [withPairs products categories productCategories];
      try (apply Hwf).
    + apply NoDup_app.
      * apply NoDup_filter. apply (wf_pair_pk db Hwf).
      * now apply NoDup_NoDup_pairsFor.
      * intros r Hr Hn. apply filter_In in Hr. destruct Hr as [_ Hr].
        apply In_pairsFor in Hn. destruct Hn as [E _].
        apply negb_true_iff, Z.eqb_neq in Hr. contradiction.
    + intros r Hr. change (hasProduct (withPairs db ?l) ?k) with (hasProduct db k).
      apply in_app_iff in Hr. destruct Hr as [Hr|Hr].
      * apply filter_In in Hr. apply (wf_fk_product db Hwf). tauto.
      * apply In_pairsFor in Hr. destruct Hr as [-> _]. exact Hid.
    + intros r Hr. change (hasCategory (withPairs db ?l) ?k) with (hasCategory db k).
      apply in_app_iff in Hr. destruct Hr as [Hr|Hr].
      * apply filter_In in Hr. apply (wf_fk_category db Hwf). tauto.
      * apply In_pairsFor in Hr. destruct Hr as [_ Hr]. now apply Hvalid.
  - exact Hps.
  - exact Hcs.
  - cbn [withPairs products]. intros p Hp. unfold associated.
    cbn [withPairs productCategories].
    destruct (product_id p =? id) eqn:E.
    + apply Z.eqb_eq in E. destruct valid as [|c0 vs]; [congruence|].
      exists c0. apply in_app_iff. right. apply In_pairsFor. simpl. auto.
    + destruct (Hcat p Hp) as [c Hc]. exists c. apply in_app_iff. left.
      apply filter_In. split; [exact Hc|]. simpl. now rewrite E.
Qed.

Lemma invariant_same_store db : invariant db -> invariant (rollback db db).
Proof. intros H. apply invariant_rollback; [exact H | lia | lia]. Qed.

Lemma editProduct_invariant now id name price cats db :
  invariant db -> invariant (fst (editProduct now id name price cats db)).
Proof.
  intros Hinv. unfold editProduct.
  destruct (List.length (selectProductsById id db) =? 0)%nat eqn:El; [exact Hinv|].
  apply hasProduct_selectProductsById in El.
  unfold transaction, bind. fold (givenName name). fold (givenPrice price).
  destruct (updateProduct id (givenName name) (givenPrice price) now db)
    as [db1 x] eqn:EU.
  destruct (updateProduct_inv _ _ _ _ _ _ _ El EU)
    as [[e [-> ->]]|[[updated ->] [-> Hclash]]].
  - cbn [fst]. now apply invariant_same_store.
  - pose proof (invariant_after_update id (givenName name) (givenPrice price) now db
                  Hinv Hclash) as Hinv1.
    set (db1 := withProducts db _) in *.
    assert (Hid1 : hasProduct db1 id = true).
    { unfold db1.
      rewrite <- El.
      apply (hasProduct_after_update db id (givenName name) (givenPrice price) now
               (productCategories db) id). }
    destruct (filterGiven cats) eqn:EF.
    + unfold deletePairsOfProduct.
      change (selectCategoryIdsIn (match cats with Some l => l | None => [] end) db1)
        with (selectCategoryIdsIn (match cats with Some l => l | None => [] end) db).
      set (L := match cats with Some l => l | None => [] end).
      match goal with
      | |- context [insertProductCategories ?rows ?d] =>
          change d with
            (withPairs db1 (filter (fun r => negb (productId r =? id))
                                   (productCategories db1)))
      end.
      set (db2 := withPairs db1 _).
      destruct (selectCategoryIdsIn L db) as [|v vs] eqn:Esel.
      * cbn [pairsFor map insertProductCategories]. unfold throw. cbn [fst].
        apply invariant_rollback; [exact Hinv | simpl; lia | simpl; lia].
      * assert (Hvalid : forall c, In c (v :: vs) -> hasCategory db c = true).
        { intros c Hc. rewrite <- Esel in Hc. now apply In_selectCategoryIdsIn in Hc. }
        assert (Hnd : NoDup (v :: vs)).
        { rewrite <- Esel. unfold selectCategoryIdsIn. apply NoDup_map_filter.
          apply (wf_category_pk db (inv_wf db Hinv)). }
        assert (Hrows : insertProductCategories (pairsFor id (v :: vs)) db2 =
                        insertPairs (pairsFor id (v :: vs)) db2) by reflexivity.
        rewrite Hrows.
        assert (Hok : insertable db2 (pairsFor id (v :: vs)) = true).
        { rewrite insertable_pairsFor. apply andb_true_intro. split.
          - apply forallb_forall. intros c Hc. unfold db2.
            rewrite hasPair_after_delete.
            change (hasProduct (withPairs db1 ?l) id) with (hasProduct db1 id).
            rewrite Hid1.
            change (hasCategory (withPairs db1 ?l) c) with (hasCategory db c).
            now rewrite (Hvalid c Hc).
          - now apply nodupb_complete. }
        rewrite (insertPairs_ok _ _ Hok). unfold ret. cbn [fst].
        unfold db2. rewrite withPairs_withPairs. cbn [withPairs productCategories].
        apply invariant_after_replace; try assumption. discriminate.
    + unfold ret. cbn [fst]. exact Hinv1.
Qed.

Lemma deleteProduct_invariant id db :
  invariant db -> invariant (fst (deleteProduct id db)).
Proof.
  intros Hinv. pose proof Hinv as [Hwf Hps Hcs Hcat]. unfold deleteProduct.
  destruct (List.length (selectProductsById id db) =? 0)%nat eqn:El; [exact Hinv|].
  apply hasProduct_selectProductsById in El.
  unfold deleteProductRow. rewrite El. cbn [fst].
  constructor.
  - constructor; cbn [products categories productCategories].
    + apply NoDup_map_filter. apply (wf_product_pk db Hwf).
    + apply (wf_category_pk db Hwf).
    + apply NoDup_filter. apply (wf_pair_pk db Hwf).
    + apply NoDup_map_filter. apply (wf_product_name db Hwf).
    + apply (wf_category_name db Hwf).
    + intros r Hr. apply filter_In in Hr. destruct Hr as [Hr Hne].
      pose proof (wf_fk_product db Hwf r Hr) as H.
      apply hasProduct_In in H. destruct H as [p [Hp Ep]].
      apply hasProduct_In. exists p. split; [|exact Ep].
      cbn [products]. apply filter_In. split; [exact Hp|]. now rewrite Ep.
    + intros r Hr. apply filter_In in Hr. destruct Hr as [Hr _].
      apply (wf_fk_category db Hwf r Hr).
  - cbn [products products_id_seq]. intros p Hp. apply filter_In in Hp.
    apply Hps. tauto.
  - exact Hcs.
  - cbn [products]. intros p Hp. apply filter_In in Hp. destruct Hp as [Hp Hne].
    destruct (Hcat p Hp) as [c Hc]. exists c. unfold associated.
    cbn [productCategories]. apply filter_In. split; [exact Hc|]. exact Hne.
Qed.

Lemma addCategory_invariant now name db :
  invariant db -> invariant (fst (CategoryController.addCategory now name db)).
Proof.
  intros Hinv. pose proof Hinv as [Hwf Hps Hcs Hcat].
  unfold CategoryController.addCategory.
  destruct name as [n|]; [|exact Hinv].
  destruct (JS.is_empty n); [exact Hinv|].
  destruct (Formatter.reformatCategoryNameInput (Some n)) as [f|]; [|exact Hinv].
  destruct (filter (fun c => String.eqb (category_name c) f) (categories db))
    as [|c0 cs] eqn:Ef; [|exact Hinv].
  cbn [List.length Nat.ltb Nat.leb]. unfold insertCategory.
  assert (Hfresh : hasCategory db (categories_id_seq db) = false).
  { destruct (hasCategory db (categories_id_seq db)) eqn:E; [|reflexivity].
    apply hasCategory_In in E. destruct E as [c [Hc He]]. specialize (Hcs c Hc). lia. }
  assert (Hnew : forall c, In c (categories db) -> category_name c <> f).
  { intros c Hc E.
    assert (In c (filter (fun c => String.eqb (category_name c) f) (categories db))).
    { apply filter_In. split; [exact Hc | now apply String.eqb_eq]. }
    rewrite Ef in H. contradiction. }
  assert (Hex : existsb (fun c => String.eqb (category_name c) f) (categories db) = false).
  { destruct (existsb _ (categories db)) eqn:E; [|reflexivity].
    apply existsb_exists in E. destruct E as [c [Hc He]].
    apply String.eqb_eq in He. now apply Hnew in Hc. }
  rewrite Hfresh, Hex. cbn [fst].
  constructor.
  - constructor; cbn [products categories productCategories].
    + apply (wf_product_pk db Hwf).
    + rewrite map_app. apply NoDup_app;
        [apply (wf_category_pk db Hwf) | repeat constructor; simpl; tauto|].
      intros a Ha [<-|[]]. simpl in Ha. apply in_map_iff in Ha.
      destruct Ha as [c [Ec Hc]]. specialize (Hcs c Hc). lia.
    + apply (wf_pair_pk db Hwf).
    + apply (wf_product_name db Hwf).
    + rewrite map_app. apply NoDup_app;
        [apply (wf_category_name db Hwf) | repeat constructor; simpl; tauto|].
      intros a Ha [<-|[]]. simpl in Ha. apply in_map_iff in Ha.
      destruct Ha as [c [Ec Hc]]. now apply Hnew in Hc.
    + apply (wf_fk_product db Hwf).
    + intros r Hr. unfold hasCategory. cbn [categories]. rewrite existsb_app.
      pose proof (wf_fk_category db Hwf r Hr) as H. unfold hasCategory in H.
      now rewrite H.
  - exact Hps.
  - cbn [categories categories_id_seq]. intros c Hc.
    apply in_app_iff in Hc. destruct Hc as [Hc|[<-|[]]].
    + specialize (Hcs c Hc). lia.
    + simpl. lia.
  - exact Hcat.
Qed.

Lemma invariant_migrated : invariant migrated.
Proof.
  constructor; [constructor|..]; simpl; try constructor; intros; contradiction.
Qed.

(** Every store the API can reach satisfies the schema, has its
    sequences ahead of its ids, and gives each product a category. *)
Lemma reachable_invariant db : reachable db -> invariant db.
Proof.
  induction 1 as [|db req Hr IH].
  - apply invariant_migrated.
  - destruct req; cbn [step].
    + exact IH.
    + now apply addProduct_invariant.
    + now apply editProduct_invariant.
    + now apply deleteProduct_invariant.
    + exact IH.
    + now apply addCategory_invariant.
Qed.

(* ================================================================== *)
(** ** The unfiltered listing *)
(* ================================================================== *)

(** C2 (amended): without a category filter (absent or empty list),
    [getProducts] lists exactly the products that have at least one
    association row and pass the name restriction; a product without any
    category is not listed.  On the stores the API reaches from the
    migrated one every product has a category, and there every product
    that passes the name restriction is listed.  The name restriction is
    void for an absent or empty search text, and for a text free of the
    pattern characters it holds exactly when the text occurs in the
    product name, letter case aside. *)
Theorem getProducts_unfiltered_lists_categorised :
  (forall (db : Db) (cats : option (list Z)) (name : option string) (pid : Z),
     wf db -> cats = None \/ cats = Some [] ->
     (In pid (listedIds (getProducts cats name db)) <->
      exists p, In p (products db) /\ product_id p = pid /\
                (exists c, associated db pid c) /\
                nameFilter name (product_name p) = true)) /\
  (forall (db : Db) (cats : option (list Z)) (name : option string) (p : Product),
     reachable db -> cats = None \/ cats = Some [] ->
     In p (products db) -> nameFilter name (product_name p) = true ->
     In (product_id p) (listedIds (getProducts cats name db))) /\
  (forall n : string,
     nameFilter None n = true /\ nameFilter (Some EmptyString) n = true) /\
  (forall s n : string,
     s <> EmptyString -> Pg.plain s = true ->
     (nameFilter (Some s) n = true <->
      exists pre post, JS.toLowerCase n = pre ++ JS.toLowerCase s ++ post)).
Proof.
  split; [|split; [|split]].
  - intros db cats name pid. apply In_listedIds_unfiltered.
  - intros db cats name p Hr Hcats Hp Hn.
    apply reachable_invariant in Hr. destruct Hr as [Hwf _ _ Hcat].
    apply (In_listedIds_unfiltered db cats name (product_id p) Hwf Hcats).
    exists p. auto.
  - intros n. split; reflexivity.
  - intros s n Hne Hplain. unfold nameFilter.
    destruct s as [|c s]; [congruence|]. cbn [JS.is_empty].
    now apply ilike_contains.
Qed.

Lemma getProducts_unfiltered_lists_categorised_witness :
  wf Sample.catalogue /\
  In 2 (listedIds (getProducts (Some []) (Some "PRI") Sample.catalogue)) /\
  ~ In 1 (listedIds (getProducts (Some []) (Some "PRI") Sample.catalogue)) /\
  nameFilter (Some "PRI") "apricot" = true /\
  reachable (step (AddCategory 1 (Some "Home Decor")) migrated) /\
  reachable (step (AddProduct None 2 "lamp" 30 [1])
               (step (AddCategory 1 (Some "Home Decor")) migrated)) /\
  listedIds (getProducts None None
               (step (AddProduct None 2 "lamp" 30 [1])
                  (step (AddCategory 1 (Some "Home Decor")) migrated))) = [1].
Proof.
  assert (Hwf : wf Sample.catalogue) by (apply check_sound; reflexivity).
  destruct getProducts_unfiltered_lists_categorised as (Hlist & Hreach & _ & Hsub).
  split; [exact Hwf|]. split; [|split; [|split; [|split; [|split]]]].
  - apply (Hlist Sample.catalogue (Some []) (Some "PRI") 2 Hwf (or_intror eq_refl)).
    exists (Sample.product 2 "apricot" 6 20). simpl. repeat split; auto.
    exists 5. unfold associated. simpl. auto.
  - intros H.
    apply (Hlist Sample.catalogue (Some []) (Some "PRI") 1 Hwf (or_intror eq_refl)) in H.
    destruct H as [p (Hp & He & _ & Hn)]. simpl in Hp.
    destruct Hp as [<-|[<-|[<-|[<-|[]]]]]; simpl in He; try discriminate He.
    vm_compute in Hn. discriminate Hn.
  - apply (Hsub "PRI" "apricot"); [discriminate | reflexivity |].
    exists "a", "cot". reflexivity.
  - apply reach_step, reach_migrated.
  - apply reach_step, reach_step, reach_migrated.
  - reflexivity.
Defined.

(** C2 as stated fails: the unfiltered listing does not return every
    product of the store; product 21 of the sample has no category and is
    left out. *)
Lemma getProducts_unfiltered_omits_uncategorised :
  ~ (forall (db : Db) (p : Product),
       wf db -> In p (products db) ->
       In (product_id p) (listedIds (getProducts None None db))).
Proof.
  intros H.
  specialize (H Sample.catalogue (Sample.product 21 "lonely" 1 40)).
  assert (Hwf : wf Sample.catalogue) by (apply check_sound; reflexivity).
  specialize (H Hwf). simpl in H. specialize (H (or_intror (or_intror (or_intror (or_introl eq_refl))))).
  vm_compute in H. intuition discriminate.
Qed.

(* ================================================================== *)
(** ** The two formatters on every input *)
(* ================================================================== *)

Lemma join_cons_char sep c t ts :
  JS.join sep (String c t :: ts) = String c (JS.join sep (t :: ts)).
Proof. destruct ts; reflexivity. Qed.

Lemma split_nonempty a s : JS.split a s <> [].
Proof.
  destruct s as [|c s]; simpl; [discriminate|].
  destruct (Ascii.eqb c a); [discriminate|]. destruct (JS.split a s); discriminate.
Qed.

Lemma join_split_replace a b s :
  JS.join (String b EmptyString) (JS.split a s) = replaceChar a b s.
Proof.
  induction s as [|c s IH]; [reflexivity|]. simpl.
  destruct (Ascii.eqb c a).
  - destruct (JS.split a s) as [|t ts] eqn:E; [now apply split_nonempty in E|].
    rewrite <- IH. reflexivity.
  - destruct (JS.split a s) as [|t ts] eqn:E; [now apply split_nonempty in E|].
    rewrite join_cons_char, IH. reflexivity.
Qed.

Lemma split_two_pieces a s :
  (2 <=? List.length (JS.split a s))%nat = has_char a s.
Proof.
  induction s as [|c s IH]; [reflexivity|]. simpl.
  destruct (Ascii.eqb c a); simpl.
  - destruct (JS.split a s) as [|t ts] eqn:E; [now apply split_nonempty in E | reflexivity].
  - destruct (JS.split a s) as [|t ts] eqn:E; [now apply split_nonempty in E|].
    exact IH.
Qed.

Lemma reformatCategoryNameInput_shape name :
  Formatter.reformatCategoryNameInput name =
  reformatWith Formatter.space Formatter.underscore name.
Proof.
  unfold Formatter.reformatCategoryNameInput, reformatWith.
  destruct name as [n|]; [|reflexivity]. destruct (JS.is_empty n); [reflexivity|].
  cbv zeta. rewrite split_two_pieces.
  change "_" with (String Formatter.underscore EmptyString).
  now rewrite join_split_replace.
Qed.

Lemma reformatCategoryNameResponse_shape name :
  Formatter.reformatCategoryNameResponse name =
  reformatWith Formatter.underscore Formatter.space name.
Proof.
  unfold Formatter.reformatCategoryNameResponse, reformatWith.
  destruct name as [n|]; [|reflexivity]. destruct (JS.is_empty n); [reflexivity|].
  cbv zeta. rewrite split_two_pieces.
  change " " with (String Formatter.space EmptyString).
  now rewrite join_split_replace.
Qed.

Lemma In_trimStart c s :
  In c (list_ascii_of_string (JS.trimStart s)) -> In c (list_ascii_of_string s).
Proof.
  induction s as [|d s IH]; simpl; [tauto|].
  destruct (JS.is_ws d); simpl; auto.
Qed.

Lemma In_trimEnd c s :
  In c (list_ascii_of_string (JS.trimEnd s)) -> In c (list_ascii_of_string s).
Proof.
  induction s as [|d s IH]; simpl; [tauto|].
  destruct (JS.is_ws d && JS.is_empty (JS.trimEnd s)); simpl; [tauto|].
  intros [H|H]; auto.
Qed.

Lemma In_trim c s :
  In c (list_ascii_of_string (JS.trim s)) -> In c (list_ascii_of_string s).
Proof. intros H. now apply In_trimStart, In_trimEnd. Qed.

Lemma trimStart_keeps c s :
  JS.is_ws c = false -> In c (list_ascii_of_string s) ->
  In c (list_ascii_of_string (JS.trimStart s)).
Proof.
  intros Hc. induction s as [|d s IH]; simpl; [tauto|].
  destruct (JS.is_ws d) eqn:Ed; simpl; [|tauto].
  intros [->|H]; [congruence | auto].
Qed.

Lemma trimEnd_keeps c s :
  JS.is_ws c = false -> In c (list_ascii_of_string s) ->
  In c (list_ascii_of_string (JS.trimEnd s)).
Proof.
  intros Hc. induction s as [|d s IH]; simpl; [tauto|].
  intros [->|H].
  - rewrite Hc. simpl. now left.
  - specialize (IH H). destruct (JS.trimEnd s) as [|e r] eqn:E; [contradiction|].
    rewrite andb_false_r. simpl. right. exact IH.
Qed.

Lemma In_replaceChar a b c s :
  In c (list_ascii_of_string (replaceChar a b s)) ->
  c = b \/ (c <> a /\ In c (list_ascii_of_string s)).
Proof.
  induction s as [|d s IH]; simpl; [tauto|].
  intros [H|H].
  - destruct (Ascii.eqb d a) eqn:E; [now left|].
    right. subst c. split; [|now left]. now apply Ascii.eqb_neq.
  - destruct (IH H) as [->|[H1 H2]]; [now left | right; auto].
Qed.

Lemma replaceChar_has a b s :
  has_char a s = true -> In b (list_ascii_of_string (replaceChar a b s)).
Proof.
  induction s as [|d s IH]; simpl; [discriminate|].
  destruct (Ascii.eqb d a); simpl; [now left | right; auto].
Qed.

Lemma has_char_In a s : has_char a s = true <-> In a (list_ascii_of_string s).
Proof.
  induction s as [|d s IH]; simpl; [split; [discriminate | tauto]|].
  rewrite orb_true_iff, IH, Ascii.eqb_eq. tauto.
Qed.

Lemma In_toLowerCase c s :
  In c (list_ascii_of_string (JS.toLowerCase s)) ->
  exists d, In d (list_ascii_of_string s) /\ c = JS.lower_char d.
Proof.
  induction s as [|e s IH]; simpl; [tauto|].
  intros [<-|H]; [eauto|]. destruct (IH H) as [d [Hd ->]]. eauto.
Qed.

Lemma lower_char_idem c : JS.lower_char (JS.lower_char c) = JS.lower_char c.
Proof. destruct c as [[] [] [] [] [] [] [] []]; reflexivity. Qed.

Lemma toLowerCase_fixed s :
  (forall c, In c (list_ascii_of_string s) -> JS.lower_char c = c) ->
  JS.toLowerCase s = s.
Proof.
  induction s as [|c s IH]; simpl; intros H; [reflexivity|].
  rewrite (H c (or_introl eq_refl)), IH; [reflexivity|]. intros d Hd. apply H. now right.
Qed.

(** What holds of every result of the common shape. *)
Lemma reformatWith_result a b name r :
  a <> b -> JS.lower_char b = b ->
  reformatWith a b name = Some r ->
  ~ In a (list_ascii_of_string r) /\ JS.toLowerCase r = r /\
  (JS.is_ws b = false -> r <> EmptyString).
Proof.
  intros Hab Hb. unfold reformatWith. destruct name as [n|]; [|discriminate].
  destruct (JS.is_empty n) eqn:En; [discriminate|]. cbv zeta.
  destruct (has_char a (JS.toLowerCase n)) eqn:Eh; intros H; inversion H; subst r; clear H.
  - split; [|split].
    + intros Hin. apply In_trim, In_replaceChar in Hin.
      destruct Hin as [E|[E _]]; congruence.
    + apply toLowerCase_fixed. intros c Hc. apply In_trim, In_replaceChar in Hc.
      destruct Hc as [->|[_ Hc]]; [exact Hb|].
      apply In_toLowerCase in Hc. destruct Hc as [d [_ ->]]. apply lower_char_idem.
    + intros Hws E.
      pose proof (replaceChar_has a b _ Eh) as Hin.
      apply (trimStart_keeps b _ Hws), (trimEnd_keeps b _ Hws) in Hin.
      fold (JS.trim (replaceChar a b (JS.toLowerCase n))) in Hin.
      rewrite E in Hin. contradiction.
  - split; [|split].
    + intros Hin. apply has_char_In in Hin. congruence.
    + apply toLowerCase_fixed. intros c Hc.
      apply In_toLowerCase in Hc. destruct Hc as [d [_ ->]]. apply lower_char_idem.
    + intros _ E. destruct n; [discriminate|]. discriminate E.
Qed.

(** X1: for every input, a result of [reformatCategoryNameInput] is not
    empty, holds no space character and is in lower case; the result is
    null exactly for null and for the empty string. *)
Theorem reformatCategoryNameInput_result :
  forall (name : option string),
    (Formatter.reformatCategoryNameInput name = None <-> JS.truthy name = false) /\
    (forall r, Formatter.reformatCategoryNameInput name = Some r ->
       r <> EmptyString /\
       ~ In Formatter.space (list_ascii_of_string r) /\
       JS.toLowerCase r = r).
Proof.
  intros name. split.
  - unfold Formatter.reformatCategoryNameInput, JS.truthy.
    destruct name as [n|]; [|tauto]. destruct (JS.is_empty n); cbv zeta; [tauto|].
    destruct (2 <=? _)%nat; split; discriminate.
  - intros r H. rewrite reformatCategoryNameInput_shape in H.
    destruct (reformatWith_result Formatter.space Formatter.underscore name r)
      as (H1 & H2 & H3); [discriminate | reflexivity | exact H |].
    split; [now apply H3 | split; assumption].
Qed.

(** X2: [reformatCategoryNameInput] is idempotent: a name in storage form
    is its own storage form. *)
Theorem reformatCategoryNameInput_idempotent :
  forall (name : option string),
    Formatter.reformatCategoryNameInput (Formatter.reformatCategoryNameInput name) =
    Formatter.reformatCategoryNameInput name.
Proof.
  intros name.
  destruct (Formatter.reformatCategoryNameInput name) as [r|] eqn:E; [|reflexivity].
  rewrite reformatCategoryNameInput_shape in E.
  destruct (reformatWith_result Formatter.space Formatter.underscore name r)
    as (H1 & H2 & H3); [discriminate | reflexivity | exact E |].
  rewrite reformatCategoryNameInput_shape. unfold reformatWith.
  destruct r as [|c r]; [now specialize (H3 eq_refl) |]. cbn [JS.is_empty]. cbv zeta.
  rewrite H2.
  destruct (has_char Formatter.space (String c r)) eqn:Eh; [|reflexivity].
  apply has_char_In in Eh. contradiction.
Qed.

(** X3: for every input, a result of [reformatCategoryNameResponse] holds
    no underscore and is in lower case; it is null exactly for null and
    for the empty string, and it is the empty string for a name made of
    underscores only. *)
Theorem reformatCategoryNameResponse_result :
  forall (name : option string),
    (Formatter.reformatCategoryNameResponse name = None <-> JS.truthy name = false) /\
    (forall r, Formatter.reformatCategoryNameResponse name = Some r ->
       ~ In Formatter.underscore (list_ascii_of_string r) /\
       JS.toLowerCase r = r) /\
    (forall n, name = Some (String Formatter.underscore n) ->
       (forall c, In c (list_ascii_of_string n) -> c = Formatter.underscore) ->
       Formatter.reformatCategoryNameResponse name = Some EmptyString).
Proof.
  intros name. split; [|split].
  - unfold Formatter.reformatCategoryNameResponse, JS.truthy.
    destruct name as [n|]; [|tauto]. destruct (JS.is_empty n); cbv zeta; [tauto|].
    destruct (2 <=? _)%nat; split; discriminate.
  - intros r H. rewrite reformatCategoryNameResponse_shape in H.
    destruct (reformatWith_result Formatter.underscore Formatter.space name r)
      as (H1 & H2 & _); [discriminate | reflexivity | exact H |]. auto.
  - intros n -> Hn. rewrite reformatCategoryNameResponse_shape. unfold reformatWith.
    cbn [JS.is_empty JS.toLowerCase has_char]. cbv zeta.
    change (Ascii.eqb (JS.lower_char Formatter.underscore) Formatter.underscore) with true.
    cbn [orb]. f_equal.
    assert (Hall : forall s, (forall c, In c (list_ascii_of_string s) -> c = Formatter.underscore) ->
              JS.trimStart (replaceChar Formatter.underscore Formatter.space (JS.toLowerCase s))
              = EmptyString).
    { clear. induction s as [|c s IH]; intros H; [reflexivity|]. simpl.
      rewrite (H c (or_introl eq_refl)). cbn. apply IH. intros d Hd. apply H. now right. }
    unfold JS.trim.
    change (replaceChar Formatter.underscore Formatter.space
              (String (JS.lower_char Formatter.underscore) (JS.toLowerCase n)))
      with (String Formatter.space
              (replaceChar Formatter.underscore Formatter.space (JS.toLowerCase n))).
    cbn [JS.trimStart]. change (JS.is_ws Formatter.space) with true. cbv iota.
    now rewrite (Hall n Hn).
Qed.

Lemma reformatCategoryNameResponse_result_witness :
  Formatter.reformatCategoryNameResponse (Some "___") = Some EmptyString.
Proof.
  destruct (reformatCategoryNameResponse_result (Some "___")) as (_ & _ & H).
  apply (H "__" eq_refl). simpl. intros c [<-|[<-|[]]]; reflexivity.
Defined.

Lemma toLowerCase_join sep ts :
  JS.toLowerCase (JS.join sep ts) = JS.join (JS.toLowerCase sep) (map JS.toLowerCase ts).
Proof.
  induction ts as [|t ts IH]; [reflexivity|].
  destruct ts as [|t2 ts]; [reflexivity|].
  change (JS.join sep (t :: t2 :: ts)) with (t ++ sep ++ JS.join sep (t2 :: ts)).
  rewrite toLowerCase_app, toLowerCase_app, IH. reflexivity.
Qed.

Lemma split_without a t : has_char a t = false -> JS.split a t = [t].
Proof.
  induction t as [|c t IH]; simpl; intros H; [reflexivity|].
  apply orb_false_elim in H. destruct H as [Hc Ht]. rewrite Hc, (IH Ht). reflexivity.
Qed.

Lemma split_piece a t rest :
  has_char a t = false ->
  JS.split a (t ++ String a rest) = t :: JS.split a rest.
Proof.
  induction t as [|c t IH]; simpl; intros H.
  - now rewrite Ascii.eqb_refl.
  - apply orb_false_elim in H. destruct H as [Hc Ht]. rewrite Hc, (IH Ht). reflexivity.
Qed.

Lemma split_join a ts :
  ts <> [] -> (forall t, In t ts -> has_char a t = false) ->
  JS.split a (JS.join (String a EmptyString) ts) = ts.
Proof.
  induction ts as [|t ts IH]; intros Hne H; [congruence|].
  destruct ts as [|t2 ts]; [apply split_without, H; now left|].
  change (JS.join (String a EmptyString) (t :: t2 :: ts))
    with (t ++ String a (JS.join (String a EmptyString) (t2 :: ts))).
  rewrite split_piece by (apply H; now left).
  rewrite IH; [reflexivity | discriminate | intros u Hu; apply H; now right].
Qed.

Lemma trimEnd_join sep ts :
  ts <> [] -> Forall solid ts ->
  JS.join sep ts <> EmptyString /\ JS.trimEnd (JS.join sep ts) = JS.join sep ts.
Proof.
  induction ts as [|t ts IH]; intros Hne Hall; [congruence|].
  inversion Hall as [|? ? [Htne Ht] Hts]; subst.
  destruct ts as [|t2 ts].
  - simpl. split; [assumption | now apply trimEnd_token].
  - change (JS.join sep (t :: t2 :: ts)) with (t ++ sep ++ JS.join sep (t2 :: ts)).
    destruct IH as [IH1 IH2]; [discriminate | assumption |].
    split.
    + destruct t; [congruence | discriminate].
    + apply trimEnd_app.
      * destruct sep; [exact IH1 | discriminate].
      * now apply trimEnd_app.
Qed.

Lemma trimStart_join sep ts :
  ts <> [] -> Forall solid ts -> JS.trimStart (JS.join sep ts) = JS.join sep ts.
Proof.
  intros Hne Hall. destruct ts as [|t ts]; [congruence|].
  inversion Hall as [|? ? [Htne Ht] Hts]; subst.
  destruct t as [|c t]; [congruence|].
  apply token_tail in Ht. destruct Ht as [Hc _].
  destruct ts as [|t2 ts]; simpl; now rewrite Hc.
Qed.

Lemma reformatWith_words a b ts :
  JS.lower_char a = a -> (forall c, JS.lower_char c = a -> c = a) ->
  ts <> [] -> Forall solid ts ->
  (forall t c, In t ts -> In c (list_ascii_of_string t) -> c <> a) ->
  reformatWith a b (Some (JS.join (String a EmptyString) ts)) =
  Some (JS.join (String b EmptyString) (map JS.toLowerCase ts)).
Proof.
  intros Ha Hinj Hne Hall Hfree. unfold reformatWith.
  assert (Hin : JS.is_empty (JS.join (String a EmptyString) ts) = false).
  { destruct ts as [|t ts]; [congruence|].
    inversion Hall as [|? ? [Htne _] _]; subst.
    destruct t; [congruence|]. destruct ts; reflexivity. }
  rewrite Hin. cbv zeta. rewrite toLowerCase_join. cbn [JS.toLowerCase]. rewrite Ha.
  set (ts' := map JS.toLowerCase ts).
  assert (Hne' : ts' <> []) by (unfold ts'; destruct ts; [congruence | discriminate]).
  assert (Hall' : Forall solid ts').
  { apply Forall_forall. intros t Ht. apply in_map_iff in Ht.
    destruct Ht as [t0 [<- Ht0]]. rewrite Forall_forall in Hall.
    destruct (Hall t0 Ht0) as [H1 H2]. split.
    - destruct t0; [congruence | discriminate].
    - intros c Hc. apply In_toLowerCase in Hc. destruct Hc as [d [Hd ->]].
      rewrite is_ws_lower_char. now apply H2. }
  assert (Hfree' : forall t, In t ts' -> has_char a t = false).
  { intros t Ht. apply in_map_iff in Ht. destruct Ht as [t0 [<- Ht0]].
    destruct (has_char a (JS.toLowerCase t0)) eqn:E; [|reflexivity].
    apply has_char_In, In_toLowerCase in E. destruct E as [d [Hd E]].
    symmetry in E. apply Hinj in E. subst d. now apply (Hfree t0 a Ht0) in Hd. }
  rewrite <- split_two_pieces, <- join_split_replace.
  rewrite (split_join a ts' Hne' Hfree').
  destruct ts' as [|t [|t2 l]] eqn:E; [congruence | reflexivity |].
  change (2 <=? List.length (t :: t2 :: l))%nat with true. cbv iota.
  unfold JS.trim. rewrite (trimStart_join _ _ Hne' Hall').
  destruct (trimEnd_join (String b EmptyString) _ Hne' Hall') as [_ H]. now rewrite H.
Qed.

Lemma lower_char_space c : JS.lower_char c = Formatter.space -> c = Formatter.space.
Proof. destruct c as [[] [] [] [] [] [] [] []]; intros H; try reflexivity; discriminate H. Qed.

Lemma lower_char_underscore c :
  JS.lower_char c = Formatter.underscore -> c = Formatter.underscore.
Proof. destruct c as [[] [] [] [] [] [] [] []]; intros H; try reflexivity; discriminate H. Qed.

Lemma word_solid ts : Forall word ts -> Forall solid ts.
Proof.
  intros H. apply Forall_forall. intros t Ht. rewrite Forall_forall in H.
  destruct (H t Ht) as [H1 H2]. split; [exact H1|]. intros c Hc. now apply H2.
Qed.

Lemma word_toLowerCase ts : Forall word ts -> Forall word (map JS.toLowerCase ts).
Proof.
  intros H. apply Forall_forall. intros t Ht. apply in_map_iff in Ht.
  destruct Ht as [t0 [<- Ht0]]. rewrite Forall_forall in H.
  destruct (H t0 Ht0) as [H1 H2]. split.
  - destruct t0; [congruence | discriminate].
  - intros c Hc. apply In_toLowerCase in Hc. destruct Hc as [d [Hd ->]].
    destruct (H2 d Hd) as [Hw Hu]. rewrite is_ws_lower_char. split; [exact Hw|].
    intros E. apply lower_char_underscore in E. contradiction.
Qed.

Lemma map_toLowerCase_idem ts :
  map JS.toLowerCase (map JS.toLowerCase ts) = map JS.toLowerCase ts.
Proof.
  rewrite map_map. apply map_ext. intros t. apply toLowerCase_fixed.
  intros c Hc. apply In_toLowerCase in Hc. destruct Hc as [d [_ ->]]. apply lower_char_idem.
Qed.

Lemma storage_of_words ts :
  ts <> [] -> Forall word ts ->
  Formatter.reformatCategoryNameInput (Some (JS.join " " ts)) =
  Some (JS.join "_" (map JS.toLowerCase ts)).
Proof.
  intros Hne Hall. rewrite reformatCategoryNameInput_shape.
  apply (reformatWith_words Formatter.space Formatter.underscore ts);
    [reflexivity | apply lower_char_space | exact Hne | now apply word_solid |].
  intros t c Ht Hc ->. rewrite Forall_forall in Hall.
  destruct (Hall t Ht) as [_ H]. destruct (H _ Hc) as [Hw _]. discriminate Hw.
Qed.

Lemma display_of_words ts :
  ts <> [] -> Forall word ts ->
  Formatter.reformatCategoryNameResponse (Some (JS.join "_" ts)) =
  Some (JS.join " " (map JS.toLowerCase ts)).
Proof.
  intros Hne Hall. rewrite reformatCategoryNameResponse_shape.
  apply (reformatWith_words Formatter.underscore Formatter.space ts);
    [reflexivity | apply lower_char_underscore | exact Hne | now apply word_solid |].
  intros t c Ht Hc. rewrite Forall_forall in Hall.
  destruct (Hall t Ht) as [_ H]. now destruct (H _ Hc).
Qed.

(** X4: on names made of words (no white space, no underscore inside)
    the two formatters undo each other up to letter case: the display form
    of the storage form of words joined by single spaces is the lower-cased
    words joined by single spaces, and the storage form of the display form
    of words joined by single underscores is the lower-cased words joined
    by single underscores. *)
Theorem formatter_round_trip_on_words :
  forall ts : list string,
    ts <> [] -> Forall word ts ->
    Formatter.reformatCategoryNameResponse
      (Formatter.reformatCategoryNameInput (Some (JS.join " " ts))) =
      Some (JS.join " " (map JS.toLowerCase ts)) /\
    Formatter.reformatCategoryNameInput
      (Formatter.reformatCategoryNameResponse (Some (JS.join "_" ts))) =
      Some (JS.join "_" (map JS.toLowerCase ts)).
Proof.
  intros ts Hne Hall.
  assert (Hne' : map JS.toLowerCase ts <> []) by (destruct ts; [congruence | discriminate]).
  pose proof (word_toLowerCase ts Hall) as Hall'.
  split.
  - rewrite (storage_of_words ts Hne Hall), (display_of_words _ Hne' Hall').
    now rewrite map_toLowerCase_idem.
  - rewrite (display_of_words ts Hne Hall), (storage_of_words _ Hne' Hall').
    now rewrite map_toLowerCase_idem.
Qed.

Lemma formatter_round_trip_on_words_witness :
  Forall word ["Home"; "Decor"] /\
  Formatter.reformatCategoryNameResponse
    (Formatter.reformatCategoryNameInput (Some "Home Decor")) = Some "home decor".
Proof.
  assert (H : Forall word ["Home"; "Decor"]).
  { repeat constructor; try discriminate;
      simpl in *; repeat (destruct H as [<-|H]; [first [reflexivity | discriminate]|]);
      contradiction. }
  split; [exact H|].
  apply (formatter_round_trip_on_words ["Home"; "Decor"]); [discriminate | exact H].
Defined.

(* ================================================================== *)
(** ** controllers/categoryController.js *)
(* ================================================================== *)

Import CategoryController.

Lemma filter_nil_existsb {A} (f : A -> bool) (l : list A) :
  filter f l = [] <-> existsb f l = false.
Proof.
  induction l as [|x l IH]; simpl; [tauto|].
  destruct (f x); simpl; [split; discriminate | exact IH].
Qed.

(** What a successful [addCategory] has done, on any store. *)
Lemma addCategory_success now name db r :
  snd (addCategory now name db) = Responds r -> statusCode r = 200 ->
  exists f,
    Formatter.reformatCategoryNameInput name = Some f /\
    existsb (fun c => String.eqb (category_name c) f) (categories db) = false /\
    fst (addCategory now name db) =
      {| products := products db;
         categories := categories db ++
                       [{| category_id := categories_id_seq db; category_name := f;
                           category_createdAt := now |}];
         productCategories := productCategories db;
         products_id_seq := products_id_seq db;
         categories_id_seq := categories_id_seq db + 1 |} /\
    data r = CategoryList
               [{| cv_id := categories_id_seq db;
                   cv_name := Formatter.reformatCategoryNameResponse (Some f) |}].
Proof.
  unfold addCategory.
  destruct name as [n|];
    [|cbn [snd error]; intros H Hs; inversion H; subst r; discriminate Hs].
  destruct (JS.is_empty n) eqn:En;
    [cbn [snd error]; intros H Hs; inversion H; subst r; discriminate Hs|].
  destruct (Formatter.reformatCategoryNameInput (Some n)) as [f|] eqn:Ef;
    [|cbn [snd error]; intros H Hs; inversion H; subst r; discriminate Hs].
  destruct (filter (fun c => String.eqb (category_name c) f) (categories db))
    as [|c0 cs] eqn:Efil;
    [|cbn [snd error]; intros H Hs; inversion H; subst r; discriminate Hs].
  cbn [List.length Nat.ltb Nat.leb]. unfold insertCategory.
  destruct (hasCategory db (categories_id_seq db)); [discriminate|].
  apply filter_nil_existsb in Efil. rewrite Efil.
  cbn [fst snd json]. intros H _. inversion H. subst r.
  exists f. repeat split. exact Efil.
Qed.

(** X5: [addCategory] answers 400 "Name is required" for a null or empty
    name and 400 "Category already exists" when a category already holds
    the storage form of the name, leaving the store as it is in both
    cases; otherwise, the next sequence value being unused, it appends one
    category under that value with the storage form as its name, touches
    nothing else, and answers with that id and the display form. *)
Theorem addCategory_outcomes :
  forall (now : Z) (name : option string) (db : Db),
    hasCategory db (categories_id_seq db) = false ->
    match Formatter.reformatCategoryNameInput name with
    | None => addCategory now name db = (db, error 400 "Name is required")
    | Some f =>
        if existsb (fun c => String.eqb (category_name c) f) (categories db)
        then addCategory now name db = (db, error 400 "Category already exists")
        else
          addCategory now name db =
          ({| products := products db;
              categories := categories db ++
                            [{| category_id := categories_id_seq db; category_name := f;
                                category_createdAt := now |}];
              productCategories := productCategories db;
              products_id_seq := products_id_seq db;
              categories_id_seq := categories_id_seq db + 1 |},
           json [] "Category added successfully" "success"
             (CategoryList
                [{| cv_id := categories_id_seq db;
                    cv_name := Formatter.reformatCategoryNameResponse (Some f) |}]))
    end.
Proof.
  intros now name db Hfresh. unfold addCategory.
  destruct name as [n|]; [|reflexivity].
  destruct (JS.is_empty n) eqn:En.
  { unfold Formatter.reformatCategoryNameInput. now rewrite En. }
  destruct (Formatter.reformatCategoryNameInput (Some n)) as [f|]; [|reflexivity].
  destruct (existsb (fun c => String.eqb (category_name c) f) (categories db)) eqn:Ex.
  - destruct (filter _ (categories db)) as [|c0 cs] eqn:Efil; [|reflexivity].
    apply filter_nil_existsb in Efil. congruence.
  - pose proof Ex as Efil. apply filter_nil_existsb in Efil. rewrite Efil.
    cbn [List.length Nat.ltb Nat.leb]. unfold insertCategory.
    rewrite Hfresh, Ex. reflexivity.
Qed.

Lemma addCategory_outcomes_witness :
  addCategory 7 (Some "Female Clothing") Sample.catalogue =
    (Sample.catalogue, error 400 "Category already exists") /\
  snd (addCategory 7 (Some "Home Decor") Sample.catalogue) =
    json [] "Category added successfully" "success"
      (CategoryList [{| cv_id := 6; cv_name := Some "home decor" |}]).
Proof.
  split.
  - apply (addCategory_outcomes 7 (Some "Female Clothing") Sample.catalogue eq_refl).
  - exact (f_equal snd
             (addCategory_outcomes 7 (Some "Home Decor") Sample.catalogue eq_refl)).
Defined.

(** X6: once [addCategory] has succeeded for a name, every later
    [addCategory] for a name with the same storage form (another letter
    case, underscores for spaces) is refused with 400 "Category already
    exists" and changes nothing. *)
Theorem addCategory_refuses_same_storage_form :
  forall (now now' : Z) (name name' : option string) (db : Db) (r : Response),
    snd (addCategory now name db) = Responds r -> statusCode r = 200 ->
    Formatter.reformatCategoryNameInput name' = Formatter.reformatCategoryNameInput name ->
    addCategory now' name' (fst (addCategory now name db)) =
    (fst (addCategory now name db), error 400 "Category already exists").
Proof.
  intros now now' name name' db r Hout Hst Hsame.
  destruct (addCategory_success now name db r Hout Hst) as (f & Hf & _ & Hdb & _).
  rewrite Hdb. rewrite Hf in Hsame. unfold addCategory at 1.
  destruct name' as [n'|]; [|discriminate Hsame].
  destruct (JS.is_empty n') eqn:En.
  { unfold Formatter.reformatCategoryNameInput in Hsame. rewrite En in Hsame. discriminate. }
  rewrite Hsame. cbn [categories]. rewrite filter_app. cbn [filter category_name].
  rewrite String.eqb_refl.
  destruct (filter _ (categories db) ++ _)%list eqn:E; [|reflexivity].
  apply app_eq_nil in E. destruct E as [_ E]. discriminate E.
Qed.

Lemma addCategory_refuses_same_storage_form_witness :
  addCategory 9 (Some "home_decor") (fst (addCategory 7 (Some "Home Decor") Sample.catalogue)) =
  (fst (addCategory 7 (Some "Home Decor") Sample.catalogue),
   error 400 "Category already exists").
Proof.
  eapply (addCategory_refuses_same_storage_form 7 9 (Some "Home Decor") (Some "home_decor")
            Sample.catalogue); reflexivity.
Defined.

(** X7: [getCategories] lists the stored categories in table order, and
    after a successful [addCategory] the listing is the former one
    followed by the entry [addCategory] answered with. *)
Theorem getCategories_after_addCategory :
  forall (now : Z) (name : option string) (db : Db) (r : Response),
    snd (addCategory now name db) = Responds r -> statusCode r = 200 ->
    exists old new,
      getCategories db = json [] "Categories fetched successfully" "success" (CategoryList old) /\
      map cv_id old = map category_id (categories db) /\
      data r = CategoryList [new] /\
      getCategories (fst (addCategory now name db)) =
        json [] "Categories fetched successfully" "success" (CategoryList (old ++ [new])).
Proof.
  intros now name db r Hout Hst.
  destruct (addCategory_success now name db r Hout Hst) as (f & Hf & _ & Hdb & Hdata).
  exists (map categoryView (categories db)),
         {| cv_id := categories_id_seq db;
            cv_name := Formatter.reformatCategoryNameResponse (Some f) |}.
  split; [reflexivity|]. split; [now rewrite map_map|]. split; [exact Hdata|].
  rewrite Hdb. unfold getCategories. cbn [categories]. now rewrite map_app.
Qed.

Lemma getCategories_after_addCategory_witness :
  exists old new,
    getCategories Sample.catalogue =
      json [] "Categories fetched successfully" "success" (CategoryList old) /\
    map cv_id old = map category_id (categories Sample.catalogue) /\
    data {| statusCode := 200; setCookie := [];
            message := "Category added successfully"; status := "success";
            data := CategoryList [{| cv_id := 6; cv_name := Some "home decor" |}] |}
      = CategoryList [new] /\
    getCategories (fst (addCategory 7 (Some "Home Decor") Sample.catalogue)) =
      json [] "Categories fetched successfully" "success" (CategoryList (old ++ [new])).
Proof.
  apply (getCategories_after_addCategory 7 (Some "Home Decor") Sample.catalogue);
    reflexivity.
Defined.

(* ================================================================== *)
(** ** [deleteProduct] *)
(* ================================================================== *)

Lemma filter_unique {A} (key : A -> Z) (l : list A) a :
  NoDup (map key l) -> In a l -> filter (fun x => key x =? key a) l = [a].
Proof.
  induction l as [|x l IH]; simpl; intros Hnd Ha; [contradiction|].
  inversion Hnd as [|? ? Hnotin Hnd']; subst.
  destruct Ha as [->|Ha].
  - rewrite Z.eqb_refl. f_equal.
    destruct (filter (fun x => key x =? key a) l) as [|y ys] eqn:E; [reflexivity|].
    assert (Hy : In y (filter (fun x => key x =? key a) l)) by (rewrite E; now left).
    apply filter_In in Hy. destruct Hy as [Hy Hk]. apply Z.eqb_eq in Hk.
    exfalso. apply Hnotin. rewrite <- Hk. now apply in_map.
  - destruct (key x =? key a) eqn:E.
    + apply Z.eqb_eq in E. exfalso. apply Hnotin. rewrite E. now apply in_map.
    + now apply IH.
Qed.

(** X8: on a store satisfying the schema, [deleteProduct] of a stored
    product answers 200 with that row as its data, removes the row and
    every association row of the product, and leaves the other products,
    their association rows and the categories as they were. *)
Theorem deleteProduct_removes_product_and_its_rows :
  forall (db : Db) (p : Product),
    wf db -> In p (products db) ->
    let db' := fst (deleteProduct (product_id p) db) in
    snd (deleteProduct (product_id p) db) =
      json [] "Product deleted successfully" "success" (ProductRows [p]) /\
    (forall q, In q (products db') <-> In q (products db) /\ q <> p) /\
    (forall pid c, associated db' pid c <-> associated db pid c /\ pid <> product_id p) /\
    categories db' = categories db.
Proof.
  intros db p Hwf Hp db'.
  assert (Hid : hasProduct db (product_id p) = true) by (apply hasProduct_In; eauto).
  unfold db', deleteProduct. rewrite (selectProductsById_some db _ Hid).
  unfold deleteProductRow. rewrite Hid. cbn [fst snd]. repeat split.
  - unfold selectProductsById.
    now rewrite (filter_unique product_id (products db) p (wf_product_pk db Hwf) Hp).
  - cbn [products] in H. apply filter_In in H. tauto.
  - cbn [products] in H. apply filter_In in H. destruct H as [_ H].
    intros ->. rewrite Z.eqb_refl in H. discriminate.
  - intros [Hq Hne]. cbn [products]. apply filter_In. split; [exact Hq|].
    apply negb_true_iff, Z.eqb_neq. intros E. apply Hne.
    now apply (NoDup_map_inj product_id (products db) q p (wf_product_pk db Hwf)).
  - unfold associated in *. cbn [productCategories] in H. apply filter_In in H. tauto.
  - unfold associated in H. cbn [productCategories] in H. apply filter_In in H.
    destruct H as [_ H]. simpl in H. now apply negb_true_iff, Z.eqb_neq in H.
  - intros [Ha Hne]. unfold associated in *. cbn [productCategories].
    apply filter_In. split; [exact Ha|]. simpl. now apply negb_true_iff, Z.eqb_neq.
Qed.

Lemma deleteProduct_removes_product_and_its_rows_witness :
  wf Sample.catalogue /\
  snd (deleteProduct 20 Sample.catalogue) =
    json [] "Product deleted successfully" "success"
      (ProductRows [Sample.product 20 "4" 3 30]) /\
  productCategories (fst (deleteProduct 20 Sample.catalogue)) =
    [Sample.pair 1 5; Sample.pair 2 5; Sample.pair 2 1].
Proof.
  assert (Hwf : wf Sample.catalogue) by (apply check_sound; reflexivity).
  split; [exact Hwf|]. split; [|reflexivity].
  apply (deleteProduct_removes_product_and_its_rows Sample.catalogue
           (Sample.product 20 "4" 3 30) Hwf).
  simpl. auto.
Defined.

Lemma listed_is_stored cats name db pid :
  In pid (listedIds (getProducts cats name db)) -> hasProduct db pid = true.
Proof.
  intros H. apply In_listedIds_getProducts in H. destruct H as [_ [r (Hr & He & _)]].
  apply In_joinFromProducts in Hr. destruct Hr as [Hp _].
  apply hasProduct_In. eauto.
Qed.

Lemma hasProduct_after_delete id db : hasProduct (fst (deleteProduct id db)) id = false.
Proof.
  unfold deleteProduct.
  destruct (List.length (selectProductsById id db) =? 0)%nat eqn:E.
  - cbn [fst]. destruct (hasProduct db id) eqn:Eh; [|reflexivity].
    rewrite (selectProductsById_some db id Eh) in E. discriminate.
  - unfold deleteProductRow. cbn [fst]. unfold hasProduct. cbn [products].
    induction (products db) as [|p l IH]; [reflexivity|]. simpl.
    destruct (product_id p =? id) eqn:Ep; simpl; [exact IH|]. now rewrite Ep.
Qed.

(** X9: after [deleteProduct] of an id of the range of the id column,
    whatever it answered, no lookup lists that id, and [editProduct] and
    [deleteProduct] on it answer 404 "Product not found" and change
    nothing. *)
Theorem deleted_product_is_gone :
  forall (id : Z) (db : Db),
    int4 id ->
    let db' := fst (deleteProduct id db) in
    (forall cats name, ~ In id (listedIds (getProducts cats name db'))) /\
    (forall now name price cats,
       editProduct now id name price cats db' = (db', error 404 "Product not found")) /\
    deleteProduct id db' = (db', error 404 "Product not found").
Proof.
  intros id db _ db'. pose proof (hasProduct_after_delete id db) as Hgone.
  fold db' in Hgone. split; [|split].
  - intros cats name H. apply listed_is_stored in H. congruence.
  - intros now name price cats. unfold editProduct.
    now rewrite (selectProductsById_none db' id Hgone).
  - unfold deleteProduct. now rewrite (selectProductsById_none db' id Hgone).
Qed.

Lemma deleted_product_is_gone_witness :
  int4 2 /\
  ~ In 2 (listedIds (getProducts None None (fst (deleteProduct 2 Sample.catalogue)))) /\
  deleteProduct 2 (fst (deleteProduct 2 Sample.catalogue)) =
  (fst (deleteProduct 2 Sample.catalogue), error 404 "Product not found").
Proof.
  assert (Hid : int4 2) by (unfold int4; lia).
  destruct (deleted_product_is_gone 2 Sample.catalogue Hid) as (Hl & _ & Hd).
  split; [exact Hid|]. split; [apply Hl | exact Hd].
Defined.

(* ================================================================== *)
(** ** [addProduct], again *)
(* ================================================================== *)

(** X10: after a successful [addProduct], every further [addProduct]
    under the same name, whatever its price and categories, is refused
    with 400 "Product already exists", inserts nothing and takes no id. *)
Theorem addProduct_refuses_existing_name :
  forall (env env' : option string) (now now' : Z) (name : string) (price price' : Z)
         (L L' : list Z) (db : Db) (r : Response),
    snd (addProduct env now name price L db) = Responds r -> statusCode r = 200 ->
    addProduct env' now' name price' L' (fst (addProduct env now name price L db)) =
    (fst (addProduct env now name price L db), error 400 "Product already exists").
Proof.
  intros env env' now now' name price price' L L' db r Hout Hst.
  destruct (addProduct_success env now name price L db r Hout Hst) as (_ & Hin & _).
  set (db' := fst (addProduct env now name price L db)) in *.
  unfold addProduct at 1.
  destruct (selectProductsByName name db') as [|q qs] eqn:E; [|reflexivity].
  exfalso. apply selectProductsByName_nil in E.
  assert (existsb (fun p => String.eqb (product_name p) name) (products db') = true);
    [|congruence].
  apply existsb_exists. exists (newRow db name price now). split; [exact Hin|].
  apply String.eqb_refl.
Qed.

Lemma addProduct_refuses_existing_name_witness :
  addProduct None 200 "pear" 9 [4]
    (fst (addProduct None 100 "pear" 7 [5; 1] Sample.catalogue)) =
  (fst (addProduct None 100 "pear" 7 [5; 1] Sample.catalogue),
   error 400 "Product already exists").
Proof.
  eapply (addProduct_refuses_existing_name None None 100 200 "pear" 7 9 [5; 1] [4]
            Sample.catalogue); reflexivity.
Defined.

(* ================================================================== *)
(** ** The shape of a listing *)
(* ================================================================== *)

Lemma filter_all {A} (l : list A) : filter (fun _ => true) l = l.
Proof. induction l as [|x l IH]; simpl; [reflexivity | now rewrite IH]. Qed.

Lemma getProducts_rows cats name db :
  getProducts cats name db =
  if filterGiven cats &&
     (List.length (matchingProductIds (match cats with Some l => l | None => [] end) db)
        =? 0)%nat
  then json [] "No products found" "success" (ProductList [])
  else json [] "Products fetched successfully" "success"
         (ProductList (groupRows (lookupRows cats name db))).
Proof.
  unfold getProducts, lookupRows, kept.
  destruct (filterGiven cats) eqn:EF; cbn [andb].
  - destruct (List.length _ =? 0)%nat; [reflexivity|].
    destruct name as [s|]; [destruct (JS.is_empty s) eqn:Es|];
      unfold JS.truthy; rewrite ?Es; cbn [negb];
      unfold run; cbn [where_ orderByCreatedAtDesc sel_rows sel_where sel_orderByCreatedAtDesc];
      try reflexivity.
    unfold nameFilter. now rewrite Es.
  - destruct name as [s|]; [destruct (JS.is_empty s) eqn:Es|];
      unfold JS.truthy; rewrite ?Es; cbn [negb];
      unfold run; cbn [where_ orderByCreatedAtDesc sel_rows sel_where sel_orderByCreatedAtDesc];
      rewrite ?filter_all; try reflexivity.
    unfold nameFilter. now rewrite Es.
Qed.

Lemma In_lookupRows cats name db r :
  In r (lookupRows cats name db) <->
  In r (joinFromProducts db) /\ kept cats name db (row_product r) = true.
Proof. unfold lookupRows. now rewrite In_sortRows, filter_In. Qed.

Lemma listed_getProducts cats name db v :
  In v (listed (getProducts cats name db)) -> In v (groupRows (lookupRows cats name db)).
Proof.
  rewrite getProducts_rows. destruct (filterGiven cats && _); simpl; tauto.
Qed.

Lemma In_productMap_push m k c v' :
  NoDup (map pv_id m) ->
  In v' (productMap_push m k c) ->
  (pv_id v' <> k /\ In v' m) \/
  (exists v, In v m /\ pv_id v = k /\
             v' = {| pv_id := pv_id v; pv_name := pv_name v; pv_price := pv_price v;
                     pv_categories := pv_categories v ++ [c] |}).
Proof.
  induction m as [|v0 m IH]; simpl; intros Hnd H; [contradiction|].
  inversion Hnd as [|? ? Hnotin Hnd']; subst.
  destruct (pv_id v0 =? k) eqn:E.
  - apply Z.eqb_eq in E. destruct H as [H|H].
    + right. exists v0. auto.
    + left. split; [|auto]. intros E'. apply Hnotin. rewrite E, <- E'. now apply in_map.
  - apply Z.eqb_neq in E. destruct H as [H|H].
    + subst v'. left. auto.
    + destruct (IH Hnd' H) as [[Hne Hin]|[v (Hin & Hk & Hv)]].
      * left. auto.
      * right. exists v. auto.
Qed.

Lemma rowsOf_app k l r :
  rowsOf k (l ++ [r]) =
  (rowsOf k l ++ if product_id (row_product r) =? k then [r] else [])%list.
Proof. unfold rowsOf. rewrite filter_app. simpl. now destruct (_ =? k). Qed.

Lemma groupInv_groupRows rows : groupInv (groupRows rows) rows.
Proof.
  induction rows as [|r rows IH] using rev_ind.
  - repeat split; simpl; try constructor; contradiction.
  - destruct IH as (Hnd & Hcats & Hrow).
    pose proof (In_groupRows rows) as Hkeys.
    unfold groupRows in *. rewrite fold_left_app. cbn [fold_left].
    set (G := fold_left groupStep rows []) in *.
    set (k := product_id (row_product r)).
    assert (Hids := groupStep_ids G r). fold k in Hids.
    unfold groupStep. fold k.
    set (fresh := {| pv_id := k; pv_name := product_name (row_product r);
                     pv_price := product_price (row_product r); pv_categories := [] |}).
    set (m1 := if productMap_has G k then G else (G ++ [fresh])%list).
    assert (Hnd1 : NoDup (map pv_id m1)).
    { unfold m1. destruct (productMap_has G k) eqn:E; [assumption|].
      rewrite map_app. apply NoDup_app; [assumption | repeat constructor; simpl; tauto|].
      intros a Ha [<-|[]]. apply productMap_has_In in Ha. simpl in Ha. congruence. }
    split; [|split].
    + rewrite productMap_push_ids. exact Hnd1.
    + intros v' Hv'. apply (In_productMap_push m1 k _ v' Hnd1) in Hv'.
      rewrite rowsOf_app. fold k.
      destruct Hv' as [[Hne Hin]|[v (Hin & Hk & ->)]].
      * assert (In v' G).
        { unfold m1 in Hin. destruct (productMap_has G k); [assumption|].
          apply in_app_iff in Hin. destruct Hin as [Hin|[<-|[]]]; [assumption|].
          simpl in Hne. congruence. }
        rewrite (Hcats v' H). destruct (k =? pv_id v') eqn:E.
        -- apply Z.eqb_eq in E. congruence.
        -- now rewrite app_nil_r.
      * cbn [pv_id pv_categories]. rewrite Hk, Z.eqb_refl, map_app. cbn [map].
        f_equal. unfold m1 in Hin. destruct (productMap_has G k) eqn:E.
        -- rewrite (Hcats v Hin). now rewrite Hk.
        -- apply in_app_iff in Hin. destruct Hin as [Hin|[<-|[]]].
           ++ exfalso. assert (productMap_has G k = true); [|congruence].
              apply productMap_has_In. rewrite <- Hk. now apply in_map.
           ++ cbn [pv_categories]. symmetry.
              destruct (rowsOf k rows) as [|q qs] eqn:Eq; [reflexivity|].
              exfalso. assert (Hq : In q (rowsOf k rows)) by (rewrite Eq; now left).
              apply filter_In in Hq. destruct Hq as [Hq Hqk]. apply Z.eqb_eq in Hqk.
              assert (productMap_has G k = true); [|congruence].
              apply productMap_has_In, Hkeys. eauto.
    + intros v' Hv'. apply (In_productMap_push m1 k _ v' Hnd1) in Hv'.
      assert (Hm1 : forall v, In v m1 ->
                exists q, In q (rows ++ [r]) /\ product_id (row_product q) = pv_id v /\
                          pv_name v = product_name (row_product q) /\
                          pv_price v = product_price (row_product q)).
      { intros v Hv. unfold m1 in Hv. destruct (productMap_has G k).
        - destruct (Hrow v Hv) as [q (Hq & H1 & H2 & H3)]. exists q.
          rewrite in_app_iff. auto.
        - apply in_app_iff in Hv. destruct Hv as [Hv|[<-|[]]].
          + destruct (Hrow v Hv) as [q (Hq & H1 & H2 & H3)]. exists q.
            rewrite in_app_iff. auto.
          + exists r. rewrite in_app_iff. simpl. auto. }
      destruct Hv' as [[Hne Hin]|[v (Hin & Hk & ->)]]; [now apply Hm1|].
      destruct (Hm1 v Hin) as [q Hq]. exists q. exact Hq.
Qed.

(** X11: in every response of [getProducts] each product id occurs at
    most once. *)
Theorem getProducts_lists_each_product_once :
  forall (cats : option (list Z)) (name : option string) (db : Db),
    NoDup (listedIds (getProducts cats name db)).
Proof.
  intros cats name db. rewrite getProducts_rows.
  destruct (filterGiven cats && _); simpl; [constructor|].
  apply (groupInv_groupRows (lookupRows cats name db)).
Qed.

Lemma joined_same_product db r r0 :
  wf db -> In r (joinFromProducts db) -> In r0 (joinFromProducts db) ->
  product_id (row_product r) = product_id (row_product r0) ->
  row_product r = row_product r0.
Proof.
  intros Hwf Hr Hr0 E.
  apply In_joinFromProducts in Hr, Hr0. destruct Hr as [Hp _], Hr0 as [Hp0 _].
  now apply (NoDup_map_inj product_id (products db) _ _ (wf_product_pk db Hwf)).
Qed.

Lemma entry_of_listing :
  forall (cats : option (list Z)) (name : option string) (db : Db) (v : ProductView),
    wf db -> In v (listed (getProducts cats name db)) ->
    (exists p, In p (products db) /\ product_id p = pv_id v /\
               pv_name v = product_name p /\ pv_price v = product_price p) /\
    (forall c, In c (map cv_id (pv_categories v)) <-> associated db (pv_id v) c) /\
    (forall cv, In cv (pv_categories v) ->
       exists c, In c (categories db) /\ cv = categoryView c).
Proof.
  intros cats name db v Hwf Hv. apply listed_getProducts in Hv.
  destruct (groupInv_groupRows (lookupRows cats name db)) as (_ & Hcats & Hrow).
  destruct (Hrow v Hv) as [r0 (Hr0 & Hid0 & Hn0 & Hp0)].
  apply In_lookupRows in Hr0. destruct Hr0 as [Hj0 Hk0].
  split; [|split].
  - exists (row_product r0). apply In_joinFromProducts in Hj0. tauto.
  - intros c. rewrite (Hcats v Hv), map_map. cbn [categoryView cv_id].
    rewrite in_map_iff. split.
    + intros [r [<- Hr]]. apply filter_In in Hr. destruct Hr as [Hr Hk].
      apply Z.eqb_eq in Hk. apply In_lookupRows in Hr. destruct Hr as [Hj _].
      rewrite <- Hk. now apply joined_associated.
    + intros Ha. destruct (associated_joins db _ c Hwf Ha) as [r (Hj & Hid & Hc)].
      exists r. split; [exact Hc|]. apply filter_In. split; [|now apply Z.eqb_eq].
      apply In_lookupRows. split; [exact Hj|].
      rewrite (joined_same_product db r r0 Hwf Hj Hj0); [exact Hk0 | congruence].
  - intros cv Hcv. rewrite (Hcats v Hv) in Hcv. apply in_map_iff in Hcv.
    destruct Hcv as [r [<- Hr]]. apply filter_In in Hr. destruct Hr as [Hr _].
    apply In_lookupRows in Hr. destruct Hr as [Hj _].
    apply In_joinFromProducts in Hj. exists (row_category r). tauto.
Qed.

(** X12: on a store satisfying the schema, every entry of a [getProducts]
    response carries the name and price of the stored product under its
    id, and its category list is the product's whole set of categories,
    each in display form, whatever categories the request asked for. *)
Theorem getProducts_entries_are_complete :
  forall (cats : option (list Z)) (name : option string) (db : Db) (v : ProductView),
    wf db -> In v (listed (getProducts cats name db)) ->
    (exists p, In p (products db) /\ product_id p = pv_id v /\
               pv_name v = product_name p /\ pv_price v = product_price p) /\
    (forall c, In c (map cv_id (pv_categories v)) <-> associated db (pv_id v) c) /\
    (forall cv, In cv (pv_categories v) ->
       exists c, In c (categories db) /\ cv = categoryView c).
Proof.
  intros cats name db v Hwf Hv.
  destruct (entry_of_listing cats name db v Hwf Hv) as (Hp & Hc & Hv').
  split; [exact Hp|]. split; [exact Hc | exact Hv'].
Qed.

Lemma getProducts_entries_are_complete_witness :
  wf Sample.catalogue /\
  exists v, In v (listed (getProducts (Some [4]) None Sample.catalogue)) /\
            pv_id v = 20 /\ In 1 (map cv_id (pv_categories v)).
Proof.
  assert (Hwf : wf Sample.catalogue) by (apply check_sound; reflexivity).
  split; [exact Hwf|].
  exists {| pv_id := 20; pv_name := "4"; pv_price := 3;
            pv_categories := [ {| cv_id := 1; cv_name := Some "electronics" |};
                               {| cv_id := 4; cv_name := Some "female clothing" |} ] |}.
  assert (Hin : In {| pv_id := 20; pv_name := "4"; pv_price := 3;
            pv_categories := [ {| cv_id := 1; cv_name := Some "electronics" |};
                               {| cv_id := 4; cv_name := Some "female clothing" |} ] |}
                   (listed (getProducts (Some [4]) None Sample.catalogue)))
    by (simpl; auto).
  split; [exact Hin|]. split; [reflexivity|].
  destruct (getProducts_entries_are_complete (Some [4]) None Sample.catalogue _ Hwf Hin)
    as (_ & H & _).
  apply H. unfold associated. simpl. auto.
Defined.

(* ------------------------------------------------------------------ *)
(** *** Newest first *)

Lemma Forall_newer_insertRow h r l :
  newer h r -> Forall (newer h) l -> Forall (newer h) (insertRow r l).
Proof.
  intros Hr. induction l as [|x l IH]; simpl; intros H.
  - repeat constructor. exact Hr.
  - inversion H; subst. destruct (_ <=? _); constructor; auto.
Qed.

Lemma newer_trans a b c : newer a b -> newer b c -> newer a c.
Proof. unfold newer. lia. Qed.

Lemma StronglySorted_insertRow r l :
  StronglySorted newer l -> StronglySorted newer (insertRow r l).
Proof.
  induction l as [|h t IH]; simpl; intros H.
  - repeat constructor.
  - inversion H as [|? ? Ht Hh]; subst.
    destruct (product_createdAt (row_product h) <=? product_createdAt (row_product r)) eqn:E.
    + apply Z.leb_le in E. constructor; [exact H|]. constructor; [exact E|].
      eapply Forall_impl; [|exact Hh]. intros x Hx. unfold newer in *. lia.
    + apply Z.leb_gt in E. constructor; [now apply IH|].
      apply Forall_newer_insertRow; [unfold newer; lia | exact Hh].
Qed.

Lemma StronglySorted_sortRows l : StronglySorted newer (sortRows l).
Proof.
  induction l as [|r l IH]; simpl; [constructor | now apply StronglySorted_insertRow].
Qed.

Lemma StronglySorted_snoc_inv {A} (R : A -> A -> Prop) l x :
  StronglySorted R (l ++ [x]) -> StronglySorted R l /\ Forall (fun y => R y x) l.
Proof.
  induction l as [|h t IH]; simpl; intros H; [split; constructor|].
  inversion H as [|? ? Ht Hh]; subst. destruct (IH Ht) as [H1 H2].
  rewrite Forall_app in Hh. destruct Hh as [Hh Hx]. inversion Hx; subst.
  split; constructor; assumption.
Qed.

Lemma StronglySorted_snoc {A} (R : A -> A -> Prop) l x :
  StronglySorted R l -> Forall (fun y => R y x) l -> StronglySorted R (l ++ [x]).
Proof.
  induction l as [|h t IH]; simpl; intros H HF; [repeat constructor|].
  inversion H as [|? ? Ht Hh]; subst. inversion HF; subst.
  constructor; [now apply IH|]. rewrite Forall_app. split; [exact Hh|].
  repeat constructor. assumption.
Qed.

Lemma groupRows_newest_first db rows :
  NoDup (map product_id (products db)) ->
  (forall r, In r rows -> In (row_product r) (products db)) ->
  StronglySorted newer rows ->
  StronglySorted (notOlder db) (map pv_id (groupRows rows)).
Proof.
  intros Hnd. induction rows as [|r rows IH] using rev_ind; intros Hin Hs.
  - constructor.
  - apply StronglySorted_snoc_inv in Hs. destruct Hs as [Hs Hr].
    assert (Hin' : forall q, In q rows -> In (row_product q) (products db))
      by (intros q Hq; apply Hin, in_app_iff; now left).
    specialize (IH Hin' Hs).
    unfold groupRows in *. rewrite fold_left_app. cbn [fold_left].
    rewrite groupStep_ids. destruct (productMap_has _ _); [exact IH|].
    apply StronglySorted_snoc; [exact IH|].
    apply Forall_forall. intros k1 Hk1.
    apply (In_groupRows rows) in Hk1. destruct Hk1 as [r1 [Hr1 Hid1]].
    intros p1 p2 Hp1 Hp2 E1 E2.
    assert (p1 = row_product r1).
    { apply (NoDup_map_inj product_id (products db)); auto. congruence. }
    assert (p2 = row_product r).
    { apply (NoDup_map_inj product_id (products db)); auto.
      apply Hin, in_app_iff. right. now left. }
    subst p1 p2. rewrite Forall_forall in Hr. apply (Hr r1 Hr1).
Qed.

(** X13: on a store satisfying the schema, the products of a
    [getProducts] response come newest first: a product listed before
    another was not created before it. *)
Theorem getProducts_lists_newest_first :
  forall (cats : option (list Z)) (name : option string) (db : Db),
    wf db -> StronglySorted (notOlder db) (listedIds (getProducts cats name db)).
Proof.
  intros cats name db Hwf. rewrite getProducts_rows.
  destruct (filterGiven cats && _); simpl; [constructor|].
  apply groupRows_newest_first.
  - apply (wf_product_pk db Hwf).
  - intros r Hr. apply In_lookupRows in Hr. destruct Hr as [Hj _].
    apply In_joinFromProducts in Hj. tauto.
  - apply StronglySorted_sortRows.
Qed.

Lemma getProducts_lists_newest_first_witness :
  wf Sample.catalogue /\
  listedIds (getProducts None None Sample.catalogue) = [20; 2; 1] /\
  StronglySorted (notOlder Sample.catalogue) [20; 2; 1].
Proof.
  assert (Hwf : wf Sample.catalogue) by (apply check_sound; reflexivity).
  split; [exact Hwf|]. split; [reflexivity|].
  apply (getProducts_lists_newest_first None None Sample.catalogue Hwf).
Defined.

(* ================================================================== *)
(** ** [addProduct] followed by a lookup *)
(* ================================================================== *)

Lemma In_listedIds_filtered db C name pid :
  wf db -> C <> [] -> JS.truthy name = false ->
  (In pid (listedIds (getProducts (Some C) name db)) <->
   forall c, In c C -> associated db pid c).
Proof.
  intros Hwf HC Hname. split; [now apply listed_requires_association|].
  intros Hall. apply In_listedIds_getProducts. rewrite Hname.
  assert (EF : filterGiven (Some C) = true) by (destruct C; [congruence | reflexivity]).
  rewrite EF.
  assert (Hm : In pid (matchingProductIds C db)) by (apply In_matchingProductIds; auto).
  split; [intros _ E; rewrite E in Hm; contradiction|].
  destruct C as [|c0 C0]; [congruence|].
  destruct (associated_joins db pid c0 Hwf (Hall c0 (or_introl eq_refl)))
    as [r (Hr & He & _)].
  exists r. auto.
Qed.

(** What a committed [addProduct] started from and has left. *)

(** X14: on a store satisfying the schema, after a successful
    [addProduct] the new product is associated with exactly the supplied
    categories, the unfiltered lookup lists it with its name, its price
    and those categories, and a lookup filtered by a non-empty list of
    categories lists it exactly when all of them are among the supplied
    ones. *)
Theorem added_product_is_listed :
  forall (env : option string) (now : Z) (name : string) (price : Z)
         (L : list Z) (db : Db) (r : Response),
    wf db ->
    snd (addProduct env now name price L db) = Responds r -> statusCode r = 200 ->
    let db' := fst (addProduct env now name price L db) in
    let id := products_id_seq db in
    wf db' /\
    (forall c, associated db' id c <-> In c L) /\
    (exists v, In v (listed (getProducts None None db')) /\
               pv_id v = id /\ pv_name v = name /\ pv_price v = price /\
               forall c, In c (map cv_id (pv_categories v)) <-> In c L) /\
    (forall C, C <> [] ->
       (In id (listedIds (getProducts (Some C) None db')) <->
        forall c, In c C -> In c L)).
Proof.
  intros env now name price L db r Hwf Hout Hst db' id.
  destruct (addProduct_commit_inv env now name price L db r Hwf Hout Hst)
    as (Hfresh & Hname & HL & Hvalid & Hnd & Hdb).
  assert (Hwf' : wf db').
  { unfold db'. rewrite Hdb. now apply wf_after_add. }
  assert (Hassoc : forall c, associated db' id c <-> In c L).
  { intros c. unfold associated, db'. rewrite Hdb. cbn [withPairs productCategories].
    rewrite in_app_iff, In_pairsFor. cbn [productId categoryId]. split.
    - intros [H|[_ H]]; [|exact H].
      pose proof (wf_fk_product db Hwf _ H) as Hp. cbn [productId] in Hp.
      unfold id in Hp. congruence.
    - intros H. right. auto. }
  split; [exact Hwf'|]. split; [exact Hassoc|]. split.
  - assert (Hin : In id (listedIds (getProducts None None db'))).
    { apply (In_listedIds_unfiltered db' None None id Hwf' (or_introl eq_refl)).
      exists (newRow db name price now). split; [|split; [reflexivity|split; [|reflexivity]]].
      - unfold db'. rewrite Hdb. cbn [withPairs withNewProduct products].
        apply in_app_iff. right. now left.
      - destruct L as [|c0 L0]; [congruence|]. exists c0. apply Hassoc. now left. }
    unfold listedIds in Hin. 
    assert (Hv : exists v, In v (listed (getProducts None None db')) /\ pv_id v = id).
    { unfold listed. destruct (getProducts None None db') as [resp|e]; [|contradiction].
      destruct (data resp); try contradiction.
      apply in_map_iff in Hin. destruct Hin as [v [E Hv]]. eauto. }
    destruct Hv as [v [Hv Hid]]. exists v.
    destruct (entry_of_listing None None db' v Hwf' Hv) as ([p (Hp & Ep & Hn & Hpr)] & Hc & _).
    assert (p = newRow db name price now).
    { apply (NoDup_map_inj product_id (products db') p _ (wf_product_pk db' Hwf') Hp).
      - unfold db'. rewrite Hdb. cbn [withPairs withNewProduct products].
        apply in_app_iff. right. now left.
      - rewrite Ep, Hid. reflexivity. }
    subst p. repeat split; try assumption.
    + intros H. apply Hassoc. rewrite <- Hid. now apply Hc.
    + intros H. apply Hc. rewrite Hid. now apply Hassoc.
  - intros C HC. rewrite (In_listedIds_filtered db' C None id Hwf' HC eq_refl).
    split; intros H c Hc; apply Hassoc || apply -> Hassoc; auto.
Qed.

Lemma added_product_is_listed_witness :
  wf Sample.catalogue /\
  In 22 (listedIds (getProducts (Some [1]) None
                      (fst (addProduct None 100 "pear" 7 [5; 1] Sample.catalogue)))) /\
  (forall c, associated (fst (addProduct None 100 "pear" 7 [5; 1] Sample.catalogue)) 22 c
             <-> In c [5; 1]).
Proof.
  assert (Hwf : wf Sample.catalogue) by (apply check_sound; reflexivity).
  destruct (added_product_is_listed None 100 "pear" 7 [5; 1] Sample.catalogue _ Hwf
              eq_refl eq_refl) as (_ & Hassoc & _ & Hlook).
  split; [exact Hwf|]. split; [|exact Hassoc].
  apply (Hlook [1]); [discriminate|]. intros c [<-|[]]. simpl. auto.
Defined.

(* ================================================================== *)
(** ** [editProduct], the fields *)
(* ================================================================== *)

Lemma rollback_same db : rollback db db = db.
Proof. now destruct db. Qed.

Lemma wf_after_update id name price u db :
  wf db ->
  (forall n p, name = Some n -> In p (products db) -> product_name p = n ->
               product_id p = id) ->
  wf (withProducts db
        (map (fun p => if product_id p =? id then setFields name price u p else p)
             (products db))).
Proof.
  intros Hwf Hclash.
  constructor; cbn [withProducts products categories productCategories].
  - rewrite map_id_after_update. apply (wf_product_pk db Hwf).
  - apply (wf_category_pk db Hwf).
  - apply (wf_pair_pk db Hwf).
  - apply NoDup_names_after_update;
      [apply (wf_product_pk db Hwf) | apply (wf_product_name db Hwf) | exact Hclash].
  - apply (wf_category_name db Hwf).
  - intros r Hr.
    rewrite (hasProduct_after_update db id name price u (productCategories db)).
    apply (wf_fk_product db Hwf r Hr).
  - apply (wf_fk_category db Hwf).
Qed.

Lemma wf_after_replace db id valid :
  wf db -> hasProduct db id = true -> NoDup valid ->
  (forall c, In c valid -> hasCategory db c = true) ->
  wf (withPairs db
        (filter (fun r => negb (productId r =? id)) (productCategories db) ++
         pairsFor id valid)).
Proof.
  intros Hwf Hid Hnd Hvalid.
  constructor; cbn [withPairs products categories productCategories]; try (apply Hwf).
  - apply NoDup_app.
    + apply NoDup_filter. apply (wf_pair_pk db Hwf).
    + now apply NoDup_NoDup_pairsFor.
    + intros r Hr Hn. apply filter_In in Hr. destruct Hr as [_ Hr].
      apply In_pairsFor in Hn. destruct Hn as [E _].
      apply negb_true_iff, Z.eqb_neq in Hr. contradiction.
  - intros r Hr. change (hasProduct (withPairs db ?l) ?k) with (hasProduct db k).
    apply in_app_iff in Hr. destruct Hr as [Hr|Hr].
    + apply filter_In in Hr. apply (wf_fk_product db Hwf). tauto.
    + apply In_pairsFor in Hr. destruct Hr as [-> _]. exact Hid.
  - intros r Hr. change (hasCategory (withPairs db ?l) ?k) with (hasCategory db k).
    apply in_app_iff in Hr. destruct Hr as [Hr|Hr].
    + apply filter_In in Hr. apply (wf_fk_category db Hwf). tauto.
    + apply In_pairsFor in Hr. destruct Hr as [_ Hr]. now apply Hvalid.
Qed.

(** The whole of a committed [editProduct]. *)
Lemma editProduct_commit_eq now id name price cats db :
  wf db -> hasProduct db id = true ->
  (forall n p, givenName name = Some n -> In p (products db) ->
               product_name p = n -> product_id p = id) ->
  (filterGiven cats = true ->
   exists c, In c (match cats with Some l => l | None => [] end) /\
             hasCategory db c = true) ->
  let db1 :=
    withProducts db
      (map (fun p => if product_id p =? id
                     then setFields (givenName name) (givenPrice price) now p else p)
           (products db)) in
  let db' :=
    if filterGiven cats
    then withPairs db1
           (filter (fun r => negb (productId r =? id)) (productCategories db) ++
            pairsFor id (selectCategoryIdsIn
                           (match cats with Some l => l | None => [] end) db))
    else db1 in
  wf db' /\
  editProduct now id name price cats db =
  (db', json [] "Product updated successfully" "success"
          (ProductDetail
             (hd_error (map (setFields (givenName name) (givenPrice price) now)
                            (selectProductsById id db)))
             (map (fun row => categoryView (row_category row))
                  (productWithCategories id db')))).
Proof.
  intros Hwf Hid Hclash Hcats db1 db'.
  pose proof (wf_after_update id (givenName name) (givenPrice price) now db Hwf Hclash)
    as Hwf1. fold db1 in Hwf1.
  assert (Hid1 : hasProduct db1 id = true).
  { unfold db1. rewrite <- Hid.
    apply (hasProduct_after_update db id (givenName name) (givenPrice price) now
             (productCategories db) id). }
  unfold editProduct. rewrite (selectProductsById_some db id Hid).
  unfold transaction, bind. fold (givenName name). fold (givenPrice price).
  rewrite (updateProduct_ok id (givenName name) (givenPrice price) now db Hclash).
  fold db1. unfold db'. destruct (filterGiven cats) eqn:EF.
  - specialize (Hcats eq_refl). destruct Hcats as [c0 [Hc0L Hc0]].
    set (L := match cats with Some l => l | None => [] end) in *.
    unfold deletePairsOfProduct.
    change (selectCategoryIdsIn L db1) with (selectCategoryIdsIn L db).
    match goal with
    | |- context [insertProductCategories ?rows ?d] =>
        change d with
          (withPairs db1 (filter (fun r => negb (productId r =? id))
                                 (productCategories db)))
    end.
    set (db2 := withPairs db1 (filter (fun r => negb (productId r =? id))
                                      (productCategories db))).
    assert (Hvalid : forall c, In c (selectCategoryIdsIn L db) -> hasCategory db c = true).
    { intros c Hc. now apply In_selectCategoryIdsIn in Hc. }
    assert (Hnd : NoDup (selectCategoryIdsIn L db)).
    { unfold selectCategoryIdsIn. apply NoDup_map_filter. apply (wf_category_pk db Hwf). }
    assert (Hrows : insertProductCategories (pairsFor id (selectCategoryIdsIn L db)) db2 =
                    insertPairs (pairsFor id (selectCategoryIdsIn L db)) db2).
    { destruct (selectCategoryIdsIn L db) as [|v vs] eqn:E; [|reflexivity].
      rewrite selectCategoryIdsIn_nil in E. rewrite (E c0 Hc0L) in Hc0. discriminate. }
    rewrite Hrows.
    assert (Hok : insertable db2 (pairsFor id (selectCategoryIdsIn L db)) = true).
    { rewrite insertable_pairsFor. apply andb_true_intro. split.
      - apply forallb_forall. intros c Hc. unfold db2.
        rewrite hasPair_after_delete.
        change (hasProduct (withPairs db1 ?l) id) with (hasProduct db1 id).
        rewrite Hid1.
        change (hasCategory (withPairs db1 ?l) c) with (hasCategory db c).
        now rewrite (Hvalid c Hc).
      - now apply nodupb_complete. }
    rewrite (insertPairs_ok _ _ Hok). unfold ret.
    unfold db2. rewrite withPairs_withPairs. cbn [withPairs productCategories].
    split; [|reflexivity].
    apply (wf_after_replace db1 id (selectCategoryIdsIn L db) Hwf1 Hid1 Hnd).
    intros c Hc. change (hasCategory db1 c) with (hasCategory db c). now apply Hvalid.
  - unfold ret. split; [exact Hwf1 | reflexivity].
Qed.


(** X15: on a store satisfying the schema, [editProduct] of a stored
    product, with price and category ids of the range of their columns, a
    name no other product holds and either no category list or one of
    which an id resolves, answers 200 with the updated row
    and the product's categories as they then are.  The row keeps its id
    and creation time, takes the current time as update time, takes the
    new name only when it is not empty and the new price only when it is
    not zero; every other product row is left as it was. *)
Theorem editProduct_updates_given_fields :
  forall (now : Z) (name : option string) (price : option Z)
         (cats : option (list Z)) (db : Db) (p : Product),
    wf db -> In p (products db) ->
    (forall x, price = Some x -> int4 x) ->
    (forall c, In c (match cats with Some l => l | None => [] end) -> int4 c) ->
    (forall n q, givenName name = Some n -> In q (products db) ->
                 product_name q = n -> product_id q = product_id p) ->
    (filterGiven cats = true ->
     exists c, In c (match cats with Some l => l | None => [] end) /\
               hasCategory db c = true) ->
    let db' := fst (editProduct now (product_id p) name price cats db) in
    let u := {| product_id := product_id p;
                product_name := match name with
                                | Some n => if JS.is_empty n then product_name p else n
                                | None => product_name p
                                end;
                product_price := match price with
                                 | Some x => if x =? 0 then product_price p else x
                                 | None => product_price p
                                 end;
                product_createdAt := product_createdAt p;
                product_updatedAt := now |} in
    (exists views,
       snd (editProduct now (product_id p) name price cats db) =
         json [] "Product updated successfully" "success" (ProductDetail (Some u) views) /\
       forall c, In c (map cv_id views) <-> associated db' (product_id p) c) /\
    (forall q, In q (products db') <-> q = u \/ (In q (products db) /\ q <> p)).
Proof.
  intros now name price cats db p Hwf Hp _ _ Hclash Hcats db' u.
  assert (Hid : hasProduct db (product_id p) = true) by (apply hasProduct_In; eauto).
  destruct (editProduct_commit_eq now (product_id p) name price cats db Hwf Hid Hclash Hcats)
    as [Hwf' Heq].
  assert (Hu : setFields (givenName name) (givenPrice price) now p = u).
  { unfold setFields, u, givenName, givenPrice, JS.truthy. f_equal.
    - destruct name as [n|]; [|reflexivity]. now destruct (JS.is_empty n).
    - destruct price as [x|]; [|reflexivity]. now destruct (x =? 0). }
  unfold db'. rewrite Heq. cbn [fst snd]. split.
  - eexists. split.
    + unfold selectProductsById.
      rewrite (filter_unique product_id (products db) p (wf_product_pk db Hwf) Hp).
      cbn [map hd_error]. rewrite Hu. reflexivity.
    + intros c. now apply views_are_rows.
  - intros q.
    assert (Hprod : forall d, products (if filterGiven cats
                      then withPairs (withProducts db d)
                             (filter (fun r => negb (productId r =? product_id p))
                                     (productCategories db) ++
                              pairsFor (product_id p)
                                (selectCategoryIdsIn
                                   (match cats with Some l => l | None => [] end) db))
                      else withProducts db d) = d)
      by (intros d; destruct (filterGiven cats); reflexivity).
    rewrite Hprod, in_map_iff. split.
    + intros [q0 [E Hq0]]. destruct (product_id q0 =? product_id p) eqn:Eq.
      * apply Z.eqb_eq in Eq.
        assert (q0 = p)
          by now apply (NoDup_map_inj product_id (products db) q0 p (wf_product_pk db Hwf)).
        subst q0. left. congruence.
      * right. subst q. split; [exact Hq0|]. intros ->. rewrite Z.eqb_refl in Eq. discriminate.
    + intros [->|[Hq Hne]].
      * exists p. rewrite Z.eqb_refl. auto.
      * exists q. split; [|exact Hq].
        destruct (product_id q =? product_id p) eqn:Eq; [|reflexivity].
        apply Z.eqb_eq in Eq. exfalso. apply Hne.
        now apply (NoDup_map_inj product_id (products db) q p (wf_product_pk db Hwf)).
Qed.

Lemma editProduct_updates_given_fields_witness :
  wf Sample.catalogue /\
  exists views,
    snd (editProduct 100 1 (Some "") (Some 0) None Sample.catalogue) =
    json [] "Product updated successfully" "success"
      (ProductDetail
         (Some {| product_id := 1; product_name := "apple"; product_price := 5;
                  product_createdAt := 10; product_updatedAt := 100 |}) views).
Proof.
  assert (Hwf : wf Sample.catalogue) by (apply check_sound; reflexivity).
  split; [exact Hwf|].
  destruct (editProduct_updates_given_fields 100 (Some "") (Some 0) None Sample.catalogue
              (Sample.product 1 "apple" 5 10) Hwf) as [[views [H _]] _].
  - simpl. auto.
  - intros x Hx. injection Hx as <-. unfold int4. lia.
  - intros c [].
  - intros n q Hn. discriminate Hn.
  - intros Hf. discriminate Hf.
  - exists views. exact H.
Defined.

(** X16: [editProduct] does not check the new name itself: when another
    product already holds it, the update violates the unique constraint
    on product names, the handler throws without answering, and the
    store is left as it was, category list or not. *)
Theorem editProduct_name_clash_throws :
  forall (now id : Z) (n : string) (price : option Z) (cats : option (list Z))
         (db : Db) (q : Product),
    hasProduct db id = true -> n <> EmptyString ->
    In q (products db) -> product_id q <> id -> product_name q = n ->
    editProduct now id (Some n) price cats db =
    (db, Throws (ConstraintViolation "products_name_unique")).
Proof.
  intros now id n price cats db q Hid Hn Hq Hne Hname.
  unfold editProduct. rewrite (selectProductsById_some db id Hid).
  unfold transaction, bind, updateProduct.
  assert (Hg : JS.truthy (Some n) = true) by (destruct n; [congruence | reflexivity]).
  rewrite Hg, Hid. cbn [andb].
  assert (Hex : existsb (fun p => negb (product_id p =? id) &&
                                  String.eqb (product_name p) n) (products db) = true).
  { apply existsb_exists. exists q. split; [exact Hq|].
    apply andb_true_intro. split.
    - now apply negb_true_iff, Z.eqb_neq.
    - now apply String.eqb_eq. }
  rewrite Hex. now rewrite rollback_same.
Qed.

Lemma editProduct_name_clash_throws_witness :
  editProduct 100 1 (Some "apricot") None (Some [1]) Sample.catalogue =
  (Sample.catalogue, Throws (ConstraintViolation "products_name_unique")).
Proof.
  apply (editProduct_name_clash_throws 100 1 "apricot" None (Some [1]) Sample.catalogue
           (Sample.product 2 "apricot" 6 20)); try reflexivity; try discriminate.
  simpl. auto.
Defined.

(* ================================================================== *)
(** ** What every request maintains *)
(* ================================================================== *)

(** X17: the store after the migrations satisfies the schema constraints,
    has its sequences ahead of every id handed out and no product without
    a category, and every request of the API, whatever its outcome
    (answer, error answer or exception), leaves such a store such a
    store. *)
Theorem handlers_keep_invariant :
  Api.invariant Api.migrated /\
  (forall (req : Api.Request) (db : Db),
     Api.invariant db -> Api.invariant (Api.step req db)).
Proof.
  split; [apply invariant_migrated|].
  intros req db Hinv. destruct req; cbn [Api.step].
  - exact Hinv.
  - now apply addProduct_invariant.
  - now apply editProduct_invariant.
  - now apply deleteProduct_invariant.
  - exact Hinv.
  - now apply addCategory_invariant.
Qed.

(* ================================================================== *)
(** ** Issued tokens and the middleware *)
(* ================================================================== *)

(** X18: the access token [setAuthCookies] issues at [t0], held by the
    caller under [access_token] and presented at [now], passes
    [authenticateAccessToken] exactly when the signing secret is the
    middleware's own ["mySecret"] and fewer than 60 seconds have passed;
    it then decodes to the payload signed.  Under any other [JWT_SECRET]
    every issued token is answered 403, and so is an expired one.  The
    refresh token, presented in the access token's place, passes for 7
    days.  No cookie, or an empty one, is answered 401. *)
Theorem authenticateAccessToken_on_issued_tokens :
  forall (env : option string) (t0 : Z) (payload : option Auth.PayloadId)
         (now : Z) (jar : list Auth.Cookie),
    let issued := Auth.setAuthCookies env t0 payload in
    let held := Auth.receive jar (fst issued) in
    let id := match payload with Some p => p | None => Auth.anonymous end in
    let user life :=
      {| Middleware.user_id := id; Middleware.user_iat := t0;
         Middleware.user_exp := t0 + life |} in
    let present name := option_map Middleware.Compact (Auth.cookie held name) in
    (Auth.secret env = "mySecret" /\ now < t0 + 60 <->
     Middleware.authenticateAccessToken (present "access_token") now =
       Middleware.Next (user 60)) /\
    (Auth.secret env <> "mySecret" \/ t0 + 60 <= now <->
     Middleware.authenticateAccessToken (present "access_token") now =
       Middleware.Rejected 403 "Invalid or expired token") /\
    (Auth.secret env = "mySecret" /\ now < t0 + 604800 <->
     Middleware.authenticateAccessToken (present "refresh_token") now =
       Middleware.Next (user 604800)) /\
    Middleware.authenticateAccessToken None now =
      Middleware.Rejected 401 "Access token missing" /\
    Middleware.authenticateAccessToken (Some (Middleware.Text "")) now =
      Middleware.Rejected 401 "Access token missing".
Proof.
  intros env t0 payload now jar issued held id user present.
  assert (Ha : present "access_token" =
               Some (Middleware.Compact (Auth.sign id (Auth.secret env) 60 t0)))
    by reflexivity.
  assert (Hr : present "refresh_token" =
               Some (Middleware.Compact (Auth.sign id (Auth.secret env) 604800 t0)))
    by reflexivity.
  rewrite Ha, Hr.
  unfold Middleware.authenticateAccessToken, Middleware.verify, Auth.sign, user.
  cbn [Auth.tk_secret Auth.tk_exp Auth.tk_id Auth.tk_iat JS.is_empty].
  destruct (String.eqb (Auth.secret env) "mySecret") eqn:Es;
    [apply String.eqb_eq in Es | apply String.eqb_neq in Es];
    destruct (now <? t0 + 60) eqn:E1;
    [apply Z.ltb_lt in E1 | apply Z.ltb_ge in E1
    |apply Z.ltb_lt in E1 | apply Z.ltb_ge in E1];
    destruct (now <? t0 + 604800) eqn:E2;
    [apply Z.ltb_lt in E2 | apply Z.ltb_ge in E2
    |apply Z.ltb_lt in E2 | apply Z.ltb_ge in E2
    |apply Z.ltb_lt in E2 | apply Z.ltb_ge in E2
    |apply Z.ltb_lt in E2 | apply Z.ltb_ge in E2];
    cbn [andb];
    (split; [|split; [|split; [|split; reflexivity]]]);
    (split; [intros H | intros H; try discriminate H]);
    try reflexivity; try tauto; try lia;
    try (destruct H as [H|H]; [contradiction | lia]);
    try (destruct H as [H1 H2]; first [contradiction | lia]).
Qed.

(* ================================================================== *)
(** ** Query strings that carry an array of integers *)
(* ================================================================== *)

Lemma number_start_facts c :
  Query.number_start c = true ->
  Json.is_json_ws c = false /\
  existsb (Ascii.eqb c)
    ["n"%char; "t"%char; "f"%char; "034"%char; "["%char; "{"%char; "]"%char] = false.
Proof.
  destruct c as [[] [] [] [] [] [] [] []]; vm_compute; intros H;
    try discriminate H; split; reflexivity.
Qed.

Lemma digit_facts c :
  Json.is_digit c = true -> Ascii.eqb c "-"%char = false.
Proof.
  destruct c as [[] [] [] [] [] [] [] []]; vm_compute; intros H;
    try discriminate H; reflexivity.
Qed.

Lemma more_closes ns : Query.closes (Query.more ns).
Proof. destruct ns as [|n ns]; simpl; do 2 eexists; split; eauto. Qed.

Lemma lex_digits_app d t :
  Query.all_digits d = true -> Query.closes t -> Json.lex_digits (d ++ t) = (d, t).
Proof.
  intros Hd (c & r & -> & Hc). induction d as [|x d IH]; simpl.
  - destruct Hc as [->| ->]; reflexivity.
  - simpl in Hd. apply andb_prop in Hd. destruct Hd as [Hx Hd].
    rewrite Hx, (IH Hd). reflexivity.
Qed.

Lemma lex_number_numeral n t :
  Query.plainInt (snd n) = true -> Query.closes t ->
  Json.lex_number (Query.numeral n ++ t) =
  Some ({| Json.n_neg := fst n; Json.n_int := snd n;
           Json.n_frac := EmptyString; Json.n_exp := None |}, t).
Proof.
  intros Hp Ht. destruct n as [neg d]. cbn [fst snd] in *.
  destruct d as [|c d]; [discriminate Hp|]. cbn [Query.plainInt] in Hp.
  apply andb_prop in Hp. destruct Hp as [Hp Hz]. apply andb_prop in Hp.
  destruct Hp as [Hc Hd].
  assert (Hint : Json.lex_int (String c d ++ t) = Some (String c d, t)).
  { cbn [append Json.lex_int]. destruct (Ascii.eqb c "0"%char) eqn:E0.
    - apply Ascii.eqb_eq in E0. subst c. cbn [negb orb] in Hz.
      destruct d; [reflexivity | discriminate Hz].
    - rewrite Hc, (lex_digits_app d t Hd Ht). reflexivity. }
  assert (Hrest : Json.lex_frac t = Some (EmptyString, t) /\
                  Json.lex_exp t = Some (None, t)).
  { destruct Ht as (x & r & -> & [->| ->]); split; reflexivity. }
  destruct Hrest as [Hf He].
  unfold Query.numeral, Json.lex_number. cbn [fst snd]. destruct neg.
  - cbn [append]. change (Ascii.eqb "-" "-") with true. cbv iota.
    change (String c (d ++ t)) with (String c d ++ t).
    rewrite Hint, Hf, He. reflexivity.
  - cbn [append]. rewrite (digit_facts c Hc).
    change (String c (d ++ t)) with (String c d ++ t).
    rewrite Hint, Hf, He. reflexivity.
Qed.

Lemma numeral_start n :
  Query.plainInt (snd n) = true ->
  exists c r, Query.numeral n = String c r /\ Query.number_start c = true.
Proof.
  destruct n as [neg d]. cbn [snd]. intros Hp. unfold Query.numeral. cbn [fst snd].
  destruct neg.
  - do 2 eexists. split; reflexivity.
  - destruct d as [|c d]; [discriminate Hp|]. cbn [Query.plainInt] in Hp.
    apply andb_prop in Hp. destruct Hp as [Hp _]. apply andb_prop in Hp.
    destruct Hp as [Hc _]. do 2 eexists. split; [reflexivity|].
    unfold Query.number_start. rewrite Hc. apply orb_true_r.
Qed.

Lemma value_numeral n t fuel :
  Query.plainInt (snd n) = true -> Query.closes t -> (0 < fuel)%nat ->
  Json.value fuel (Query.numeral n ++ t) = Json.Ok (Query.number n) t.
Proof.
  intros Hp Ht Hfuel. destruct fuel as [|fuel]; [inversion Hfuel|]. pose proof (lex_number_numeral n t Hp Ht) as Hlex.
  destruct (numeral_start n Hp) as (c & r & En & Hc).
  rewrite En in *. cbn [append] in *.
  destruct (number_start_facts c Hc) as [Hws Hne].
  cbn [existsb] in Hne.
  repeat (apply orb_false_elim in Hne; destruct Hne as [? Hne]).
  cbn [Json.value Json.skip_ws]. rewrite Hws.
  repeat match goal with E : Ascii.eqb c _ = false |- _ => rewrite E; clear E end.
  unfold Query.number_start in Hc. rewrite Hc, Hlex. reflexivity.
Qed.

Lemma elements_more ns :
  Forall (fun n => Query.plainInt (snd n) = true) ns ->
  forall fuel, (List.length ns < fuel)%nat ->
  Json.elements fuel (Query.more ns) = Json.Ok (map Query.number ns) EmptyString.
Proof.
  induction 1 as [|n ns Hn Hns IH]; intros fuel Hf;
    (destruct fuel as [|fuel]; [inversion Hf|]).
  - reflexivity.
  - cbn [List.length] in Hf.
    cbn [Query.more Json.elements Json.skip_ws].
    change (Json.is_json_ws ",") with false. cbv iota.
    change (Ascii.eqb "," "]") with false. change (Ascii.eqb "," ",") with true.
    cbv iota.
    rewrite (value_numeral n (Query.more ns) fuel Hn (more_closes ns)) by lia.
    rewrite (IH fuel) by lia. reflexivity.
Qed.

Lemma value_arrayText ns :
  Forall (fun n => Query.plainInt (snd n) = true) ns ->
  forall fuel, (List.length ns < fuel)%nat ->
  Json.value (S fuel) (Query.arrayText ns) =
  Json.Ok (Json.JArray (map Query.number ns)) EmptyString.
Proof.
  intros Hns fuel Hf. destruct Hns as [|n ns Hn Hns]; [reflexivity|].
  cbn [List.length] in Hf.
  unfold Query.arrayText.
  destruct (numeral_start n Hn) as (c & r & En & Hc).
  destruct (number_start_facts c Hc) as [Hws Hne].
  cbn [existsb] in Hne.
  repeat (apply orb_false_elim in Hne; destruct Hne as [? Hne]).
  assert (Hskip : Json.skip_ws (Query.numeral n ++ Query.more ns) =
                  String c (r ++ Query.more ns)).
  { rewrite En. cbn [append Json.skip_ws]. now rewrite Hws. }
  cbn [Json.value Json.skip_ws].
  change (Json.is_json_ws "[") with false. cbv iota.
  change (Ascii.eqb "[" "n") with false. change (Ascii.eqb "[" "t") with false.
  change (Ascii.eqb "[" "f") with false. change (Ascii.eqb "[" "034") with false.
  change (Ascii.eqb "[" "[") with true. cbv iota.
  rewrite Hskip.
  match goal with E : Ascii.eqb c "]" = false |- _ => rewrite E end.
  rewrite (value_numeral n (Query.more ns) fuel Hn (more_closes ns)) by lia.
  rewrite (elements_more ns Hns fuel) by lia. reflexivity.
Qed.

Lemma integers_numbers ns :
  Forall (fun n => digitsValue 0 (snd n) <= 9007199254740991) ns ->
  integers (map Query.number ns) = Some (map Query.intOf ns).
Proof.
  induction 1 as [|n ns Hn Hns IH]; [reflexivity|].
  cbn [map integers Query.number]. rewrite IH.
  unfold safeInteger. cbn [Json.n_frac Json.n_exp Json.n_int Json.n_neg].
  apply Z.leb_le in Hn. rewrite Hn. reflexivity.
Qed.

Lemma length_append_ge s t : (String.length t <= String.length (s ++ t))%nat.
Proof. induction s as [|c s IH]; simpl; lia. Qed.

Lemma length_more ns : (List.length ns < String.length (Query.more ns))%nat.
Proof.
  induction ns as [|n ns IH]; simpl; [lia|].
  pose proof (length_append_ge (Query.numeral n) (Query.more ns)). lia.
Qed.

(** X19: a [categoryIds] parameter that is the JSON text of an array of
    integers of at most 2^53 - 1 in size, written without white space, is
    read as that list of integers: the request is answered as
    [getProducts] answers on the list.  The empty array is among them. *)
Theorem getProductsRequest_reads_integer_array :
  forall (ns : list (bool * string)) (name : option string) (db : Db),
    Forall (fun n => Query.plainInt (snd n) = true /\
                     digitsValue 0 (snd n) <= 9007199254740991) ns ->
    getProductsRequest (Some (Query.arrayText ns)) name db =
    Some (getProducts (Some (map Query.intOf ns)) name db).
Proof.
  intros ns name db Hns.
  assert (Hp : Forall (fun n => Query.plainInt (snd n) = true) ns)
    by (eapply Forall_impl; [|exact Hns]; now intros n [H _]).
  assert (Hv : Forall (fun n => digitsValue 0 (snd n) <= 9007199254740991) ns)
    by (eapply Forall_impl; [|exact Hns]; now intros n [_ H]).
  unfold getProductsRequest, decodeCategoryIds.
  change (JS.is_empty (Query.arrayText ns)) with false. cbv iota.
  unfold Json.parse, Json.fuel_for.
  replace (2 * String.length (Query.arrayText ns) + 2)%nat
    with (S (2 * String.length (Query.arrayText ns) + 1))%nat by lia.
  rewrite (value_arrayText ns Hp).
  - cbn [Json.skip_ws JS.is_empty]. now rewrite (integers_numbers ns Hv).
  - unfold Query.arrayText. cbn [String.length].
    destruct ns as [|n ns]; [simpl; lia|].
    pose proof (length_append_ge (Query.numeral n) (Query.more ns)).
    pose proof (length_more ns). cbn [List.length]. lia.
Qed.

Lemma getProductsRequest_reads_integer_array_witness :
  Forall (fun n => Query.plainInt (snd n) = true /\
                   digitsValue 0 (snd n) <= 9007199254740991)
         [(false, "1"); (true, "40")] /\
  getProductsRequest (Some "[1,-40]") None Sample.catalogue =
  Some (getProducts (Some [1; -40]) None Sample.catalogue).
Proof.
  assert (H : Forall (fun n => Query.plainInt (snd n) = true /\
                               digitsValue 0 (snd n) <= 9007199254740991)
                     [(false, "1"); (true, "40")]).
  { repeat constructor; simpl; lia. }
  split; [exact H|].
  exact (getProductsRequest_reads_integer_array [(false, "1"); (true, "40")] None
           Sample.catalogue H).
Defined.

(* ================================================================== *)
(** ** [getProducts], the name search and the two messages *)
(* ================================================================== *)

Lemma no_match_iff cats db :
  filterGiven cats = true ->
  (matchingProductIds (match cats with Some l => l | None => [] end) db = [] <->
   forall q, ~ (forall c, In c (match cats with Some l => l | None => [] end) ->
                          associated db q c)).
Proof.
  intros EF.
  assert (HC : match cats with Some l => l | None => [] end <> [])
    by (destruct cats as [[|c C]|]; try discriminate EF; discriminate).
  split.
  - intros E q Hq. apply (In_matchingProductIds _ db q HC) in Hq.
    rewrite E in Hq. contradiction.
  - intros H. destruct (matchingProductIds _ db) as [|q M] eqn:E; [reflexivity|].
    exfalso. apply (H q). apply (In_matchingProductIds _ db q HC).
    rewrite E. now left.
Qed.

(** X20: on a store satisfying the schema, a name search with a text
    that holds none of the pattern characters of LIKE lists exactly the
    products that have a category and whose name contains the text, case
    disregarded, provided that, when category ids are given as well, some
    product has all of them: which products have them plays no part. *)
Theorem getProducts_name_search_is_containment :
  forall (s : string) (cats : option (list Z)) (db : Db) (pid : Z),
    wf db -> s <> EmptyString -> Pg.plain s = true ->
    (filterGiven cats = true ->
     exists q, forall c, In c (match cats with Some l => l | None => [] end) ->
                         associated db q c) ->
    (In pid (listedIds (getProducts cats (Some s) db)) <->
     exists p, In p (products db) /\ product_id p = pid /\
               (exists c, associated db pid c) /\
               exists pre post,
                 JS.toLowerCase (product_name p) = pre ++ JS.toLowerCase s ++ post).
Proof.
  intros s cats db pid Hwf Hs Hplain Hsome.
  assert (Ht : JS.truthy (Some s) = true) by (destruct s; [congruence | reflexivity]).
  assert (Hf : forall n, nameFilter (Some s) n = Pg.ilike n ("%" ++ s ++ "%"))
    by (intros n; destruct s; [congruence | reflexivity]).
  assert (Hdrop : getProducts cats (Some s) db = getProducts None (Some s) db).
  { destruct cats as [C|]; [|reflexivity].
    destruct (filterGiven (Some C)) eqn:EF.
    - apply getProducts_second_where_wins; [exact Ht|].
      destruct (Hsome eq_refl) as [q Hq]. intros E.
      exact (proj1 (no_match_iff (Some C) db EF) E q Hq).
    - destruct C; [reflexivity | discriminate EF]. }
  rewrite Hdrop, (In_listedIds_unfiltered db None (Some s) pid Hwf (or_introl eq_refl)).
  split; intros (p & Hp & Hid & Hc & Hn); exists p; repeat split; auto.
  - rewrite Hf in Hn. now apply (ilike_contains s _ Hplain).
  - rewrite Hf. now apply (ilike_contains s _ Hplain).
Qed.

Lemma getProducts_name_search_is_containment_witness :
  wf Sample.catalogue /\
  In 2 (listedIds (getProducts (Some [4]) (Some "PRI") Sample.catalogue)).
Proof.
  assert (Hwf : wf Sample.catalogue) by (apply check_sound; reflexivity).
  split; [exact Hwf|].
  apply (getProducts_name_search_is_containment "PRI" (Some [4]) Sample.catalogue 2 Hwf).
  - discriminate.
  - reflexivity.
  - intros _. exists 20. intros c [<-|[]]. unfold associated. simpl. auto.
  - exists (Sample.product 2 "apricot" 6 20). split; [simpl; auto|].
    split; [reflexivity|]. split.
    + exists 5. unfold associated. simpl. auto.
    + exists "a", "cot". reflexivity.
Defined.

(** X21: a request whose [categoryIds] is absent or read as a list of
    integers of the range of the id column is answered 200 by
    [getProducts], with status "success", a list and no cookie.  The
    message is "No products found", and the list empty, exactly when
    category ids are given and no product has all of them; in every other
    case, an empty list included, the message is "Products fetched
    successfully". *)
Theorem getProducts_messages :
  forall (raw name : option string) (cats : option (list Z)) (db : Db),
    decodeCategoryIds raw = Ids cats ->
    (forall c, In c (match cats with Some l => l | None => [] end) -> int4 c) ->
    let C := match cats with Some l => l | None => [] end in
    let none := C <> [] /\ forall q, ~ (forall c, In c C -> associated db q c) in
    (exists l,
       getProductsRequest raw name db =
       Some (json [] "Products fetched successfully" "success" (ProductList l)) \/
       getProductsRequest raw name db =
       Some (json [] "No products found" "success" (ProductList l))) /\
    (none <->
     getProductsRequest raw name db =
     Some (json [] "No products found" "success" (ProductList []))) /\
    (~ none <->
     exists l, getProductsRequest raw name db =
               Some (json [] "Products fetched successfully" "success" (ProductList l))).
Proof.
  intros raw name cats db Hraw _ C none.
  assert (Hreq : getProductsRequest raw name db = Some (getProducts cats name db))
    by (unfold getProductsRequest; now rewrite Hraw).
  rewrite Hreq. clear Hreq Hraw.
  assert (HC : filterGiven cats = true <-> C <> []).
  { unfold C. destruct cats as [[|c l]|]; simpl; split; congruence. }
  destruct (filterGiven cats) eqn:EF.
  - pose proof (no_match_iff cats db EF) as Hno. fold C in Hno.
    unfold getProducts. rewrite EF. fold C. cbn [andb].
    destruct (matchingProductIds C db) as [|q M] eqn:EM; cbn [List.length Nat.eqb].
    + assert (Hn : none) by (split; [now apply HC | now apply Hno]).
      split; [eexists; right; reflexivity|]. split.
      * tauto.
      * split; [tauto|]. intros [l Hl]. inversion Hl.
    + assert (Hn : ~ none)
        by (intros [_ Hn]; apply Hno in Hn; discriminate Hn).
      split; [eexists; left; reflexivity|]. split.
      * split; [tauto|]. intros Hl. inversion Hl.
      * split; [|tauto]. intros _. eexists. reflexivity.
  - assert (Hn : ~ none) by (intros [Hn _]; apply HC in Hn; discriminate Hn).
    unfold getProducts. rewrite EF. cbn [andb].
    split; [eexists; left; reflexivity|]. split.
    + split; [tauto|]. intros Hl. inversion Hl.
    + split; [|tauto]. intros _. eexists. reflexivity.
Qed.

Lemma getProducts_messages_witness :
  decodeCategoryIds (Some "[5,4]") = Ids (Some [5; 4]) /\
  (forall c, In c [5; 4] -> int4 c) /\
  getProductsRequest (Some "[5,4]") None Sample.catalogue =
  Some (json [] "No products found" "success" (ProductList [])).
Proof.
  assert (Hr : forall c, In c [5; 4] -> int4 c)
    by (intros c [<-|[<-|[]]]; unfold int4; lia).
  split; [reflexivity|]. split; [exact Hr|].
  destruct (getProducts_messages (Some "[5,4]") None (Some [5; 4]) Sample.catalogue
              eq_refl Hr) as (_ & [Hnone _] & _).
  apply Hnone. split; [discriminate|].
  apply (proj1 (no_match_iff (Some [5; 4]) Sample.catalogue eq_refl)). reflexivity.
Defined.
